(** * Black-Scholes option pricer (black_scholes.cpp): model and properties

    The C++ program computes with IEEE-754 binary64 values ([double]).  The
    model keeps that arithmetic: every [+ - * /], unary minus and [sqrt] of
    the source is the corresponding correctly rounded binary64 operation,
    taken from the specification of floating-point arithmetic that ships
    with the prover ([SpecFloat], precision 53, [emax] 1024, round to
    nearest even, one rounding per operation, no contraction).

    The single NaN of [SpecFloat] stands for every NaN of the format.

    The functions [erf], [log], [exp] and [pow] come from the C math
    library, which is not part of the program; they are a parameter of the
    model (record [Libm]).  [strtod] and the text [operator<<] produces
    for a double are parameters of [main] in the same way. *)

From Stdlib Require Import ZArith Lia Bool List String Ascii.
From Stdlib Require Import Floats.SpecFloat.
Import ListNotations.

Set Implicit Arguments.

(* ================================================================== *)
(** * Binary64 arithmetic *)
(* ================================================================== *)

Module B64.

Definition prec : Z := 53.
Definition emax : Z := 1024.

(** A C [double].  Values coming from the program satisfy [valid]. *)
Definition double : Set := spec_float.

Definition valid (x : double) : bool := valid_binary prec emax x.

Definition add : double -> double -> double := SFadd prec emax.
Definition sub : double -> double -> double := SFsub prec emax.
Definition mul : double -> double -> double := SFmul prec emax.
Definition div : double -> double -> double := SFdiv prec emax.
Definition sqrt : double -> double := SFsqrt prec emax.
Definition opp : double -> double := SFopp.

Definition leb : double -> double -> bool := SFleb.
Definition ltb : double -> double -> bool := SFltb.
Definition eqb : double -> double -> bool := SFeqb.

(** The double nearest to the dyadic number [m * 2^e]. *)
Definition dyadic (m e : Z) : double := binary_normalize prec emax m e false.

(** An integer literal converted to double. *)
Definition of_Z (n : Z) : double := dyadic n 0.

Definition pinf : double := S754_infinity false.
Definition ninf : double := S754_infinity true.
Definition nan : double := S754_nan.
Definition pzero : double := S754_zero false.
Definition nzero : double := S754_zero true.

Definition is_nan (x : double) : bool :=
  match x with S754_nan => true | _ => false end.

Definition is_inf (x : double) : bool :=
  match x with S754_infinity _ => true | _ => false end.

Definition is_zero (x : double) : bool :=
  match x with S754_zero _ => true | _ => false end.

(** [isfinite] of <cmath>: neither an infinity nor a NaN. *)
Definition is_finite (x : double) : bool :=
  match x with S754_zero _ | S754_finite _ _ _ => true | _ => false end.

Definition is_inf_or_nan (x : double) : bool := negb (is_finite x).

(** Finite and strictly positive. *)
Definition is_pos_finite (x : double) : bool :=
  match x with S754_finite false _ _ => true | _ => false end.

Definition is_neg_finite (x : double) : bool :=
  match x with S754_finite true _ _ => true | _ => false end.

End B64.

Import B64.

Declare Scope b64_scope.
Delimit Scope b64_scope with b64.
Bind Scope b64_scope with double.
Infix "+" := add : b64_scope.
Infix "-" := sub : b64_scope.
Infix "*" := mul : b64_scope.
Infix "/" := div : b64_scope.
Notation "- x" := (opp x) : b64_scope.

(** The literals of the source. *)
Definition lit_0_5 : double := dyadic 1 (-1).
Definition lit_1 : double := of_Z 1.
Definition lit_2_0 : double := of_Z 2.
Definition lit_100_0 : double := of_Z 100.
Definition lit_365_0 : double := of_Z 365.

(** [M_SQRT1_2] of <cmath>: 0.70710678118654752440, that is
    0x1.6a09e667f3bcdp-1, the double nearest to 1/sqrt(2). *)
Definition M_SQRT1_2 : double := S754_finite false 0x16A09E667F3BCD (-53).

(* ================================================================== *)
(** * The math library *)
(* ================================================================== *)

(** The four <cmath> functions the program calls besides [sqrt]. *)
Record Libm : Type := {
  erf : double -> double;
  log : double -> double;
  exp : double -> double;
  pow : double -> double -> double
}.

(* ================================================================== *)
(** * The pricing functions *)
(* ================================================================== *)

Section Pricing.

Variable lm : Libm.

Local Open Scope b64_scope.

(** [return 0.5 * (1 + erf(value * M_SQRT1_2));] *)
Definition cdf_normal_distribution (value : double) : double :=
  lit_0_5 * (lit_1 + erf lm (value * M_SQRT1_2)).

(** The source names the third parameter [days_to_expiration]; [main]
    passes it in years. *)
Definition calculate_call_price
    (stock_price strike_price days_to_expiration volatility risk_free_rate : double)
    : double :=
  let d1 :=
    (log lm (stock_price / strike_price)
     + ((risk_free_rate + (pow lm volatility lit_2_0 / lit_2_0))
        * days_to_expiration))
    / (volatility * sqrt days_to_expiration) in
  let d2 := d1 - (volatility * sqrt days_to_expiration) in
  (cdf_normal_distribution d1 * stock_price)
  - (cdf_normal_distribution d2 * strike_price
     * exp lm (- risk_free_rate * days_to_expiration)).

Definition calculate_put_price
    (stock_price strike_price days_to_expiration volatility risk_free_rate : double)
    : double :=
  calculate_call_price stock_price strike_price days_to_expiration
                       volatility risk_free_rate
  + (strike_price / exp lm (risk_free_rate * days_to_expiration))
  - stock_price.

End Pricing.

(* ================================================================== *)
(** * The program: streams, exit status and [main] *)
(* ================================================================== *)

(** Which pricing function a run entered. *)
Inductive pricer : Set := CallPrice | PutPrice.

(** What a run does, in program order: text inserted into [cout], text
    inserted into [cerr], and the pricing functions it enters with their
    five arguments (stock, strike, time, volatility, rate). *)
Inductive event : Set :=
| Stdout (text : string)
| Stderr (text : string)
| Priced (f : pricer) (stock strike time volatility rate : double).

(** The floating-point format state of [cout]: [floatfield] and
    [precision]. *)
Record stream_format : Set := { fixed_field : bool; precision : Z }.

Record world : Set := { trace : list event; cout_format : stream_format }.

(** A computation either runs to its end or calls [exit]. *)
Inductive outcome (A : Type) : Type :=
| Returned (a : A)
| Exited (status : Z).
Arguments Returned {A} a.
Arguments Exited {A} status.

Definition prog (A : Type) : Type := world -> outcome A * world.

Definition ret {A} (a : A) : prog A := fun w => (Returned a, w).

Definition bind {A B} (c : prog A) (k : A -> prog B) : prog B :=
  fun w =>
    match c w with
    | (Returned a, w') => k a w'
    | (Exited n, w') => (Exited n, w')
    end.

Declare Scope prog_scope.
Delimit Scope prog_scope with prog.
Bind Scope prog_scope with prog.
Notation "x <- c ;; k" := (bind c (fun x => k))
  (at level 61, c at next level, right associativity) : prog_scope.
Notation "c ;; k" := (bind c (fun _ => k))
  (at level 61, right associativity) : prog_scope.

Definition emit (e : event) : prog unit :=
  fun w => (Returned tt, {| trace := trace w ++ [e]; cout_format := cout_format w |}).

Definition exit {A} (status : Z) : prog A := fun w => (Exited status, w).

Definition set_format (f : stream_format -> stream_format) : prog unit :=
  fun w => (Returned tt, {| trace := trace w; cout_format := f (cout_format w) |}).

Definition get_format : prog stream_format :=
  fun w => (Returned (cout_format w), w).

(** [endl]: a newline (and a flush, which leaves no mark in the text). *)
Definition endl : string := String (ascii_of_nat 10) EmptyString.

(** A stream starts with [precision() == 6] and no [floatfield] flag. *)
Definition initial_world : world :=
  {| trace := []; cout_format := {| fixed_field := false; precision := 6 |} |}.

Definition banner : string :=
  "Options pricing calculator based on the Black-Scholes Model.".

Definition usage : string :=
  "Error: Input [Stock Price ($)] [Strike Price ($)] [Days to Expiration (days)] [Volatility (%)] [Risk-Free Rate of Interest (%)]".

Section Program.

Variable lm : Libm.

(** [strtod(s, nullptr)] of the C library. *)
Variable strtod : string -> double.

(** The text [operator<<(double)] produces under a given format state. *)
Variable show_double : stream_format -> double -> string.

Local Open Scope prog_scope.

(** [cout << text] *)
Definition cout (text : string) : prog unit := emit (Stdout text).

(** [cerr << text] *)
Definition cerr (text : string) : prog unit := emit (Stderr text).

(** [cout << x] for a double [x]. *)
Definition cout_double (x : double) : prog unit :=
  f <- get_format ;; emit (Stdout (show_double f x)).

(** Entering a pricing function: the call is recorded, the value is the
    function's.  The operands of a chain of [<<] are taken from left to
    right. *)
Definition price (f : pricer) (s k t v r : double) : prog double :=
  emit (Priced f s k t v r) ;;
  ret (match f with
       | CallPrice => calculate_call_price lm s k t v r
       | PutPrice => calculate_put_price lm s k t v r
       end).

(** [argv[i]] *)
Definition arg (argv : list string) (i : nat) : string := nth i argv EmptyString.

(** [int main(int argc, const char** argv)], with [argc] the length of
    [argv]. *)
Definition main (argv : list string) : prog Z :=
  let argc := Z.of_nat (List.length argv) in
  cout banner ;; cout endl ;;
  (if negb (argc =? 6)%Z
   then cerr usage ;; cerr endl ;; exit 1
   else ret tt) ;;
  cout endl ;;
  let stock_price := strtod (arg argv 1) in
  let strike_price := strtod (arg argv 2) in
  let days_to_expiration := strtod (arg argv 3) in
  let volatility := strtod (arg argv 4) in
  let risk_free_rate := strtod (arg argv 5) in
  cout "Stock Price: $" ;; cout_double stock_price ;; cout endl ;;
  cout "Strike Price: $" ;; cout_double strike_price ;; cout endl ;;
  cout "Days to Expiration: " ;; cout_double days_to_expiration ;;
    cout " days" ;; cout endl ;;
  cout "Volatility: " ;; cout_double volatility ;; cout "%" ;; cout endl ;;
  cout "Risk-Free Rate of Interest: " ;; cout_double risk_free_rate ;;
    cout "%" ;; cout endl ;;
  cout endl ;;
  let days_to_expiration := (days_to_expiration / lit_365_0)%b64 in
  let volatility := (volatility / lit_100_0)%b64 in
  let risk_free_rate := (risk_free_rate / lit_100_0)%b64 in
  set_format (fun f => {| fixed_field := fixed_field f; precision := 2 |}) ;;
  set_format (fun f => {| fixed_field := true; precision := precision f |}) ;;
  cout "Call Option Value: $" ;;
  c <- price CallPrice stock_price strike_price days_to_expiration
             volatility risk_free_rate ;;
  cout_double c ;; cout endl ;;
  cout "Put Option Value: $" ;;
  p <- price PutPrice stock_price strike_price days_to_expiration
             volatility risk_free_rate ;;
  cout_double p ;; cout endl ;;
  ret 0%Z.

(** One run of the program from a fresh process. *)
Definition run (argv : list string) : outcome Z * world := main argv initial_world.

(** The status the process ends with. *)
Definition exit_status (argv : list string) : Z :=
  match fst (run argv) with Returned n => n | Exited n => n end.

Definition events (argv : list string) : list event := trace (snd (run argv)).

End Program.

(** The text a trace leaves on standard output. *)
Fixpoint stdout_text (t : list event) : string :=
  match t with
  | [] => EmptyString
  | Stdout s :: t' => (s ++ stdout_text t')%string
  | _ :: t' => stdout_text t'
  end.

(** The text a trace leaves on standard error. *)
Fixpoint stderr_text (t : list event) : string :=
  match t with
  | [] => EmptyString
  | Stderr s :: t' => (s ++ stderr_text t')%string
  | _ :: t' => stderr_text t'
  end.

(** The pricing calls of a trace, in order. *)
Fixpoint pricing_calls (t : list event) : list event :=
  match t with
  | [] => []
  | Priced f s k d v r :: t' => Priced f s k d v r :: pricing_calls t'
  | _ :: t' => pricing_calls t'
  end.

(* ================================================================== *)
(** * A reference math library *)
(* ================================================================== *)

(** A concrete [Libm], used to run the program on concrete inputs.  Each
    function is evaluated from its power series in integer fixed-point
    arithmetic with [F] fractional bits, far more than a double holds,
    and the sum is rounded once to the nearest double; the special values
    are those of Annex F of the C standard. *)
Module RefLibm.

Local Open Scope Z_scope.

Definition F : Z := 320.
Definition ONE : Z := 2 ^ F.

(** Fixed-point product, rounded down. *)
Definition fmul (a b : Z) : Z := Z.shiftr (a * b) F.

(** The fixed-point value of [m * 2^e], rounded down. *)
Definition fix_of (m e : Z) : Z := Z.shiftl m (e + F).

(** arctan(1/q) = sum_i (-1)^i / ((2i+1) q^(2i+1)). *)
Fixpoint atan_inv_loop (fuel : nat) (q2 i term acc : Z) : Z :=
  match fuel with
  | O => acc
  | S fuel' =>
      let t := term / (2 * i + 1) in
      atan_inv_loop fuel' q2 (i + 1) (term / q2)
                    (if Z.even i then acc + t else acc - t)
  end.

Definition atan_inv (q : Z) : Z := atan_inv_loop 150 (q * q) 0 (ONE / q) 0.

(** Machin: pi = 16 arctan(1/5) - 4 arctan(1/239). *)
Definition PI : Z := Eval vm_compute in 16 * atan_inv 5 - 4 * atan_inv 239.

(** 2 / sqrt(pi). *)
Definition TWO_OVER_SQRTPI : Z :=
  Eval vm_compute in (2 * ONE * ONE) / Z.sqrt (PI * ONE).

(** 2 artanh(z) = 2 sum_i z^(2i+1) / (2i+1). *)
Fixpoint atanh_loop (fuel : nat) (z2 i term acc : Z) : Z :=
  match fuel with
  | O => acc
  | S fuel' =>
      atanh_loop fuel' z2 (i + 1) (fmul term z2) (acc + term / (2 * i + 1))
  end.

Definition two_atanh (z : Z) : Z := 2 * atanh_loop 110 (fmul z z) 0 z 0.

(** ln 2 = 2 artanh(1/3). *)
Definition LN2 : Z := Eval vm_compute in two_atanh (ONE / 3).

(** sum_i r^i / i! *)
Fixpoint exp_loop (fuel : nat) (r i term acc : Z) : Z :=
  match fuel with
  | O => acc
  | S fuel' => exp_loop fuel' r (i + 1) (fmul term r / (i + 1)) (acc + term)
  end.

Definition exp (x : double) : double :=
  match x with
  | S754_nan => S754_nan
  | S754_infinity false => S754_infinity false
  | S754_infinity true => S754_zero false
  | S754_zero _ => lit_1
  | S754_finite s m e =>
      let xf := fix_of (cond_Zopp s (Zpos m)) e in
      if (710 * ONE <=? xf)%Z then S754_infinity false
      else if (xf <=? -746 * ONE)%Z then S754_zero false
      else
        let k := (2 * xf + LN2) / (2 * LN2) in
        let r := xf - k * LN2 in
        dyadic (exp_loop 70 r 0 ONE 0) (k - F)
  end.

Definition log (x : double) : double :=
  match x with
  | S754_nan => S754_nan
  | S754_zero _ => S754_infinity true
  | S754_infinity false => S754_infinity false
  | S754_infinity true => S754_nan
  | S754_finite true _ _ => S754_nan
  | S754_finite false m e =>
      let d := Zpos (digits2_pos m) in
      let top := 2 ^ (d - 1) in
      let z := ((Zpos m - top) * ONE) / (Zpos m + top) in
      dyadic (two_atanh z + (e + d - 1) * LN2) (- F)
  end.

(** sum_n (-1)^n t^n / (n! (2n+1)), with [t] the square of the argument. *)
Fixpoint erf_loop (fuel : nat) (t n term acc : Z) : Z :=
  match fuel with
  | O => acc
  | S fuel' =>
      let u := term / (2 * n + 1) in
      erf_loop fuel' t (n + 1) (fmul term t / (n + 1))
               (if Z.even n then acc + u else acc - u)
  end.

Definition erf (x : double) : double :=
  match x with
  | S754_nan => S754_nan
  | S754_infinity s => S754_finite s 4503599627370496 (-52)
  | S754_zero s => S754_zero s
  | S754_finite s m e =>
      if (6 * ONE <=? fix_of (Zpos m) e)%Z
      then S754_finite s 4503599627370496 (-52)
      else
        let t := fix_of (Zpos m * Zpos m) (2 * e) in
        let g := fmul (erf_loop 300 t 0 ONE 0) TWO_OVER_SQRTPI in
        binary_normalize prec emax (cond_Zopp s (Zpos m * g)) (e - F) s
  end.

(** The program only ever passes the exponent 2.0, for which the result
    is the correctly rounded square. *)
Definition pow (x y : double) : double :=
  if eqb y lit_2_0 then (x * x)%b64 else exp (y * log x)%b64.

Definition libm : Libm := Build_Libm erf log exp pow.

End RefLibm.


(* ================================================================== *)
(** * Auxiliary definitions for the statements *)
(* ================================================================== *)

(** ** The local variables of [calculate_call_price] *)

Section Locals.

Variable lm : Libm.

Local Open Scope b64_scope.

(** The divisor [volatility * sqrt(days_to_expiration)] of [d1]. *)
Definition call_divisor (days_to_expiration volatility : double) : double :=
  volatility * sqrt days_to_expiration.

(** The dividend of [d1]. *)
Definition call_dividend
    (stock_price strike_price days_to_expiration volatility risk_free_rate : double)
    : double :=
  log lm (stock_price / strike_price)
  + ((risk_free_rate + (pow lm volatility lit_2_0 / lit_2_0))
     * days_to_expiration).

(** The value of the local [d1]. *)
Definition call_d1
    (stock_price strike_price days_to_expiration volatility risk_free_rate : double)
    : double :=
  call_dividend stock_price strike_price days_to_expiration volatility
                risk_free_rate
  / call_divisor days_to_expiration volatility.

(** The value of the local [d2]. *)
Definition call_d2
    (stock_price strike_price days_to_expiration volatility risk_free_rate : double)
    : double :=
  call_d1 stock_price strike_price days_to_expiration volatility risk_free_rate
  - call_divisor days_to_expiration volatility.

End Locals.

(** ** The formulas as the specification words them *)

Section SpecFormulas.

Variable lm : Libm.

Local Open Scope b64_scope.

(** [Phi(x) = 0.5 * (1 + erf(x / sqrt(2)))] *)
Definition spec_NormalCDF (x : double) : double :=
  lit_0_5 * (lit_1 + erf lm (x / sqrt lit_2_0)).

(** [d1 = (ln(S/K) + (r + sigma^2/2) * T) / (sigma * sqrt(T))] *)
Definition spec_d1 (S K T sigma r : double) : double :=
  (log lm (S / K) + (r + pow lm sigma lit_2_0 / lit_2_0) * T)
  / (sigma * sqrt T).

(** [d2 = d1 - sigma * sqrt(T)] *)
Definition spec_d2 (S K T sigma r : double) : double :=
  spec_d1 S K T sigma r - sigma * sqrt T.

(** [CallPrice = Phi(d1) * S - Phi(d2) * K * exp(-r * T)], with [Phi] the
    function computed by [cdf_normal_distribution] and [-r * T] read as
    the negated product. *)
Definition spec_CallPrice (S K T sigma r : double) : double :=
  cdf_normal_distribution lm (spec_d1 S K T sigma r) * S
  - cdf_normal_distribution lm (spec_d2 S K T sigma r) * K
    * exp lm (- (r * T)).

(** [PutPrice = CallPrice(S,K,T,sigma,r) + K * exp(-r*T) - S] *)
Definition spec_PutPrice (S K T sigma r : double) : double :=
  calculate_call_price lm S K T sigma r + K * exp lm (- (r * T)) - S.

End SpecFormulas.

(** ** What is assumed of the math library *)

(** The special values Annex F of the C standard (F.10) fixes for the
    four functions, as far as the program can meet them. *)
Record AnnexF (lm : Libm) : Prop := {
  erf_of_nan : erf lm nan = nan;
  erf_of_zero : forall s, erf lm (S754_zero s) = S754_zero s;
  erf_of_inf :
    forall s, erf lm (S754_infinity s) = S754_finite s 4503599627370496 (-52);
  log_of_nan : log lm nan = nan;
  log_of_zero : forall s, log lm (S754_zero s) = ninf;
  log_of_one : log lm lit_1 = pzero;
  log_of_negative : forall m e, log lm (S754_finite true m e) = nan;
  log_of_ninf : log lm ninf = nan;
  log_of_pinf : log lm pinf = pinf;
  exp_of_nan : exp lm nan = nan;
  exp_of_zero : forall s, exp lm (S754_zero s) = lit_1;
  exp_of_ninf : exp lm ninf = pzero;
  exp_of_pinf : exp lm pinf = pinf;
  pow_of_nan_2 : pow lm nan lit_2_0 = nan;
  pow_of_zero_2 : forall s, pow lm (S754_zero s) lit_2_0 = pzero;
  pow_of_inf_2 : forall s, pow lm (S754_infinity s) lit_2_0 = pinf
}.

(** [erf] is odd at the argument [t]. *)
Definition erf_odd_at (lm : Libm) (t : double) : Prop :=
  erf lm (opp t) = opp (erf lm t).

(** [erf] returns a double between -1 and 1 at the argument [t]. *)
Definition erf_in_range_at (lm : Libm) (t : double) : Prop :=
  valid (erf lm t) = true
  /\ leb (opp lit_1) (erf lm t) = true
  /\ leb (erf lm t) lit_1 = true.

(** [erf] stays between -1 and 1 on every double other than NaN. *)
Definition erf_in_range (lm : Libm) : Prop :=
  forall t, valid t = true -> is_nan t = false -> erf_in_range_at lm t.

(** [erf] is non-decreasing on the doubles other than NaN. *)
Definition erf_monotone (lm : Libm) : Prop :=
  forall a b,
    valid a = true -> valid b = true -> is_nan a = false -> is_nan b = false ->
    leb a b = true -> leb (erf lm a) (erf lm b) = true.

(** ** Small stand-ins used to instantiate the assumptions *)

(** A crude non-decreasing stand-in for [erf]: the identity clipped to
    [-1, 1].  It only serves to show that [erf_monotone] and
    [erf_in_range] can be met together. *)
Definition erf_clip (x : double) : double :=
  match x with
  | S754_nan => nan
  | _ => if ltb x (opp lit_1) then opp lit_1
         else if ltb lit_1 x then lit_1 else x
  end.

Definition libm_clip : Libm :=
  Build_Libm erf_clip RefLibm.log RefLibm.exp RefLibm.pow.

(** What the [erf] of glibc 2.36 (x86-64) returns at two neighbouring
    doubles near 1.25, 0x1.3fffffffd5c10p+0 and 0x1.3fffffffd5c11p+0:
    0x1.d8865d9897e42p-1 at the smaller and 0x1.d8865d9897e41p-1 at the
    larger argument, each one unit in the last place from the correctly
    rounded value.  At every other argument it is the reference
    function. *)
Definition erf_glibc_sample (t : double) : double :=
  if eqb t (S754_finite false 0x13FFFFFFFD5C10 (-52))
  then S754_finite false 0x1D8865D9897E42 (-53)
  else if eqb t (S754_finite false 0x13FFFFFFFD5C11 (-52))
  then S754_finite false 0x1D8865D9897E41 (-53)
  else RefLibm.erf t.

Definition libm_glibc_sample : Libm :=
  Build_Libm erf_glibc_sample RefLibm.log RefLibm.exp RefLibm.pow.

(** The value of a decimal digit. *)
Definition digit_value (c : ascii) : option Z :=
  let n := Z.of_nat (nat_of_ascii c) in
  if ((48 <=? n) && (n <=? 57))%Z then Some (n - 48)%Z else None.

(** Reads the longest prefix of decimal digits: its value on top of [acc],
    the number of digits read, and the rest of the text. *)
Fixpoint read_digits (s : string) (acc : Z) (count : Z) : Z * Z * string :=
  match s with
  | EmptyString => (acc, count, s)
  | String c rest =>
      match digit_value c with
      | Some d => read_digits rest (10 * acc + d)%Z (count + 1)%Z
      | None => (acc, count, s)
      end
  end.

(** A stand-in for [strtod], used only to run [main] on concrete command
    lines.  It reads plain decimal notation: an optional minus sign,
    digits, an optional point and more digits, and converts them with
    one division, which gives [strtod]'s correctly rounded value as long
    as the digits and the power of ten are exact doubles (up to 15
    digits).  Text in which it finds no digit converts to +0.0, as with
    [strtod].  It does not know the leading blanks, plus sign, exponent,
    hexadecimal notation, "inf" and "nan" that [strtod] accepts. *)
Definition strtod_decimal (s : string) : double :=
  let '(negative, s1) :=
    match s with
    | String "-"%char rest => (true, rest)
    | _ => (false, s)
    end in
  let '(int_part, n_int, s2) := read_digits s1 0%Z 0%Z in
  let '(all_digits, n_frac) :=
    match s2 with
    | String "."%char rest =>
        let '(v, n, _) := read_digits rest int_part 0%Z in (v, n)
    | _ => (int_part, 0%Z)
    end in
  let magnitude := div (of_Z all_digits) (of_Z (10 ^ n_frac)) in
  if (n_int + n_frac =? 0)%Z then pzero
  else if negative then opp magnitude else magnitude.

(** A format-blind stand-in for [operator<<(double)]. *)
Definition show_nothing (_ : stream_format) (_ : double) : string := EmptyString.

(** ** Doubles the statements name *)

(** 0.2, that is 0x1.999999999999ap-3. *)
Definition lit_0_2 : double := S754_finite false 0x1999999999999A (-55).

(** 0.05, that is 0x1.999999999999ap-5. *)
Definition lit_0_05 : double := S754_finite false 0x1999999999999A (-57).

(** 0.03, that is 0x1.eb851eb851eb8p-6. *)
Definition lit_0_03 : double := S754_finite false 0x1EB851EB851EB8 (-58).

(** [x] is a double nearest to the rational [num / den]: twice its
    distance to [num / den] is at most one unit in its last place. *)
Definition nearest_to_ratio (num den : Z) (x : double) : Prop :=
  match x with
  | S754_finite false m e =>
      (0 < den /\ e <= 0
       /\ 2 * Z.abs (Zpos m * den - num * 2 ^ (- e)) <= den)%Z
  | _ => False
  end.

(** ** What a run with five arguments is expected to leave behind *)

Section ExpectedRun.

Variable lm : Libm.
Variable strtod : string -> double.
Variable show_double : stream_format -> double -> string.

(** The format of [cout] before and after [precision(2)] and [fixed]. *)
Definition general_6 : stream_format := {| fixed_field := false; precision := 6 |}.
Definition fixed_2 : stream_format := {| fixed_field := true; precision := 2 |}.

(** The events of a successful run on the parsed inputs [s], [k], [d],
    [v], [r] (stock, strike, days, volatility in percent, rate in
    percent). *)
Definition success_events (s k d v r : double) : list event :=
  let t := div d lit_365_0 in
  let sigma := div v lit_100_0 in
  let rate := div r lit_100_0 in
  [ Stdout banner; Stdout endl;
    Stdout endl;
    Stdout "Stock Price: $"; Stdout (show_double general_6 s); Stdout endl;
    Stdout "Strike Price: $"; Stdout (show_double general_6 k); Stdout endl;
    Stdout "Days to Expiration: "; Stdout (show_double general_6 d);
    Stdout " days"; Stdout endl;
    Stdout "Volatility: "; Stdout (show_double general_6 v);
    Stdout "%"; Stdout endl;
    Stdout "Risk-Free Rate of Interest: "; Stdout (show_double general_6 r);
    Stdout "%"; Stdout endl;
    Stdout endl;
    Stdout "Call Option Value: $";
    Priced CallPrice s k t sigma rate;
    Stdout (show_double fixed_2 (calculate_call_price lm s k t sigma rate));
    Stdout endl;
    Stdout "Put Option Value: $";
    Priced PutPrice s k t sigma rate;
    Stdout (show_double fixed_2 (calculate_put_price lm s k t sigma rate));
    Stdout endl ].

(** The events of a run that stops at the argument-count check. *)
Definition usage_events : list event :=
  [ Stdout banner; Stdout endl; Stderr usage; Stderr endl ].

(** The text a successful run leaves on standard output: the banner, an
    empty line, the five inputs as parsed, an empty line, and the two
    prices. *)
Definition success_stdout (s k d v r : double) : string :=
  (banner ++ endl ++ endl
   ++ "Stock Price: $" ++ show_double general_6 s ++ endl
   ++ "Strike Price: $" ++ show_double general_6 k ++ endl
   ++ "Days to Expiration: " ++ show_double general_6 d ++ " days" ++ endl
   ++ "Volatility: " ++ show_double general_6 v ++ "%" ++ endl
   ++ "Risk-Free Rate of Interest: " ++ show_double general_6 r ++ "%" ++ endl
   ++ endl
   ++ "Call Option Value: $"
   ++ show_double fixed_2
        (calculate_call_price lm s k (div d lit_365_0) (div v lit_100_0)
                              (div r lit_100_0))
   ++ endl
   ++ "Put Option Value: $"
   ++ show_double fixed_2
        (calculate_put_price lm s k (div d lit_365_0) (div v lit_100_0)
                             (div r lit_100_0))
   ++ endl)%string.

End ExpectedRun.

(** Negative and not zero: a negative finite double or minus infinity. *)
Definition is_negative (x : double) : bool :=
  match x with
  | S754_finite true _ _ | S754_infinity true => true
  | _ => false
  end.

(** An amount of money: a finite double that is zero or positive. *)
Definition is_amount (x : double) : bool :=
  valid x && is_finite x && leb pzero x.

(* ================================================================== *)
(** * Rounding to binary64, on integers *)
(* ================================================================== *)

(** The definitions on which the facts about the rounded operations are
    stated.  A finite double [m * 2^e] is read as the integer
    [m * 2^(e + 1074)], its number of multiples of the smallest positive
    double. *)
Module Rounding.

Local Open Scope Z_scope.

(** Quotient of [N] by [2^n], rounded to nearest, ties to even. *)
Definition rnd_q (N n : Z) : Z :=
  let q := N / 2 ^ n in
  let r := N mod 2 ^ n in
  if 2 * r <? 2 ^ n then q
  else if 2 ^ n <? 2 * r then q + 1
  else if Z.even q then q else q + 1.

(** What a shift record knows about [N] after [n] right shifts. *)
Definition shr_inv (N n : Z) (rec : shr_record) : Prop :=
  shr_m rec = N / 2 ^ n /\
  shr_r rec = (2 ^ n <=? 2 * (N mod 2 ^ n)) /\
  shr_s rec = negb ((2 * (N mod 2 ^ n)) mod 2 ^ n =? 0).

(** The double of sign [s] and magnitude [q * 2^e], for a rounded
    significand [0 <= q <= 2^53]. *)
Definition encode (s : bool) (q e : Z) : spec_float :=
  match q with
  | Z0 => S754_zero s
  | Zpos p =>
      if q =? 2 ^ 53
      then if e + 1 <=? 971 then S754_finite s 4503599627370496 (e + 1)
           else S754_infinity s
      else if e <=? 971 then S754_finite s p e else S754_infinity s
  | Zneg _ => S754_nan
  end.

(** Number of low bits of [N * 2^b] that do not fit a double. *)
Definition nshift (b N : Z) : Z := Z.max (Zdigits2 N - 53) (-1074 - b).

(** The double of sign [s] nearest to [N * 2^b]. *)
Definition round_at (b : Z) (s : bool) (N : Z) : spec_float :=
  encode s (rnd_q N (nshift b N)) (b + nshift b N).

(** The double nearest to [N * 2^-1074]. *)
Definition round_Z (N : Z) : spec_float :=
  match N with
  | Z0 => S754_zero false
  | Zpos _ => round_at (-1074) false N
  | Zneg _ => round_at (-1074) true (- N)
  end.

(** An order-preserving integer reading of the non-NaN doubles: a finite
    value counts its multiples of [2^-1074], the infinities sit just
    beyond the largest finite double. *)
Definition ord (x : spec_float) : Z :=
  match x with
  | S754_zero _ => 0
  | S754_nan => 0
  | S754_infinity s => cond_Zopp s (2 ^ 2098)
  | S754_finite s m e => cond_Zopp s (Zpos m * 2 ^ (e + 1074))
  end.

(** The magnitude, in multiples of [2^-1074], that [round_at] aims at. *)
Definition rmag (b N : Z) : Z :=
  rnd_q N (nshift b N) * 2 ^ (b + nshift b N + 1074).

(** The integer reading of [round_Z N]. *)
Definition ord_round_Z (N : Z) : Z :=
  match N with
  | Z0 => 0
  | Zpos _ => Z.min (rmag (-1074) N) (2 ^ 2098)
  | Zneg _ => - Z.min (rmag (-1074) (- N)) (2 ^ 2098)
  end.

(** The integer reading of [x * c] for a positive finite constant
    [c = mc * 2^ec], as a function of the reading [a] of [x]. *)
Definition mulc_mag (mc : positive) (ec a : Z) : Z :=
  if 2 ^ 2098 <=? a then 2 ^ 2098
  else Z.min (rmag (ec - 1074) (a * Zpos mc)) (2 ^ 2098).

Definition ord_mulc (mc : positive) (ec a : Z) : Z :=
  match a with
  | Z0 => 0
  | Zpos _ => mulc_mag mc ec a
  | Zneg _ => - mulc_mag mc ec (- a)
  end.

Definition half_m : positive := 4503599627370496.
Definition half_e : Z := -53.

(** The reading of [0.5 * (1 + e)] from the reading [a] of [e]. *)
Definition cdf_ord (a : Z) : Z :=
  ord_mulc half_m half_e (ord_round_Z (2 ^ 1074 + a)).

End Rounding.

Import Rounding.

(* ================================================================== *)
(** * Facts about rounding *)
(* ================================================================== *)

Module RoundingFacts.

Local Open Scope Z_scope.

(** Number of binary digits of a non-negative integer. *)
Lemma digits2_pos_bounds (p : positive) :
  2 ^ (Zpos (digits2_pos p) - 1) <= Zpos p < 2 ^ Zpos (digits2_pos p).
Proof.
  induction p as [p IH | p IH |]; cbn [digits2_pos].
  - rewrite Pos2Z.inj_succ.
    replace (Z.succ (Zpos (digits2_pos p)) - 1) with (Z.succ (Zpos (digits2_pos p) - 1)) by lia.
    rewrite !Z.pow_succ_r by lia. lia.
  - rewrite Pos2Z.inj_succ.
    replace (Z.succ (Zpos (digits2_pos p)) - 1) with (Z.succ (Zpos (digits2_pos p) - 1)) by lia.
    rewrite !Z.pow_succ_r by lia. lia.
  - cbn. lia.
Qed.

Lemma Zdigits2_bounds (n : Z) :
  0 < n -> 2 ^ (Zdigits2 n - 1) <= n < 2 ^ Zdigits2 n.
Proof.
  destruct n as [|p|p]; try lia. intros _. apply digits2_pos_bounds.
Qed.

Lemma Zdigits2_pos (n : Z) : 0 < n -> 0 < Zdigits2 n.
Proof. destruct n; cbn; lia. Qed.

Lemma Zdigits2_unique (n k : Z) :
  2 ^ (k - 1) <= n < 2 ^ k -> 0 < n -> Zdigits2 n = k.
Proof.
  intros [Hlo Hhi] Hn.
  pose proof (Zdigits2_bounds Hn) as [Dlo Dhi].
  pose proof (Zdigits2_pos Hn) as Dp.
  assert (0 < k).
  { destruct (Z_lt_le_dec 0 k); auto.
    assert (2 ^ k <= 1).
    { destruct (Z.eq_dec k 0) as [->|]; [cbn; lia|].
      rewrite Z.pow_neg_r by lia. lia. }
    lia. }
  destruct (Z_lt_le_dec (Zdigits2 n) k).
  - assert (2 ^ Zdigits2 n <= 2 ^ (k - 1)) by (apply Z.pow_le_mono_r; lia). lia.
  - destruct (Z_lt_le_dec k (Zdigits2 n)); [|lia].
    assert (2 ^ k <= 2 ^ (Zdigits2 n - 1)) by (apply Z.pow_le_mono_r; lia). lia.
Qed.

Lemma Zdigits2_mono (a b : Z) : 0 < a -> a <= b -> Zdigits2 a <= Zdigits2 b.
Proof.
  intros Ha Hab.
  pose proof (Zdigits2_bounds Ha) as [La Ua].
  assert (Hb : 0 < b) by lia.
  pose proof (Zdigits2_bounds Hb) as [Lb Ub].
  destruct (Z_lt_le_dec (Zdigits2 b) (Zdigits2 a)); [|lia].
  assert (2 ^ Zdigits2 b <= 2 ^ (Zdigits2 a - 1)) by (apply Z.pow_le_mono_r; lia).
  lia.
Qed.

Lemma Zdigits2_shift (n j : Z) :
  0 < n -> 0 <= j -> Zdigits2 (n * 2 ^ j) = Zdigits2 n + j.
Proof.
  intros Hn Hj.
  pose proof (Zdigits2_bounds Hn) as [L U].
  pose proof (Zdigits2_pos Hn).
  assert (0 < 2 ^ j) by (apply Z.pow_pos_nonneg; lia).
  apply Zdigits2_unique; [|nia].
  replace (Zdigits2 n + j - 1) with ((Zdigits2 n - 1) + j) by lia.
  rewrite !Z.pow_add_r by lia. nia.
Qed.

Lemma shr_1_nonneg (q : Z) (r s : bool) :
  0 <= q ->
  shr_1 {| shr_m := q; shr_r := r; shr_s := s |}
  = {| shr_m := q / 2; shr_r := Z.odd q; shr_s := r || s |}.
Proof.
  intros Hq. rewrite <- Z.div2_div.
  destruct q as [|[p|p|]|p]; try reflexivity. lia.
Qed.

Lemma shr_inv_step (N n : Z) (rec : shr_record) :
  0 <= N -> 0 <= n -> shr_inv N n rec -> shr_inv N (n + 1) (shr_1 rec).
Proof.
  intros HN Hn (Hm & Hr & Hs).
  destruct rec as [q r s]; cbn [shr_m shr_r shr_s] in *.
  assert (HP : 0 < 2 ^ n) by (apply Z.pow_pos_nonneg; lia).
  assert (Hq : 0 <= q) by (subst q; apply Z.div_pos; lia).
  rewrite shr_1_nonneg by assumption.
  unfold shr_inv; cbn [shr_m shr_r shr_s].
  rewrite Z.pow_add_r, Z.pow_1_r by lia.
  pose proof (Z.mod_pos_bound N (2 ^ n) HP) as HR.
  pose proof (Z.mod_pos_bound q 2 ltac:(lia)) as Hq2.
  assert (Hmod : N mod (2 ^ n * 2) = N mod 2 ^ n + 2 ^ n * (q mod 2)).
  { subst q. apply Z.rem_mul_r; lia. }
  assert (Hodd : Z.odd q = (q mod 2 =? 1)).
  { rewrite Zmod_odd. destruct (Z.odd q); reflexivity. }
  repeat split.
  - subst q. rewrite Z.div_div by lia. reflexivity.
  - rewrite Hmod, Hodd.
    destruct (Z.eqb_spec (q mod 2) 1); symmetry;
      [apply Z.leb_le | apply Z.leb_gt]; nia.
  - rewrite Hmod, Hr, Hs.
    replace (2 * (N mod 2 ^ n + 2 ^ n * (q mod 2)))
      with (2 * (N mod 2 ^ n) + (q mod 2) * (2 ^ n * 2)) by ring.
    rewrite Z.mod_add by lia.
    rewrite (Z.mod_small (2 * (N mod 2 ^ n)) (2 ^ n * 2)) by lia.
    destruct (Z.leb_spec (2 ^ n) (2 * (N mod 2 ^ n))) as [H1|H1]; cbn [orb].
    + symmetry. apply negb_true_iff, Z.eqb_neq. lia.
    + rewrite (Z.mod_small (2 * (N mod 2 ^ n)) (2 ^ n)) by lia. reflexivity.
Qed.

Lemma iter_pos_inv (A : Type) (P : Z -> A -> Prop) (f : A -> A) :
  (forall k x, 0 <= k -> P k x -> P (k + 1) (f x)) ->
  forall p k x, 0 <= k -> P k x -> P (k + Zpos p) (iter_pos f p x).
Proof.
  intros Hstep. induction p as [p IH | p IH |]; intros k x Hk Hx; cbn [iter_pos].
  - replace (k + Zpos p~1) with (k + 1 + Zpos p + Zpos p) by lia.
    apply IH; [lia|]. apply IH; [lia|]. apply Hstep; assumption.
  - replace (k + Zpos p~0) with (k + Zpos p + Zpos p) by lia.
    apply IH; [lia|]. apply IH; assumption.
  - apply Hstep; assumption.
Qed.

Lemma shr_inv_init (N : Z) :
  shr_inv N 0 {| shr_m := N; shr_r := false; shr_s := false |}.
Proof.
  unfold shr_inv; cbn [shr_m shr_r shr_s].
  rewrite Z.pow_0_r, Z.div_1_r, Z.mod_1_r. repeat split.
Qed.

Lemma shr_inv_iter (N : Z) (p : positive) :
  0 <= N ->
  shr_inv N (Zpos p)
          (iter_pos shr_1 p {| shr_m := N; shr_r := false; shr_s := false |}).
Proof.
  intros HN.
  change (Zpos p) with (0 + Zpos p).
  apply (iter_pos_inv (fun k rec => shr_inv N k rec)).
  - intros k x Hk Hx. apply shr_inv_step; assumption.
  - lia.
  - apply shr_inv_init.
Qed.

Lemma round_nearest_even_inv (N n : Z) (rec : shr_record) :
  0 <= N -> 0 <= n -> shr_inv N n rec ->
  round_nearest_even (shr_m rec) (loc_of_shr_record rec) = rnd_q N n.
Proof.
  intros HN Hn (Hm & Hr & Hs).
  assert (HP : 0 < 2 ^ n) by (apply Z.pow_pos_nonneg; lia).
  pose proof (Z.mod_pos_bound N (2 ^ n) HP) as HR.
  destruct rec as [q r s]; cbn [shr_m shr_r shr_s] in *.
  unfold rnd_q; cbn zeta. rewrite <- Hm.
  destruct r, s; cbn [loc_of_shr_record round_nearest_even];
    symmetry in Hr, Hs.
  - apply Z.leb_le in Hr. apply negb_true_iff, Z.eqb_neq in Hs.
    destruct (Z.ltb_spec (2 * (N mod 2 ^ n)) (2 ^ n)); [lia|].
    destruct (Z.ltb_spec (2 ^ n) (2 * (N mod 2 ^ n))); [reflexivity|].
    exfalso. apply Hs. replace (2 * (N mod 2 ^ n)) with (2 ^ n) by lia.
    apply Z.mod_same. lia.
  - apply Z.leb_le in Hr. apply negb_false_iff, Z.eqb_eq in Hs.
    destruct (Z.ltb_spec (2 * (N mod 2 ^ n)) (2 ^ n)); [lia|].
    destruct (Z.ltb_spec (2 ^ n) (2 * (N mod 2 ^ n))); [|reflexivity].
    exfalso.
    assert (2 * (N mod 2 ^ n) = 2 ^ n + (2 * (N mod 2 ^ n) - 2 ^ n)) as E by lia.
    rewrite E in Hs.
    rewrite <- Zplus_mod_idemp_l, Z.mod_same, Z.add_0_l in Hs by lia.
    rewrite Z.mod_small in Hs by lia. lia.
  - apply Z.leb_gt in Hr.
    destruct (Z.ltb_spec (2 * (N mod 2 ^ n)) (2 ^ n)); [reflexivity|lia].
  - apply Z.leb_gt in Hr.
    destruct (Z.ltb_spec (2 * (N mod 2 ^ n)) (2 ^ n)); [reflexivity|lia].
Qed.

Lemma fexp_eq (e : Z) : fexp prec emax e = Z.max (e - 53) (-1074).
Proof. reflexivity. Qed.

Lemma rnd_q_0 (N : Z) : rnd_q N 0 = N.
Proof.
  unfold rnd_q. rewrite Z.pow_0_r, Z.mod_1_r, Z.div_1_r. reflexivity.
Qed.

Lemma rnd_q_bounds (N n : Z) :
  0 <= n -> N / 2 ^ n <= rnd_q N n <= N / 2 ^ n + 1.
Proof.
  intros Hn. unfold rnd_q; cbn zeta.
  destruct (_ <? _); [lia|]. destruct (_ <? _); [lia|].
  destruct (Z.even _); lia.
Qed.

Lemma shr_fexp_exact (M ex : Z) :
  0 < M ->
  0 <= fexp prec emax (Zdigits2 M + ex) - ex ->
  exists rec,
    shr_fexp prec emax M ex loc_Exact
    = (rec, fexp prec emax (Zdigits2 M + ex))
    /\ shr_inv M (fexp prec emax (Zdigits2 M + ex) - ex) rec.
Proof.
  intros HM Hn. unfold shr_fexp, shr; cbn [shr_record_of_loc].
  destruct (fexp prec emax (Zdigits2 M + ex) - ex) as [|p|p] eqn:E; try lia.
  - eexists; split; [|apply shr_inv_init]. f_equal. lia.
  - eexists; split; [|apply shr_inv_iter; lia]. f_equal. lia.
Qed.

Lemma shr_fexp_noop (q e : Z) :
  fexp prec emax (Zdigits2 q + e) - e <= 0 ->
  shr_fexp prec emax q e loc_Exact
  = ({| shr_m := q; shr_r := false; shr_s := false |}, e).
Proof.
  intros Hn. unfold shr_fexp, shr; cbn [shr_record_of_loc].
  destruct (fexp prec emax (Zdigits2 q + e) - e); try reflexivity. lia.
Qed.

Lemma pow2_53 : 2 ^ 53 = 9007199254740992.
Proof. reflexivity. Qed.

Lemma binary_round_aux_exact (s : bool) (M : positive) (ex : Z) :
  0 <= fexp prec emax (Zpos (digits2_pos M) + ex) - ex ->
  binary_round_aux prec emax s (Zpos M) ex loc_Exact
  = encode s (rnd_q (Zpos M) (fexp prec emax (Zpos (digits2_pos M) + ex) - ex))
             (fexp prec emax (Zpos (digits2_pos M) + ex)).
Proof.
  intros Hn.
  change (Zpos (digits2_pos M)) with (Zdigits2 (Zpos M)) in *.
  set (d := Zdigits2 (Zpos M)) in *.
  set (e1 := fexp prec emax (d + ex)) in *.
  set (n := e1 - ex) in *.
  assert (He1 : e1 = Z.max (d + ex - 53) (-1074)) by (subst e1; apply fexp_eq).
  destruct (@shr_fexp_exact (Zpos M) ex ltac:(lia) Hn) as (rec & Hshr & Hinv).
  fold d e1 n in Hshr, Hinv.
  unfold binary_round_aux. rewrite Hshr.
  rewrite (@round_nearest_even_inv (Zpos M) n rec) by (assumption || lia).
  set (q1 := rnd_q (Zpos M) n).
  pose proof (@rnd_q_bounds (Zpos M) n Hn) as Hq1. fold q1 in Hq1.
  assert (HP : 0 < 2 ^ n) by (apply Z.pow_pos_nonneg; lia).
  pose proof (@Zdigits2_bounds (Zpos M) ltac:(lia)) as [_ HMd]. fold d in HMd.
  assert (Hq0 : 0 <= Zpos M / 2 ^ n < 2 ^ 53).
  { split; [apply Z.div_pos; lia|].
    apply Z.div_lt_upper_bound; [lia|].
    rewrite <- Z.pow_add_r by lia.
    eapply Z.lt_le_trans; [exact HMd|].
    apply Z.pow_le_mono_r; lia. }
  destruct (Z.eq_dec q1 0) as [Hz|Hnz].
  - (* rounds to zero *)
    rewrite Hz. rewrite shr_fexp_noop by (rewrite fexp_eq; cbn [Zdigits2]; lia).
    reflexivity.
  - destruct (Z.eq_dec q1 (2 ^ 53)) as [Hc|Hnc].
    + (* carry into the next binade *)
      rewrite Hc. rewrite pow2_53.
      unfold shr_fexp, shr; cbn [shr_record_of_loc Zdigits2 digits2_pos Pos.succ].
      rewrite fexp_eq.
      replace (Z.max (54 + e1 - 53) (-1074) - e1) with 1 by lia.
      cbn [iter_pos shr_1 shr_m encode]. cbn [Z.eqb Pos.eqb].
      change (emax - prec) with 971.
      reflexivity.
    + assert (Hq : 0 < q1 < 2 ^ 53) by lia.
      assert (Hd1 : Zdigits2 q1 <= 53).
      { pose proof (@Zdigits2_bounds q1 ltac:(lia)) as [L _].
        destruct (Z_lt_le_dec 53 (Zdigits2 q1)); [|lia].
        assert (2 ^ 53 <= 2 ^ (Zdigits2 q1 - 1)) by (apply Z.pow_le_mono_r; lia).
        lia. }
      rewrite shr_fexp_noop by (rewrite fexp_eq; lia).
      cbn [shr_m]. unfold encode.
      destruct q1 as [|p|p]; try lia.
      destruct (Z.eqb_spec (Zpos p) (2 ^ 53)); [contradiction|].
      change (emax - prec) with 971. reflexivity.
Qed.

(** ** Rounding an integer multiple of [2^b] *)

Lemma binary_round_aux_round_at (s : bool) (M : positive) (ex : Z) :
  0 <= nshift ex (Zpos M) ->
  binary_round_aux prec emax s (Zpos M) ex loc_Exact = round_at ex s (Zpos M).
Proof.
  unfold nshift, round_at. cbn [Zdigits2]. intros Hn.
  rewrite binary_round_aux_exact by (rewrite fexp_eq; lia).
  rewrite fexp_eq.
  replace (Z.max (Zpos (digits2_pos M) + ex - 53) (-1074) - ex)
    with (Z.max (Zpos (digits2_pos M) - 53) (-1074 - ex)) by lia.
  f_equal. unfold nshift. cbn [Zdigits2]. lia.
Qed.

Lemma rnd_q_scale (N n j : Z) :
  0 <= n -> 0 <= j -> rnd_q (N * 2 ^ j) (n + j) = rnd_q N n.
Proof.
  intros Hn Hj. unfold rnd_q; cbn zeta.
  assert (0 < 2 ^ n) by (apply Z.pow_pos_nonneg; lia).
  assert (0 < 2 ^ j) by (apply Z.pow_pos_nonneg; lia).
  rewrite Z.pow_add_r by lia.
  rewrite Z.div_mul_cancel_r by lia.
  rewrite Z.mul_mod_distr_r by lia.
  pose proof (Z.mod_pos_bound N (2 ^ n) ltac:(lia)).
  destruct (Z.ltb_spec (2 * (N mod 2 ^ n)) (2 ^ n));
    destruct (Z.ltb_spec (2 * (N mod 2 ^ n * 2 ^ j)) (2 ^ n * 2 ^ j)); try nia;
    try reflexivity.
  destruct (Z.ltb_spec (2 ^ n) (2 * (N mod 2 ^ n)));
    destruct (Z.ltb_spec (2 ^ n * 2 ^ j) (2 * (N mod 2 ^ n * 2 ^ j))); try nia;
    reflexivity.
Qed.

Lemma round_at_scale (b j : Z) (s : bool) (N : Z) :
  0 < N -> 0 <= j -> 0 <= nshift b N ->
  round_at (b - j) s (N * 2 ^ j) = round_at b s N.
Proof.
  intros HN Hj Hn. unfold round_at.
  assert (E : nshift (b - j) (N * 2 ^ j) = nshift b N + j).
  { unfold nshift. rewrite Zdigits2_shift by lia. lia. }
  rewrite E, rnd_q_scale by lia. f_equal. lia.
Qed.

Lemma shl_align_fst (m : positive) (e e' : Z) :
  e' <= e -> Zpos (fst (shl_align m e e')) = Zpos m * 2 ^ (e - e').
Proof.
  intros He. unfold shl_align.
  destruct (e' - e) as [|d|d] eqn:E; try lia; cbn [fst].
  - replace (e - e') with 0 by lia. lia.
  - replace (e - e') with (Zpos d) by lia.
    change (Pos.iter xO m d) with (shift_pos d m).
    rewrite shift_pos_correct. change (Z.pow_pos 2 d) with (2 ^ Zpos d). lia.
Qed.

Lemma shl_align_snd (m : positive) (e e' : Z) :
  snd (shl_align m e e') = Z.min e e'.
Proof.
  unfold shl_align. destruct (e' - e) eqn:E; cbn [snd]; lia.
Qed.

Lemma binary_round_round_at (s : bool) (M : positive) (ez : Z) :
  -1074 <= ez ->
  binary_round prec emax s M ez = round_at (-1074) s (Zpos M * 2 ^ (ez + 1074)).
Proof.
  intros Hez. unfold binary_round.
  set (t := fexp prec emax (Zpos (digits2_pos M) + ez)).
  assert (Ht : t = Z.max (Zpos (digits2_pos M) + ez - 53) (-1074))
    by (subst t; apply fexp_eq).
  pose proof (shl_align_snd M ez t) as Hsnd.
  destruct (shl_align M ez t) as [mz ez'] eqn:Esh. cbn [snd] in Hsnd.
  assert (Hmz : Zpos mz = Zpos M * 2 ^ (ez - ez')).
  { destruct (Z_le_gt_dec t ez) as [Hle|Hgt].
    - pose proof (@shl_align_fst M ez t Hle) as Hf. rewrite Esh in Hf.
      cbn [fst] in Hf. rewrite Hf. f_equal. f_equal. lia.
    - unfold shl_align in Esh.
      destruct (t - ez) eqn:E; try lia. injection Esh as <- <-.
      rewrite Z.sub_diag. lia. }
  assert (Hd : Zdigits2 (Zpos mz) = Zpos (digits2_pos M) + (ez - ez')).
  { rewrite Hmz. apply (@Zdigits2_shift (Zpos M)); lia. }
  rewrite binary_round_aux_round_at by (unfold nshift; lia).
  rewrite <- (@round_at_scale ez' (ez' + 1074) s (Zpos mz))
    by (unfold nshift; lia).
  f_equal; [lia|].
  rewrite Hmz, <- Z.mul_assoc, <- Z.pow_add_r by lia. f_equal. f_equal. lia.
Qed.

Lemma binary_normalize_round_Z (N ez : Z) :
  -1074 <= ez ->
  binary_normalize prec emax N ez false = round_Z (N * 2 ^ (ez + 1074)).
Proof.
  intros Hez.
  assert (0 < 2 ^ (ez + 1074)) by (apply Z.pow_pos_nonneg; lia).
  destruct N as [|p|p]; cbn [binary_normalize].
  - reflexivity.
  - rewrite binary_round_round_at by assumption.
    destruct (Zpos p * 2 ^ (ez + 1074)) eqn:E; try lia. reflexivity.
  - rewrite binary_round_round_at by assumption.
    destruct (Zneg p * 2 ^ (ez + 1074)) eqn:E; try lia.
    unfold round_Z. rewrite <- E. f_equal. lia.
Qed.

(** ** Doubles as integers *)

Lemma valid_finite_inv (s : bool) (m : positive) (e : Z) :
  valid (S754_finite s m e) = true ->
  -1074 <= e <= 971 /\ Zpos (digits2_pos m) <= 53
  /\ (Zpos (digits2_pos m) = 53 \/ e = -1074).
Proof.
  unfold valid, valid_binary, bounded, canonical_mantissa.
  rewrite andb_true_iff, Z.eqb_eq, Z.leb_le, fexp_eq.
  change (emax - prec) with 971. lia.
Qed.

Lemma valid_finite_intro (s : bool) (m : positive) (e : Z) :
  -1074 <= e <= 971 -> Zpos (digits2_pos m) <= 53 ->
  (Zpos (digits2_pos m) = 53 \/ e = -1074) ->
  valid (S754_finite s m e) = true.
Proof.
  unfold valid, valid_binary, bounded, canonical_mantissa.
  rewrite andb_true_iff, Z.eqb_eq, Z.leb_le, fexp_eq.
  change (emax - prec) with 971. lia.
Qed.

Lemma ord_finite_bounds (s : bool) (m : positive) (e : Z) :
  valid (S754_finite s m e) = true ->
  0 < Zpos m * 2 ^ (e + 1074) < 2 ^ 2098.
Proof.
  intros Hv. apply valid_finite_inv in Hv. destruct Hv as (He & Hd & _).
  pose proof (digits2_pos_bounds m) as [_ Hm].
  assert (0 < 2 ^ (e + 1074)) by (apply Z.pow_pos_nonneg; lia).
  split; [nia|].
  assert (2 ^ Zpos (digits2_pos m) <= 2 ^ 53) by (apply Z.pow_le_mono_r; lia).
  assert (2 ^ (e + 1074) <= 2 ^ 2045) by (apply Z.pow_le_mono_r; lia).
  replace (2 ^ 2098) with (2 ^ 53 * 2 ^ 2045) by (rewrite <- Z.pow_add_r; reflexivity || lia).
  nia.
Qed.

Lemma rnd_q_upper (N n K : Z) :
  0 <= n -> N < K * 2 ^ n -> rnd_q N n <= K.
Proof.
  intros Hn HN.
  assert (0 < 2 ^ n) by (apply Z.pow_pos_nonneg; lia).
  pose proof (@rnd_q_bounds N n Hn).
  assert (N / 2 ^ n < K) by (apply Z.div_lt_upper_bound; lia).
  lia.
Qed.

Lemma rnd_q_lower (N n K : Z) :
  0 <= n -> K * 2 ^ n <= N -> K <= rnd_q N n.
Proof.
  intros Hn HN.
  assert (0 < 2 ^ n) by (apply Z.pow_pos_nonneg; lia).
  pose proof (@rnd_q_bounds N n Hn).
  assert (K <= N / 2 ^ n) by (apply Z.div_le_lower_bound; lia).
  lia.
Qed.

Lemma rnd_q_mono (N1 N2 n : Z) :
  0 <= n -> N1 <= N2 -> rnd_q N1 n <= rnd_q N2 n.
Proof.
  intros Hn HN.
  assert (HP : 0 < 2 ^ n) by (apply Z.pow_pos_nonneg; lia).
  pose proof (@rnd_q_bounds N1 n Hn) as B1.
  pose proof (@rnd_q_bounds N2 n Hn) as B2.
  assert (Hq : N1 / 2 ^ n <= N2 / 2 ^ n) by (apply Z.div_le_mono; lia).
  destruct (Z.eq_dec (N1 / 2 ^ n) (N2 / 2 ^ n)) as [E|NE]; [|lia].
  pose proof (Z.div_mod N1 (2 ^ n) ltac:(lia)) as D1.
  pose proof (Z.div_mod N2 (2 ^ n) ltac:(lia)) as D2.
  assert (HR : N1 mod 2 ^ n <= N2 mod 2 ^ n) by (rewrite E in D1; lia).
  unfold rnd_q; cbn zeta. rewrite E.
  destruct (Z.ltb_spec (2 * (N1 mod 2 ^ n)) (2 ^ n));
    destruct (Z.ltb_spec (2 * (N2 mod 2 ^ n)) (2 ^ n)); try lia.
  - destruct (_ <? _); [lia|]. destruct (Z.even _); lia.
  - destruct (Z.ltb_spec (2 ^ n) (2 * (N1 mod 2 ^ n)));
      destruct (Z.ltb_spec (2 ^ n) (2 * (N2 mod 2 ^ n))); try lia.
    destruct (Z.even _); lia.
Qed.

Lemma nshift_mono (b N1 N2 : Z) :
  0 < N1 -> N1 <= N2 -> nshift b N1 <= nshift b N2.
Proof.
  intros H1 H2. unfold nshift.
  pose proof (@Zdigits2_mono N1 N2 H1 H2). lia.
Qed.

Lemma rnd_q_round_at_range (b N : Z) :
  0 < N -> 0 <= nshift b N ->
  0 <= rnd_q N (nshift b N) <= 2 ^ 53
  /\ (2 ^ 52 <= rnd_q N (nshift b N) \/ b + nshift b N = -1074).
Proof.
  intros HN Hn.
  pose proof (@Zdigits2_bounds N HN) as [L U].
  pose proof (@Zdigits2_pos N HN) as Dp.
  assert (HP : 0 < 2 ^ nshift b N) by (apply Z.pow_pos_nonneg; lia).
  repeat split.
  - apply rnd_q_lower; lia.
  - apply rnd_q_upper; [lia|].
    rewrite <- Z.pow_add_r by lia.
    eapply Z.lt_le_trans; [exact U|]. apply Z.pow_le_mono_r; unfold nshift; lia.
  - destruct (Z.eq_dec (b + nshift b N) (-1074)) as [E|NE]; [right; exact E|left].
    assert (En : nshift b N = Zdigits2 N - 53) by (unfold nshift in *; lia).
    apply rnd_q_lower; [lia|].
    rewrite <- Z.pow_add_r by lia.
    replace (52 + nshift b N) with (Zdigits2 N - 1) by lia. exact L.
Qed.

Lemma rmag_mono (b N1 N2 : Z) :
  0 < N1 -> N1 <= N2 -> 0 <= nshift b N1 -> rmag b N1 <= rmag b N2.
Proof.
  intros H1 H12 Hn1.
  pose proof (@nshift_mono b N1 N2 H1 H12) as Hn.
  assert (Hn2 : 0 <= nshift b N2) by lia.
  assert (H2 : 0 < N2) by lia.
  destruct (@rnd_q_round_at_range b N1 H1 Hn1) as ((L1 & U1) & _).
  destruct (@rnd_q_round_at_range b N2 H2 Hn2) as ((L2 & U2) & C2).
  unfold rmag.
  assert (Hb1 : 0 <= b + nshift b N1 + 1074) by (unfold nshift; lia).
  assert (Hb2 : 0 <= b + nshift b N2 + 1074) by (unfold nshift; lia).
  destruct (Z.eq_dec (nshift b N1) (nshift b N2)) as [E|NE].
  - rewrite <- E.
    assert (0 < 2 ^ (b + nshift b N1 + 1074)) by (apply Z.pow_pos_nonneg; lia).
    pose proof (@rnd_q_mono N1 N2 (nshift b N1) Hn1 H12). rewrite <- E in *. nia.
  - assert (Hlt : nshift b N1 + 1 <= nshift b N2) by lia.
    destruct C2 as [C2|C2]; [|unfold nshift in *; lia].
    assert (P1 : 0 < 2 ^ (b + nshift b N1 + 1074)) by (apply Z.pow_pos_nonneg; lia).
    assert (P2 : 2 * 2 ^ (b + nshift b N1 + 1074) <= 2 ^ (b + nshift b N2 + 1074)).
    { replace (2 * 2 ^ (b + nshift b N1 + 1074))
        with (2 ^ (b + nshift b N1 + 1074 + 1))
        by (rewrite Z.pow_add_r, Z.pow_1_r by lia; ring).
      apply Z.pow_le_mono_r; lia. }
    change (2 ^ 53) with (2 * 2 ^ 52) in U1.
    assert (0 < 2 ^ 52) by reflexivity.
    nia.
Qed.

Lemma encode_spec (s : bool) (q e : Z) :
  0 <= q <= 2 ^ 53 -> -1074 <= e -> (2 ^ 52 <= q \/ e = -1074) ->
  valid (encode s q e) = true
  /\ is_nan (encode s q e) = false
  /\ ord (encode s q e) = cond_Zopp s (Z.min (q * 2 ^ (e + 1074)) (2 ^ 2098)).
Proof.
  intros Hq He Hc.
  assert (P : 0 < 2 ^ (e + 1074)) by (apply Z.pow_pos_nonneg; lia).
  assert (P53 : 2 ^ 53 = 2 * 2 ^ 52) by reflexivity.
  assert (P52 : 0 < 2 ^ 52) by reflexivity.
  unfold encode. destruct q as [|p|p]; [| |lia].
  - repeat split. cbn [ord]. rewrite Z.mul_0_l, Z.min_l by (apply Z.pow_nonneg; lia).
    destruct s; reflexivity.
  - destruct (Z.eqb_spec (Zpos p) (2 ^ 53)) as [E|NE].
    + destruct (Z.leb_spec (e + 1) 971) as [Hle|Hgt].
      * repeat split.
        -- apply valid_finite_intro; [lia|cbn; lia|left; reflexivity].
        -- cbn [ord]. f_equal. rewrite E.
           replace (e + 1 + 1074) with (1 + (e + 1074)) by lia.
           rewrite Z.pow_add_r, Z.pow_1_r by lia.
           change 4503599627370496 with (2 ^ 52).
           assert (2 ^ (e + 1074) <= 2 ^ 2044) by (apply Z.pow_le_mono_r; lia).
           assert (2 ^ 2098 = 2 ^ 54 * 2 ^ 2044)
             by (rewrite <- Z.pow_add_r; reflexivity || lia).
           change (2 ^ 54) with (4 * 2 ^ 52) in *.
           rewrite Z.min_l by nia. lia.
      * repeat split. cbn [ord]. f_equal. rewrite E.
        assert (2 ^ 2045 <= 2 ^ (e + 1074)) by (apply Z.pow_le_mono_r; lia).
        assert (2 ^ 2098 = 2 ^ 53 * 2 ^ 2045)
          by (rewrite <- Z.pow_add_r; reflexivity || lia).
        rewrite Z.min_r by nia. reflexivity.
    + assert (Hlt : Zpos p < 2 ^ 53) by lia.
      assert (Hd : Zpos (digits2_pos p) <= 53).
      { pose proof (digits2_pos_bounds p) as [L _].
        destruct (Z_lt_le_dec 53 (Zpos (digits2_pos p))); [|lia].
        assert (2 ^ 53 <= 2 ^ (Zpos (digits2_pos p) - 1))
          by (apply Z.pow_le_mono_r; lia).
        lia. }
      assert (Hd' : Zpos (digits2_pos p) = 53 \/ e = -1074).
      { destruct Hc as [Hc|Hc]; [left|right; exact Hc].
        pose proof (digits2_pos_bounds p) as [_ U].
        destruct (Z_lt_le_dec (Zpos (digits2_pos p)) 53); [|lia].
        assert (2 ^ Zpos (digits2_pos p) <= 2 ^ 52)
          by (apply Z.pow_le_mono_r; lia).
        lia. }
      destruct (Z.leb_spec e 971) as [Hle|Hgt].
      * repeat split.
        -- apply valid_finite_intro; lia.
        -- cbn [ord]. f_equal.
           assert (2 ^ (e + 1074) <= 2 ^ 2045) by (apply Z.pow_le_mono_r; lia).
           assert (2 ^ 2098 = 2 ^ 53 * 2 ^ 2045)
             by (rewrite <- Z.pow_add_r; reflexivity || lia).
           rewrite Z.min_l by nia. reflexivity.
      * repeat split. cbn [ord]. f_equal.
        destruct Hc as [Hc|Hc]; [|lia].
        assert (2 ^ 2046 <= 2 ^ (e + 1074)) by (apply Z.pow_le_mono_r; lia).
        assert (2 ^ 2098 = 2 ^ 52 * 2 ^ 2046)
          by (rewrite <- Z.pow_add_r; reflexivity || lia).
        rewrite Z.min_r by nia. reflexivity.
Qed.

Lemma round_at_spec (b : Z) (s : bool) (N : Z) :
  0 < N -> 0 <= nshift b N ->
  valid (round_at b s N) = true
  /\ is_nan (round_at b s N) = false
  /\ ord (round_at b s N) = cond_Zopp s (Z.min (rmag b N) (2 ^ 2098)).
Proof.
  intros HN Hn.
  destruct (@rnd_q_round_at_range b N HN Hn) as (R & C).
  unfold round_at, rmag. apply encode_spec; try assumption.
  unfold nshift; lia.
Qed.

Lemma cmp_exponents (m1 m2 : positive) (e1 e2 : Z) (s1 s2 : bool) :
  valid (S754_finite s1 m1 e1) = true ->
  valid (S754_finite s2 m2 e2) = true ->
  e1 < e2 ->
  Zpos m1 * 2 ^ (e1 + 1074) < Zpos m2 * 2 ^ (e2 + 1074).
Proof.
  intros V1 V2 He.
  apply valid_finite_inv in V1, V2.
  pose proof (digits2_pos_bounds m1) as [_ U1].
  pose proof (digits2_pos_bounds m2) as [L2 _].
  assert (D2 : Zpos (digits2_pos m2) = 53) by lia.
  rewrite D2 in L2. change (2 ^ (53 - 1)) with (2 ^ 52) in L2.
  assert (2 ^ Zpos (digits2_pos m1) <= 2 ^ 53) by (apply Z.pow_le_mono_r; lia).
  assert (P1 : 0 < 2 ^ (e1 + 1074)) by (apply Z.pow_pos_nonneg; lia).
  assert (P2 : 2 * 2 ^ (e1 + 1074) <= 2 ^ (e2 + 1074)).
  { replace (2 * 2 ^ (e1 + 1074)) with (2 ^ (e1 + 1074 + 1))
      by (rewrite Z.pow_add_r, Z.pow_1_r by lia; ring).
    apply Z.pow_le_mono_r; lia. }
  change (2 ^ 53) with (2 * 2 ^ 52) in *.
  assert (0 < 2 ^ 52) by reflexivity.
  nia.
Qed.

Lemma cmp_finite_pos (m1 m2 : positive) (e1 e2 : Z) (s1 s2 : bool) :
  valid (S754_finite s1 m1 e1) = true ->
  valid (S754_finite s2 m2 e2) = true ->
  match e1 ?= e2 with
  | Lt => Lt
  | Gt => Gt
  | Eq => Pos.compare_cont Eq m1 m2
  end = (Zpos m1 * 2 ^ (e1 + 1074) ?= Zpos m2 * 2 ^ (e2 + 1074)).
Proof.
  intros V1 V2.
  destruct (Z.compare_spec e1 e2) as [E|L|G].
  - subst e2. change (Pos.compare_cont Eq m1 m2) with (Zpos m1 ?= Zpos m2).
    apply valid_finite_inv in V1.
    assert (0 < 2 ^ (e1 + 1074)) by (apply Z.pow_pos_nonneg; lia).
    destruct (Z.compare_spec (Zpos m1) (Zpos m2)); symmetry;
      [apply Z.compare_eq_iff | apply Z.compare_lt_iff | apply Z.compare_gt_iff];
      nia.
  - symmetry. apply Z.compare_lt_iff. eapply cmp_exponents; eassumption.
  - symmetry. apply Z.compare_gt_iff. eapply cmp_exponents; eassumption.
Qed.

Ltac solve_compare :=
  symmetry;
  first [ rewrite Z.compare_lt_iff | rewrite Z.compare_gt_iff
        | rewrite Z.compare_eq_iff ];
  lia.

(** On valid doubles other than NaN, the comparison of the format is the
    comparison of the integer readings. *)
Lemma SFcompare_ord (x y : spec_float) :
  valid x = true -> valid y = true -> is_nan x = false -> is_nan y = false ->
  SFcompare x y = Some (ord x ?= ord y).
Proof.
  intros Vx Vy Nx Ny.
  assert (P : 0 < 2 ^ 2098) by reflexivity.
  destruct x as [sx|sx| |sx mx ex], y as [sy|sy| |sy my ey];
    try discriminate; cbn [SFcompare ord].
  - reflexivity.
  - destruct sy; reflexivity.
  - pose proof (ord_finite_bounds _ _ _ Vy).
    destruct sy; cbn [cond_Zopp]; f_equal; solve_compare.
  - destruct sx; reflexivity.
  - destruct sx, sy; reflexivity.
  - pose proof (ord_finite_bounds _ _ _ Vy).
    destruct sx, sy; cbn [cond_Zopp]; f_equal; solve_compare.
  - pose proof (ord_finite_bounds _ _ _ Vx).
    destruct sx; cbn [cond_Zopp]; f_equal; solve_compare.
  - pose proof (ord_finite_bounds _ _ _ Vx).
    destruct sx, sy; cbn [cond_Zopp]; f_equal; solve_compare.
  - pose proof (ord_finite_bounds _ _ _ Vx).
    pose proof (ord_finite_bounds _ _ _ Vy).
    destruct sx, sy; cbn [cond_Zopp]; f_equal.
    + rewrite Z.compare_opp, (Z.compare_antisym (Zpos mx * _)).
      rewrite <- (cmp_finite_pos _ _ _ _ true true Vx Vy).
      destruct (ex ?= ey); reflexivity.
    + solve_compare.
    + solve_compare.
    + apply (cmp_finite_pos _ _ _ _ false false Vx Vy).
Qed.

Lemma SFleb_ord (x y : spec_float) :
  valid x = true -> valid y = true -> is_nan x = false -> is_nan y = false ->
  SFleb x y = (ord x <=? ord y).
Proof.
  intros Vx Vy Nx Ny. unfold SFleb. rewrite SFcompare_ord by assumption.
  unfold Z.leb. destruct (ord x ?= ord y); reflexivity.
Qed.

Lemma SFltb_ord (x y : spec_float) :
  valid x = true -> valid y = true -> is_nan x = false -> is_nan y = false ->
  SFltb x y = (ord x <? ord y).
Proof.
  intros Vx Vy Nx Ny. unfold SFltb. rewrite SFcompare_ord by assumption.
  unfold Z.ltb. destruct (ord x ?= ord y); reflexivity.
Qed.

(** ** The arithmetic operations as roundings of exact integer results *)

Lemma round_at_canonical (s : bool) (m : positive) (e : Z) :
  valid (S754_finite s m e) = true ->
  round_at e s (Zpos m) = S754_finite s m e.
Proof.
  intros V. pose proof (ord_finite_bounds _ _ _ V) as B.
  apply valid_finite_inv in V. destruct V as (He & Hd & Hc).
  unfold round_at.
  assert (En : nshift e (Zpos m) = 0) by (unfold nshift; cbn [Zdigits2]; lia).
  rewrite En, rnd_q_0, Z.add_0_r. unfold encode.
  pose proof (digits2_pos_bounds m) as [_ U].
  assert (2 ^ Zpos (digits2_pos m) <= 2 ^ 53) by (apply Z.pow_le_mono_r; lia).
  destruct (Z.eqb_spec (Zpos m) (2 ^ 53)); [lia|].
  destruct (Z.leb_spec e 971); [reflexivity|lia].
Qed.

Lemma nshift_canonical (s : bool) (m : positive) (e : Z) :
  valid (S754_finite s m e) = true -> nshift e (Zpos m) = 0.
Proof.
  intros V. apply valid_finite_inv in V. unfold nshift; cbn [Zdigits2]. lia.
Qed.

(** A valid finite double is the rounding of its own integer reading. *)
Lemma round_Z_ord (s : bool) (m : positive) (e : Z) :
  valid (S754_finite s m e) = true ->
  round_Z (ord (S754_finite s m e)) = S754_finite s m e.
Proof.
  intros V. pose proof (ord_finite_bounds _ _ _ V) as B.
  pose proof (nshift_canonical _ _ _ V) as En.
  pose proof (valid_finite_inv _ _ _ V) as (He & _).
  assert (R : round_at (-1074) s (Zpos m * 2 ^ (e + 1074)) = S754_finite s m e).
  { replace (-1074) with (e - (e + 1074)) by lia.
    rewrite round_at_scale by lia. apply round_at_canonical; assumption. }
  cbn [ord]. destruct s; cbn [cond_Zopp].
  - destruct (- (Zpos m * 2 ^ (e + 1074))) eqn:E; try lia.
    unfold round_Z. rewrite <- E, Z.opp_involutive. exact R.
  - destruct (Zpos m * 2 ^ (e + 1074)) eqn:E; try lia. exact R.
Qed.

Lemma SFadd_finite (sx sy : bool) (mx my : positive) (ex ey : Z) :
  valid (S754_finite sx mx ex) = true ->
  valid (S754_finite sy my ey) = true ->
  SFadd prec emax (S754_finite sx mx ex) (S754_finite sy my ey)
  = round_Z (ord (S754_finite sx mx ex) + ord (S754_finite sy my ey)).
Proof.
  intros Vx Vy.
  apply valid_finite_inv in Vx, Vy.
  cbn [SFadd ord].
  rewrite binary_normalize_round_Z by lia. f_equal.
  rewrite !shl_align_fst by lia.
  assert (Hx : 2 ^ (ex - Z.min ex ey) * 2 ^ (Z.min ex ey + 1074) = 2 ^ (ex + 1074)).
  { rewrite <- Z.pow_add_r by lia. f_equal. lia. }
  assert (Hy : 2 ^ (ey - Z.min ex ey) * 2 ^ (Z.min ex ey + 1074) = 2 ^ (ey + 1074)).
  { rewrite <- Z.pow_add_r by lia. f_equal. lia. }
  rewrite Z.mul_add_distr_r.
  destruct sx, sy; cbn [cond_Zopp];
    rewrite ?Z.mul_opp_l, <- !Z.mul_assoc, Hx, Hy; reflexivity.
Qed.

Lemma digits_product_ge (mx my : positive) :
  Zpos (digits2_pos mx) = 53 -> 53 <= Zdigits2 (Zpos (mx * my)).
Proof.
  intros D. pose proof (digits2_pos_bounds mx) as [L _]. rewrite D in L.
  change (53 - 1) with 52 in L.
  assert (H : 2 ^ 52 <= Zpos (mx * my)) by (rewrite Pos2Z.inj_mul; nia).
  change 53 with (Zdigits2 (2 ^ 52)) at 1.
  apply Zdigits2_mono; [reflexivity|exact H].
Qed.

Lemma nshift_product (sx sy : bool) (mx my : positive) (ex ey : Z) :
  valid (S754_finite sx mx ex) = true ->
  valid (S754_finite sy my ey) = true ->
  0 <= nshift (ex + ey) (Zpos (mx * my)).
Proof.
  intros Vx Vy. apply valid_finite_inv in Vx, Vy.
  destruct Vx as (_ & _ & [Dx|Ex]).
  - pose proof (digits_product_ge mx my Dx). unfold nshift. lia.
  - destruct Vy as (_ & _ & [Dy|Ey]).
    + pose proof (digits_product_ge my mx Dy) as H.
      rewrite Pos.mul_comm in H. unfold nshift. lia.
    + unfold nshift. lia.
Qed.

(** The product, rounded from the exact integer [mx * my] rescaled by
    [2^j]. *)
Lemma SFmul_finite (j : Z) (sx sy : bool) (mx my : positive) (ex ey : Z) :
  valid (S754_finite sx mx ex) = true ->
  valid (S754_finite sy my ey) = true ->
  0 <= j ->
  SFmul prec emax (S754_finite sx mx ex) (S754_finite sy my ey)
  = round_at (ex + ey - j) (xorb sx sy) (Zpos mx * Zpos my * 2 ^ j).
Proof.
  intros Vx Vy Hj.
  pose proof (nshift_product _ _ _ _ _ _ Vx Vy) as Hn.
  cbn [SFmul].
  rewrite binary_round_aux_round_at by assumption.
  rewrite round_at_scale by (assumption || lia).
  rewrite Pos2Z.inj_mul. reflexivity.
Qed.

(** ** Monotonicity of the rounded operations *)

Lemma rmag_nonneg (b N : Z) : 0 < N -> 0 <= nshift b N -> 0 <= rmag b N.
Proof.
  intros HN Hn. destruct (@rnd_q_round_at_range b N HN Hn) as ((L & _) & _).
  unfold rmag. apply Z.mul_nonneg_nonneg; [exact L|].
  apply Z.pow_nonneg; lia.
Qed.

Lemma nshift_base (N : Z) : 0 <= nshift (-1074) N.
Proof. unfold nshift. lia. Qed.

Lemma round_Z_spec (N : Z) :
  valid (round_Z N) = true /\ is_nan (round_Z N) = false
  /\ ord (round_Z N) = ord_round_Z N.
Proof.
  destruct N as [|p|p]; cbn [round_Z ord_round_Z].
  - repeat split.
  - apply (@round_at_spec (-1074) false (Zpos p)); [lia|apply nshift_base].
  - apply (@round_at_spec (-1074) true (- Zneg p)); [lia|apply nshift_base].
Qed.

Lemma ord_round_Z_mono (N1 N2 : Z) :
  N1 <= N2 -> ord_round_Z N1 <= ord_round_Z N2.
Proof.
  intros H. assert (P : 0 < 2 ^ 2098) by reflexivity.
  destruct N1 as [|p1|p1], N2 as [|p2|p2]; cbn [ord_round_Z]; try lia.
  - pose proof (@rmag_nonneg (-1074) (Zpos p2) ltac:(lia) (nshift_base _)). lia.
  - pose proof (@rmag_mono (-1074) (Zpos p1) (Zpos p2) ltac:(lia) H (nshift_base _)).
    lia.
  - pose proof (@rmag_nonneg (-1074) (- Zneg p1) ltac:(lia) (nshift_base _)). lia.
  - pose proof (@rmag_nonneg (-1074) (- Zneg p1) ltac:(lia) (nshift_base _)).
    pose proof (@rmag_nonneg (-1074) (Zpos p2) ltac:(lia) (nshift_base _)). lia.
  - pose proof (@rmag_mono (-1074) (- Zneg p2) (- Zneg p1) ltac:(lia) ltac:(lia)
                           (nshift_base _)).
    lia.
Qed.

Lemma nshift_mulc (mc : positive) (ec a : Z) :
  valid (S754_finite false mc ec) = true -> 0 < a ->
  0 <= nshift (ec - 1074) (a * Zpos mc).
Proof.
  intros Vc Ha. apply valid_finite_inv in Vc. destruct Vc as (_ & _ & [D|E]).
  - pose proof (digits2_pos_bounds mc) as [L _]. rewrite D in L.
    change (53 - 1) with 52 in L.
    assert (H : 2 ^ 52 <= a * Zpos mc) by nia.
    pose proof (@Zdigits2_mono (2 ^ 52) (a * Zpos mc) ltac:(reflexivity) H) as M.
    change (Zdigits2 (2 ^ 52)) with 53 in M. unfold nshift. lia.
  - unfold nshift. lia.
Qed.

Lemma mulc_mag_range (mc : positive) (ec a : Z) :
  valid (S754_finite false mc ec) = true -> 0 < a ->
  0 <= mulc_mag mc ec a <= 2 ^ 2098.
Proof.
  intros Vc Ha. assert (P : 0 < 2 ^ 2098) by reflexivity.
  unfold mulc_mag. destruct (_ <=? _); [lia|].
  pose proof (@rmag_nonneg (ec - 1074) (a * Zpos mc) ltac:(lia)
                           (nshift_mulc _ _ Vc Ha)).
  lia.
Qed.

Lemma mulc_mag_mono (mc : positive) (ec a1 a2 : Z) :
  valid (S754_finite false mc ec) = true -> 0 < a1 -> a1 <= a2 ->
  mulc_mag mc ec a1 <= mulc_mag mc ec a2.
Proof.
  intros Vc H1 H12. assert (P : 0 < 2 ^ 2098) by reflexivity.
  unfold mulc_mag.
  destruct (Z.leb_spec (2 ^ 2098) a1), (Z.leb_spec (2 ^ 2098) a2); try lia.
  pose proof (@rmag_mono (ec - 1074) (a1 * Zpos mc) (a2 * Zpos mc) ltac:(lia)
                         ltac:(nia) (nshift_mulc _ _ Vc H1)).
  lia.
Qed.

Lemma ord_mulc_mono (mc : positive) (ec a1 a2 : Z) :
  valid (S754_finite false mc ec) = true -> a1 <= a2 ->
  ord_mulc mc ec a1 <= ord_mulc mc ec a2.
Proof.
  intros Vc H.
  destruct a1 as [|p1|p1], a2 as [|p2|p2]; cbn [ord_mulc]; try lia.
  - pose proof (@mulc_mag_range mc ec (Zpos p2) Vc ltac:(lia)). lia.
  - apply mulc_mag_mono; [assumption|lia|assumption].
  - pose proof (@mulc_mag_range mc ec (- Zneg p1) Vc ltac:(lia)). lia.
  - pose proof (@mulc_mag_range mc ec (- Zneg p1) Vc ltac:(lia)).
    pose proof (@mulc_mag_range mc ec (Zpos p2) Vc ltac:(lia)). lia.
  - pose proof (@mulc_mag_mono mc ec (- Zneg p2) (- Zneg p1) Vc ltac:(lia)
                               ltac:(lia)).
    lia.
Qed.

Lemma SFmul_const_spec (mc : positive) (ec : Z) (x : spec_float) :
  valid (S754_finite false mc ec) = true ->
  valid x = true -> is_nan x = false ->
  valid (SFmul prec emax x (S754_finite false mc ec)) = true
  /\ is_nan (SFmul prec emax x (S754_finite false mc ec)) = false
  /\ ord (SFmul prec emax x (S754_finite false mc ec)) = ord_mulc mc ec (ord x).
Proof.
  intros Vc Vx Nx. assert (P : 0 < 2 ^ 2098) by reflexivity.
  destruct x as [s|s| |s m e]; try discriminate.
  - repeat split.
  - repeat split. cbn [SFmul ord]. rewrite xorb_false_r.
    destruct s; cbn [cond_Zopp]; reflexivity.
  - pose proof (ord_finite_bounds _ _ _ Vx) as B.
    pose proof (valid_finite_inv _ _ _ Vx) as (He & _).
    rewrite (@SFmul_finite (e + 1074) s false m mc e ec Vx Vc ltac:(lia)).
    rewrite xorb_false_r.
    replace (e + ec - (e + 1074)) with (ec - 1074) by lia.
    replace (Zpos m * Zpos mc * 2 ^ (e + 1074))
      with (Zpos m * 2 ^ (e + 1074) * Zpos mc) by ring.
    destruct (@round_at_spec (ec - 1074) s (Zpos m * 2 ^ (e + 1074) * Zpos mc))
      as (V & N & O); [lia | apply nshift_mulc; [assumption|lia] |].
    repeat split; try assumption.
    rewrite O. cbn [ord].
    destruct s; cbn [cond_Zopp].
    + destruct (- (Zpos m * 2 ^ (e + 1074))) eqn:E; try lia.
      cbn [ord_mulc]. rewrite <- E, Z.opp_involutive. unfold mulc_mag.
      destruct (Z.leb_spec (2 ^ 2098) (Zpos m * 2 ^ (e + 1074))); [lia|reflexivity].
    + destruct (Zpos m * 2 ^ (e + 1074)) eqn:E; try lia.
      cbn [ord_mulc]. unfold mulc_mag. rewrite <- E.
      destruct (Z.leb_spec (2 ^ 2098) (Zpos m * 2 ^ (e + 1074))); [lia|reflexivity].
Qed.

Lemma SFmul_comm (x y : spec_float) : SFmul prec emax x y = SFmul prec emax y x.
Proof.
  destruct x as [sx|sx| |sx mx ex], y as [sy|sy| |sy my ey]; cbn [SFmul];
    rewrite ?(xorb_comm sx sy); try reflexivity.
  rewrite (Pos.mul_comm mx my), (Z.add_comm ex ey). reflexivity.
Qed.

(** ** Exact and nearly exact roundings *)

Lemma rnd_q_exact (N n : Z) : 0 <= n -> N mod 2 ^ n = 0 -> rnd_q N n = N / 2 ^ n.
Proof.
  intros Hn Hm. unfold rnd_q; cbn zeta. rewrite Hm.
  assert (0 < 2 ^ n) by (apply Z.pow_pos_nonneg; lia).
  destruct (Z.ltb_spec (2 * 0) (2 ^ n)); [reflexivity|lia].
Qed.

Lemma rnd_q_error (N n : Z) :
  0 <= n -> 2 * Z.abs (rnd_q N n * 2 ^ n - N) <= 2 ^ n.
Proof.
  intros Hn. assert (HP : 0 < 2 ^ n) by (apply Z.pow_pos_nonneg; lia).
  pose proof (Z.div_mod N (2 ^ n) ltac:(lia)) as D.
  pose proof (Z.mod_pos_bound N (2 ^ n) HP) as R.
  unfold rnd_q; cbn zeta.
  destruct (Z.ltb_spec (2 * (N mod 2 ^ n)) (2 ^ n)); [nia|].
  destruct (Z.ltb_spec (2 ^ n) (2 * (N mod 2 ^ n))); [nia|].
  destruct (Z.even _); nia.
Qed.

Lemma mod_pow2_mul (q t n : Z) : 0 <= n <= t -> (q * 2 ^ t) mod 2 ^ n = 0.
Proof.
  intros H. replace t with ((t - n) + n) by lia.
  rewrite Z.pow_add_r, Z.mul_assoc by lia. apply Z_mod_mult.
Qed.

Lemma div_pow2_mul (q t n : Z) :
  0 <= n <= t -> (q * 2 ^ t) / 2 ^ n = q * 2 ^ (t - n).
Proof.
  intros H. replace t with ((t - n) + n) at 1 by lia.
  rewrite Z.pow_add_r, Z.mul_assoc by lia.
  apply Z_div_mult. apply Z.lt_gt, Z.pow_pos_nonneg; lia.
Qed.

Lemma digits_le_53 (q : Z) : 0 < q < 2 ^ 53 -> Zdigits2 q <= 53.
Proof.
  intros H. pose proof (@Zdigits2_bounds q ltac:(lia)) as [L _].
  destruct (Z_lt_le_dec 53 (Zdigits2 q)); [|lia].
  assert (2 ^ 53 <= 2 ^ (Zdigits2 q - 1)) by (apply Z.pow_le_mono_r; lia).
  lia.
Qed.

(** A multiple [q * 2^t] of [2^t] with [q] below [2^53] is a double when
    [t] is not too large: rounding leaves it alone. *)
Lemma rmag_representable (q t : Z) :
  0 < q < 2 ^ 53 -> 0 <= t -> rmag (-1074) (q * 2 ^ t) = q * 2 ^ t.
Proof.
  intros Hq Ht. pose proof (digits_le_53 Hq) as Hd.
  assert (Dn : Zdigits2 (q * 2 ^ t) = Zdigits2 q + t)
    by (apply Zdigits2_shift; lia).
  unfold rmag. set (n := nshift (-1074) (q * 2 ^ t)).
  assert (Hn : 0 <= n <= t) by (subst n; unfold nshift; lia).
  rewrite rnd_q_exact, div_pow2_mul by (try apply mod_pow2_mul; lia).
  replace (-1074 + n + 1074) with n by lia.
  rewrite <- Z.mul_assoc, <- Z.pow_add_r by lia. do 2 f_equal. lia.
Qed.

(** Halving is exact away from the bottom of the subnormal range. *)
Lemma rmag_half (q t : Z) :
  0 < q < 2 ^ 53 -> 1 <= t ->
  rmag (-53 - 1074) (q * 2 ^ t * 2 ^ 52) = q * 2 ^ (t - 1).
Proof.
  intros Hq Ht. pose proof (digits_le_53 Hq) as Hd.
  replace (q * 2 ^ t * 2 ^ 52) with (q * 2 ^ (t + 52))
    by (rewrite Z.pow_add_r by lia; ring).
  assert (Dn : Zdigits2 (q * 2 ^ (t + 52)) = Zdigits2 q + (t + 52))
    by (apply Zdigits2_shift; lia).
  pose proof (@Zdigits2_pos q ltac:(lia)).
  unfold rmag. set (n := nshift (-53 - 1074) (q * 2 ^ (t + 52))).
  assert (Hn : 53 <= n <= t + 52) by (subst n; unfold nshift; lia).
  rewrite rnd_q_exact, div_pow2_mul by (try apply mod_pow2_mul; lia).
  rewrite <- Z.mul_assoc, <- Z.pow_add_r by lia. do 2 f_equal. lia.
Qed.

Lemma ord_round_Z_pos (N : Z) :
  0 < N -> ord_round_Z N = Z.min (rmag (-1074) N) (2 ^ 2098).
Proof. destruct N; try lia. reflexivity. Qed.

Lemma ord_mulc_pos (mc : positive) (ec a : Z) :
  0 < a -> ord_mulc mc ec a = mulc_mag mc ec a.
Proof. destruct a; try lia. reflexivity. Qed.

(** ** The wrapper [0.5 * (1 + e)] on integer readings *)

Lemma halve_reading (q t : Z) :
  0 < q <= 2 ^ 53 -> 1 <= t <= 1030 ->
  ord_mulc half_m half_e (q * 2 ^ t) = q * 2 ^ (t - 1).
Proof.
  intros Hq Ht.
  assert (Pt : 0 < 2 ^ (t - 1)) by (apply Z.pow_pos_nonneg; lia).
  assert (Et : 2 ^ t = 2 * 2 ^ (t - 1)).
  { replace t with (1 + (t - 1)) at 1 by lia.
    rewrite Z.pow_add_r by lia. reflexivity. }
  assert (Hsmall : q * 2 ^ t < 2 ^ 2098).
  { assert (2 ^ t <= 2 ^ 1030) by (apply Z.pow_le_mono_r; lia).
    assert (2 ^ 53 * 2 ^ 1030 < 2 ^ 2098) by reflexivity.
    assert (0 < 2 ^ t) by lia. nia. }
  rewrite ord_mulc_pos by nia.
  unfold mulc_mag, half_m, half_e.
  destruct (Z.leb_spec (2 ^ 2098) (q * 2 ^ t)); [lia|].
  change (Zpos 4503599627370496) with (2 ^ 52).
  destruct (Z.eq_dec q (2 ^ 53)) as [E|NE].
  - subst q.
    replace (2 ^ 53 * 2 ^ t) with (2 ^ 52 * 2 ^ (t + 1))
      by (rewrite Z.pow_add_r by lia; change (2 ^ 53) with (2 ^ 52 * 2 ^ 1); ring).
    rewrite rmag_half by (try reflexivity; lia).
    replace (t + 1 - 1) with t by lia.
    rewrite Z.min_l; [rewrite Et; change (2 ^ 53) with (2 ^ 52 * 2); ring|].
    change (2 ^ 53) with (2 * 2 ^ 52) in Hsmall. lia.
  - rewrite rmag_half by lia. rewrite Z.min_l by nia. reflexivity.
Qed.

Lemma cdf_ord_sum (E : Z) :
  0 < E < 2 ^ 1074 ->
  (2 ^ 1073 < E -> E mod 2 ^ 1021 = 0) ->
  exists delta, -1 <= delta <= 1
    /\ cdf_ord E + cdf_ord (- E) = (2 ^ 54 + delta) * 2 ^ 1020.
Proof.
  intros HE Hgrid.
  set (X := 2 ^ 1020).
  assert (HX : 0 < X) by reflexivity.
  assert (E1021 : 2 ^ 1021 = 2 * X) by reflexivity.
  assert (E1022 : 2 ^ 1022 = 4 * X) by reflexivity.
  assert (E1073 : 2 ^ 1073 = 2 ^ 53 * X) by reflexivity.
  assert (E1074 : 2 ^ 1074 = 2 ^ 54 * X) by reflexivity.
  assert (E1075 : 2 ^ 1075 = 2 ^ 55 * X) by reflexivity.
  assert (Big : 2 ^ 55 * X < 2 ^ 2098) by reflexivity.
  (* the sum 1 + e *)
  assert (HA : exists qa, 2 ^ 52 <= qa <= 2 ^ 53
             /\ 2 * Z.abs (qa * (4 * X) - (2 ^ 1074 + E)) <= 4 * X
             /\ cdf_ord E = qa * (2 * X)).
  { assert (DN : Zdigits2 (2 ^ 1074 + E) = 1075)
      by (apply Zdigits2_unique; [change (1075 - 1) with 1074|]; lia).
    assert (Hn : nshift (-1074) (2 ^ 1074 + E) = 1022)
      by (unfold nshift; rewrite DN; reflexivity).
    exists (rnd_q (2 ^ 1074 + E) 1022).
    assert (R : 2 ^ 52 <= rnd_q (2 ^ 1074 + E) 1022 <= 2 ^ 53).
    { split; [apply rnd_q_lower | apply rnd_q_upper]; rewrite ?E1022; lia. }
    split; [exact R|]. split.
    - rewrite <- E1022. apply rnd_q_error. lia.
    - unfold cdf_ord. rewrite ord_round_Z_pos by lia.
      unfold rmag. rewrite Hn.
      replace (-1074 + 1022 + 1074) with 1022 by lia.
      rewrite Z.min_l by (rewrite E1022; nia).
      rewrite halve_reading by lia.
      change (1022 - 1) with 1021. rewrite E1021. reflexivity. }
  (* the difference 1 - e *)
  assert (HB : exists qb, 0 < qb <= 2 ^ 53
             /\ 2 * Z.abs (qb * (2 * X) - (2 ^ 1074 - E)) <= 2 * X
             /\ cdf_ord (- E) = qb * X).
  { unfold cdf_ord. change (2 ^ 1074 + - E) with (2 ^ 1074 - E).
    rewrite ord_round_Z_pos by lia.
    destruct (Z_le_gt_dec E (2 ^ 1073)) as [Hle|Hgt].
    - assert (DN : Zdigits2 (2 ^ 1074 - E) = 1074)
        by (apply Zdigits2_unique; [change (1074 - 1) with 1073|]; lia).
      assert (Hn : nshift (-1074) (2 ^ 1074 - E) = 1021)
        by (unfold nshift; rewrite DN; reflexivity).
      exists (rnd_q (2 ^ 1074 - E) 1021).
      assert (R : 2 ^ 52 <= rnd_q (2 ^ 1074 - E) 1021 <= 2 ^ 53).
      { split; [apply rnd_q_lower | apply rnd_q_upper]; rewrite ?E1021; lia. }
      split; [lia|]. split.
      + rewrite <- E1021. apply rnd_q_error. lia.
      + unfold rmag. rewrite Hn.
        replace (-1074 + 1021 + 1074) with 1021 by lia.
        rewrite Z.min_l by (rewrite E1021; nia).
        rewrite halve_reading by lia.
        change (1021 - 1) with 1020. reflexivity.
    - specialize (Hgrid ltac:(lia)).
      pose proof (Z.div_mod E (2 ^ 1021) ltac:(lia)) as D.
      rewrite Hgrid, Z.add_0_r in D.
      set (k' := E / 2 ^ 1021) in *.
      exists (2 ^ 53 - k').
      assert (Hk : 2 ^ 52 < k' < 2 ^ 53) by (rewrite E1021 in D; nia).
      assert (EN : 2 ^ 1074 - E = (2 ^ 53 - k') * 2 ^ 1021)
        by (rewrite E1021 in *; nia).
      split; [lia|]. split.
      + rewrite EN, E1021. lia.
      + rewrite EN, rmag_representable by lia.
        rewrite Z.min_l by (rewrite E1021; nia).
        rewrite halve_reading by lia.
        change (1021 - 1) with 1020. reflexivity. }
  destruct HA as (qa & Ra & Erra & ->).
  destruct HB as (qb & Rb & Errb & ->).
  exists (2 * qa + qb - 2 ^ 54).
  fold X. split; [|ring].
  rewrite E1074 in Erra, Errb. nia.
Qed.

End RoundingFacts.

Import RoundingFacts.

(* ================================================================== *)
(** * Facts about the double operations *)
(* ================================================================== *)

Section DoubleFacts.

Local Open Scope Z_scope.

(** ** Signs *)

Lemma binary_round_aux_opp (s : bool) (m e : Z) (l : location) :
  binary_round_aux prec emax (negb s) m e l
  = opp (binary_round_aux prec emax s m e l).
Proof.
  unfold binary_round_aux.
  destruct (shr_fexp prec emax m e l) as [r1 e1].
  destruct (shr_fexp prec emax _ e1 loc_Exact) as [r2 e2].
  destruct (shr_m r2); try reflexivity.
  destruct (e2 <=? emax - prec); reflexivity.
Qed.

Lemma mul_opp_l (x y : double) : mul (opp x) y = opp (mul x y).
Proof.
  destruct x as [sx|sx| |sx mx ex], y as [sy|sy| |sy my ey];
    cbn [mul SFmul opp SFopp]; unfold mul, opp; cbn [SFmul SFopp];
    rewrite <- ?negb_xorb_l; try reflexivity.
  apply binary_round_aux_opp.
Qed.

Lemma ord_opp (x : double) : ord (opp x) = - ord x.
Proof.
  destruct x as [s|s| |s m e]; cbn [opp SFopp ord]; unfold opp; cbn [SFopp ord];
    try reflexivity; destruct s; cbn [negb cond_Zopp]; lia.
Qed.

Lemma valid_opp (x : double) : valid (opp x) = valid x.
Proof. destruct x; reflexivity. Qed.

Lemma is_nan_opp (x : double) : is_nan (opp x) = is_nan x.
Proof. destruct x; reflexivity. Qed.

(** ** Comparisons *)

Lemma leb_ord (x y : double) :
  valid x = true -> valid y = true -> is_nan x = false -> is_nan y = false ->
  leb x y = (ord x <=? ord y).
Proof. apply SFleb_ord. Qed.

Lemma leb_not_nan (x y : double) :
  leb x y = true -> is_nan x = false /\ is_nan y = false.
Proof.
  destruct x, y; try discriminate; split; reflexivity.
Qed.

Lemma finite_of_ord (x : double) :
  is_nan x = false -> - 2 ^ 2098 < ord x < 2 ^ 2098 -> is_finite x = true.
Proof.
  destruct x as [s|s| |s m e]; try reflexivity; try discriminate.
  intros _. cbn [ord]. destruct s; cbn [cond_Zopp]; lia.
Qed.

(** ** Multiplication by one, and commutativity *)

Lemma mul_comm (x y : double) : mul x y = mul y x.
Proof. apply SFmul_comm. Qed.

Lemma mul_one_l (x : double) : valid x = true -> mul lit_1 x = x.
Proof.
  intros V. destruct x as [s|s| |s m e]; try reflexivity.
  change lit_1 with (S754_finite false 4503599627370496 (-52)).
  unfold mul.
  rewrite (@SFmul_finite 0 false s 4503599627370496 m (-52) e eq_refl V ltac:(lia)).
  pose proof (valid_finite_inv _ _ _ V) as (He & _).
  cbn [xorb]. rewrite Z.pow_0_r, Z.mul_1_r.
  replace (-52 + e - 0) with (e - 52) by lia.
  change (Zpos 4503599627370496) with (2 ^ 52).
  rewrite (Z.mul_comm (2 ^ 52)).
  rewrite round_at_scale by (rewrite ?(nshift_canonical _ _ _ V); lia).
  apply round_at_canonical. exact V.
Qed.

Lemma mul_one_r (x : double) : valid x = true -> mul x lit_1 = x.
Proof. intros V. rewrite mul_comm. apply mul_one_l. exact V. Qed.

Lemma binary_round_aux_round_at_Z (s : bool) (N e : Z) :
  0 < N -> 0 <= nshift e N ->
  binary_round_aux prec emax s N e loc_Exact = round_at e s N.
Proof.
  intros HN Hn. destruct N as [|p|p]; try lia.
  apply binary_round_aux_round_at. exact Hn.
Qed.

Lemma div_eucl_pow2 (m s : Z) :
  52 <= s -> Z.div_eucl (m * 2 ^ s) (2 ^ 52) = (m * 2 ^ (s - 52), 0).
Proof.
  intros Hs.
  assert (Q : (m * 2 ^ s) / 2 ^ 52 = m * 2 ^ (s - 52)) by (apply div_pow2_mul; lia).
  assert (R : (m * 2 ^ s) mod 2 ^ 52 = 0) by (apply mod_pow2_mul; lia).
  unfold Z.div, Z.modulo in Q, R.
  destruct (Z.div_eucl (m * 2 ^ s) (2 ^ 52)) as [q r]. congruence.
Qed.

(** Dividing by one changes nothing. *)
Lemma div_one_r (x : double) : valid x = true -> div x lit_1 = x.
Proof.
  intros V. destruct x as [s|s| |s m e]; try (destruct s; reflexivity);
    try reflexivity.
  pose proof (valid_finite_inv _ _ _ V) as (He & Hd & Hc).
  pose proof (nshift_canonical _ _ _ V) as Hn.
  change lit_1 with (S754_finite false 4503599627370496 (-52)).
  unfold div; cbn [SFdiv]. rewrite xorb_false_r.
  unfold SFdiv_core_binary.
  change (Zdigits2 (Zpos 4503599627370496)) with 53. cbn [Zdigits2].
  rewrite fexp_eq.
  set (t := Z.max (Zpos (digits2_pos m) + e - (53 + -52) - 53) (-1074)).
  assert (Ht : t <= e) by (subst t; lia).
  replace (Z.min t (e - -52)) with t by lia.
  destruct (e - -52 - t) as [|p|p] eqn:Es; try lia.
  rewrite Z.shiftl_mul_pow2 by lia.
  change (Zpos 4503599627370496) with (2 ^ 52).
  rewrite div_eucl_pow2 by lia.
  change (new_location (2 ^ 52) 0) with loc_Exact.
  replace (Zpos p - 52) with (e - t) by lia.
  assert (P : 0 < 2 ^ (e - t)) by (apply Z.pow_pos_nonneg; lia).
  assert (Hn' : nshift t (Zpos m * 2 ^ (e - t)) = e - t).
  { unfold nshift in *. rewrite Zdigits2_shift by lia. cbn [Zdigits2] in *. lia. }
  rewrite binary_round_aux_round_at_Z by (rewrite ?Hn'; nia).
  replace t with (e - (e - t)) at 1 by lia.
  rewrite round_at_scale by lia.
  apply round_at_canonical. exact V.
Qed.

(** ** Addition of finite doubles *)

Lemma add_finite (x y : double) :
  valid x = true -> valid y = true ->
  is_finite x = true -> is_finite y = true ->
  ord x + ord y <> 0 ->
  add x y = round_Z (ord x + ord y).
Proof.
  intros Vx Vy Fx Fy Hs.
  destruct x as [sx|sx| |sx mx ex], y as [sy|sy| |sy my ey]; try discriminate.
  - cbn [ord] in Hs. lia.
  - change (ord (S754_zero sx)) with 0. rewrite Z.add_0_l.
    rewrite (round_Z_ord _ _ _ Vy). reflexivity.
  - change (ord (S754_zero sy)) with 0. rewrite Z.add_0_r.
    rewrite (round_Z_ord _ _ _ Vx). reflexivity.
  - apply SFadd_finite; assumption.
Qed.

(** ** The wrapper [0.5 * (1 + e)] *)

Lemma cdf_ord_mono (a1 a2 : Z) : a1 <= a2 -> cdf_ord a1 <= cdf_ord a2.
Proof.
  intros H. unfold cdf_ord.
  apply ord_mulc_mono; [reflexivity|].
  apply ord_round_Z_mono. lia.
Qed.

Lemma cdf_ord_low : cdf_ord (- 2 ^ 1074) = 0.
Proof. vm_compute. reflexivity. Qed.

Lemma cdf_ord_mid : cdf_ord 0 = 2 ^ 1073.
Proof. vm_compute. reflexivity. Qed.

Lemma cdf_ord_high : cdf_ord (2 ^ 1074) = 2 ^ 1074.
Proof. vm_compute. reflexivity. Qed.

Lemma cdf_ord_range (a : Z) :
  - 2 ^ 1074 <= a <= 2 ^ 1074 -> 0 <= cdf_ord a <= 2 ^ 1074.
Proof.
  intros [L H]. rewrite <- cdf_ord_low at 1. rewrite <- cdf_ord_high at 2.
  split; apply cdf_ord_mono; assumption.
Qed.

Lemma ord_lit_1 : ord lit_1 = 2 ^ 1074.
Proof. reflexivity. Qed.

Lemma wrapper_spec (e : double) :
  valid e = true -> is_nan e = false -> - 2 ^ 1074 <= ord e <= 2 ^ 1074 ->
  valid (mul lit_0_5 (add lit_1 e)) = true
  /\ is_nan (mul lit_0_5 (add lit_1 e)) = false
  /\ ord (mul lit_0_5 (add lit_1 e)) = cdf_ord (ord e).
Proof.
  intros V N R.
  assert (P : 2 ^ 1074 < 2 ^ 2098) by reflexivity.
  assert (F : is_finite e = true) by (apply finite_of_ord; [assumption|lia]).
  assert (S : add lit_1 e = round_Z (2 ^ 1074 + ord e)).
  { destruct e as [s|s| |s m k]; try discriminate.
    - cbn [ord]. reflexivity.
    - change lit_1 with (S754_finite false 4503599627370496 (-52)).
      unfold add. rewrite SFadd_finite by (reflexivity || assumption).
      reflexivity. }
  rewrite S. destruct (round_Z_spec (2 ^ 1074 + ord e)) as (Va & Na & Oa).
  rewrite mul_comm. change lit_0_5 with (S754_finite false half_m half_e).
  destruct (@SFmul_const_spec half_m half_e (round_Z (2 ^ 1074 + ord e))
              eq_refl Va Na) as (Vc & Nc & Oc).
  unfold mul. repeat split; try assumption.
  rewrite Oc, Oa. reflexivity.
Qed.

Lemma range_of_leb (e : double) :
  valid e = true -> leb (opp lit_1) e = true -> leb e lit_1 = true ->
  is_nan e = false /\ - 2 ^ 1074 <= ord e <= 2 ^ 1074.
Proof.
  intros V L H.
  destruct (leb_not_nan _ _ H) as (N & _).
  rewrite leb_ord in L, H by (reflexivity || assumption).
  apply Z.leb_le in L, H.
  change (ord (opp lit_1)) with (- 2 ^ 1074) in L. rewrite ord_lit_1 in H.
  split; [assumption|lia].
Qed.

(** A double beyond one half in magnitude is a multiple of [2^-53]. *)
Lemma ord_grid (e : double) :
  valid e = true -> is_finite e = true -> 2 ^ 1073 < Z.abs (ord e) ->
  Z.abs (ord e) mod 2 ^ 1021 = 0.
Proof.
  intros V F H. destruct e as [s|s| |s m k]; try discriminate.
  pose proof (valid_finite_inv _ _ _ V) as (Hk & Hd & _).
  pose proof (digits2_pos_bounds m) as [_ Um].
  assert (A : Z.abs (ord (S754_finite s m k)) = Zpos m * 2 ^ (k + 1074)).
    { cbn [ord]. assert (0 < 2 ^ (k + 1074)) by (apply Z.pow_pos_nonneg; lia).
      destruct s; cbn [cond_Zopp]; nia. }
    rewrite A in *.
    assert (Hk2 : 1021 <= k + 1074).
    { destruct (Z_lt_le_dec (k + 1074) 1021); [|assumption]. exfalso.
      assert (2 ^ Zpos (digits2_pos m) <= 2 ^ 53) by (apply Z.pow_le_mono_r; lia).
      assert (2 ^ (k + 1074) <= 2 ^ 1020) by (apply Z.pow_le_mono_r; lia).
      assert (2 ^ 53 * 2 ^ 1020 = 2 ^ 1073) by reflexivity.
      assert (0 < 2 ^ (k + 1074)) by (apply Z.pow_pos_nonneg; lia).
      nia. }
    apply mod_pow2_mul. lia.
Qed.

End DoubleFacts.

Section WrapperFacts.

Local Open Scope Z_scope.

Lemma cdf_ord_sum_all (E : Z) :
  - 2 ^ 1074 <= E <= 2 ^ 1074 ->
  (2 ^ 1073 < Z.abs E -> Z.abs E mod 2 ^ 1021 = 0) ->
  exists delta, -1 <= delta <= 1
    /\ cdf_ord E + cdf_ord (- E) = (2 ^ 54 + delta) * 2 ^ 1020.
Proof.
  intros R G.
  assert (E0 : cdf_ord 0 + cdf_ord 0 = (2 ^ 54 + 0) * 2 ^ 1020)
    by (rewrite cdf_ord_mid; reflexivity).
  assert (E1 : cdf_ord (2 ^ 1074) + cdf_ord (- 2 ^ 1074) = (2 ^ 54 + 0) * 2 ^ 1020)
    by (rewrite cdf_ord_high, cdf_ord_low; reflexivity).
  destruct (Z.eq_dec E 0) as [->|Hz]; [exists 0; split; [lia|exact E0]|].
  destruct (Z.eq_dec E (2 ^ 1074)) as [->|Hu]; [exists 0; split; [lia|exact E1]|].
  destruct (Z.eq_dec E (- 2 ^ 1074)) as [->|Hl].
  { exists 0; split; [lia|]. rewrite Z.opp_involutive, Z.add_comm. exact E1. }
  destruct (Z_lt_le_dec 0 E) as [Hp|Hn].
  - apply cdf_ord_sum; [lia|]. intros H. rewrite Z.abs_eq in G by lia.
    apply G. exact H.
  - destruct (@cdf_ord_sum (- E) ltac:(lia)) as (delta & Hd & Hs).
    + intros H. rewrite Z.abs_neq in G by lia. apply G. exact H.
    + exists delta. split; [exact Hd|].
      rewrite Z.opp_involutive in Hs. rewrite Z.add_comm. exact Hs.
Qed.

Lemma round_Z_near_one (delta : Z) :
  -1 <= delta <= 1 -> round_Z ((2 ^ 54 + delta) * 2 ^ 1020) = lit_1.
Proof.
  intros H.
  assert (C : delta = -1 \/ delta = 0 \/ delta = 1) by lia.
  destruct C as [->|[->| ->]]; vm_compute; reflexivity.
Qed.

(** For every double [e] between -1 and 1 the two halves
    [0.5 * (1 + e)] and [0.5 * (1 - e)] add up to exactly 1. *)
Lemma wrapper_symmetry (e : double) :
  valid e = true -> leb (opp lit_1) e = true -> leb e lit_1 = true ->
  add (mul lit_0_5 (add lit_1 e)) (mul lit_0_5 (add lit_1 (opp e))) = lit_1.
Proof.
  intros V L H.
  destruct (range_of_leb e V L H) as (N & R).
  assert (P : 2 ^ 1074 < 2 ^ 2098) by reflexivity.
  assert (F : is_finite e = true) by (apply finite_of_ord; [assumption|lia]).
  destruct (wrapper_spec e V N R) as (Vp & Np & Op).
  destruct (wrapper_spec (opp e)) as (Vq & Nq & Oq);
    [rewrite valid_opp; exact V | rewrite is_nan_opp; exact N
     | rewrite ord_opp; lia |].
  rewrite ord_opp in Oq.
  pose proof (cdf_ord_range R) as Rp.
  assert (Rq : 0 <= cdf_ord (- ord e) <= 2 ^ 1074) by (apply cdf_ord_range; lia).
  destruct (@cdf_ord_sum_all (ord e) R) as (delta & Hd & Hs).
  { intros Hbig. apply ord_grid; assumption. }
  assert (X : 0 < 2 ^ 1020) by reflexivity.
  rewrite add_finite; try assumption.
  - rewrite Op, Oq, Hs. apply round_Z_near_one. exact Hd.
  - apply finite_of_ord; [assumption|lia].
  - apply finite_of_ord; [assumption|lia].
  - rewrite Op, Oq, Hs.
    assert (0 < 2 ^ 54 + delta) by (change (2 ^ 54) with 18014398509481984; lia).
    nia.
Qed.

(** The wrapper is non-decreasing and maps [-1, 1] into [0, 1]. *)
Lemma wrapper_monotone (e1 e2 : double) :
  valid e1 = true -> valid e2 = true ->
  leb (opp lit_1) e1 = true -> leb e2 lit_1 = true -> leb e1 e2 = true ->
  leb (mul lit_0_5 (add lit_1 e1)) (mul lit_0_5 (add lit_1 e2)) = true
  /\ leb pzero (mul lit_0_5 (add lit_1 e1)) = true
  /\ leb (mul lit_0_5 (add lit_1 e2)) lit_1 = true.
Proof.
  intros V1 V2 L1 H2 L12.
  destruct (leb_not_nan _ _ L12) as (N1 & N2).
  rewrite leb_ord in L1, H2, L12 by (reflexivity || assumption).
  apply Z.leb_le in L1, H2, L12.
  change (ord (opp lit_1)) with (- 2 ^ 1074) in L1. rewrite ord_lit_1 in H2.
  destruct (wrapper_spec e1 V1 N1 ltac:(lia)) as (Vp & Np & Op).
  destruct (wrapper_spec e2 V2 N2 ltac:(lia)) as (Vq & Nq & Oq).
  pose proof (@cdf_ord_range (ord e1) ltac:(lia)) as R1.
  pose proof (@cdf_ord_range (ord e2) ltac:(lia)) as R2.
  pose proof (@cdf_ord_mono (ord e1) (ord e2) L12) as M.
  rewrite !leb_ord by (reflexivity || assumption).
  rewrite Op, Oq, ord_lit_1. change (ord pzero) with 0.
  repeat split; apply Z.leb_le; lia.
Qed.

(** Multiplying by [M_SQRT1_2] keeps the order. *)
Lemma scale_monotone (x y : double) :
  valid x = true -> valid y = true -> leb x y = true ->
  valid (mul x M_SQRT1_2) = true /\ valid (mul y M_SQRT1_2) = true
  /\ leb (mul x M_SQRT1_2) (mul y M_SQRT1_2) = true.
Proof.
  intros Vx Vy L.
  destruct (leb_not_nan _ _ L) as (Nx & Ny).
  rewrite leb_ord in L by assumption. apply Z.leb_le in L.
  unfold M_SQRT1_2.
  destruct (@SFmul_const_spec 0x16A09E667F3BCD (-53) x eq_refl Vx Nx)
    as (Vtx & Ntx & Otx).
  destruct (@SFmul_const_spec 0x16A09E667F3BCD (-53) y eq_refl Vy Ny)
    as (Vty & Nty & Oty).
  unfold mul. repeat split; try assumption.
  rewrite SFleb_ord by assumption. rewrite Otx, Oty.
  apply Z.leb_le. apply ord_mulc_mono; [reflexivity|exact L].
Qed.

End WrapperFacts.

(* ================================================================== *)
(** * The reference math library meets the assumptions *)
(* ================================================================== *)

Lemma AnnexF_RefLibm : AnnexF RefLibm.libm.
Proof.
  constructor; try reflexivity; intros; try (destruct s; reflexivity).
Qed.

Lemma AnnexF_clip : AnnexF libm_clip.
Proof.
  constructor; try reflexivity; intros; try (destruct s; reflexivity).
Qed.

(** Two sums and quotients every double implementation agrees on:
    0.1 + 0.2 is 0x1.3333333333334p-2 (0.30000000000000004), 20 / 100 is
    the double 0.2, and 1 / sqrt(2.0) is 0x1.6a09e667f3bccp-1, one unit
    in the last place below [M_SQRT1_2]. *)
Example arithmetic_samples :
  add (div lit_1 (of_Z 10)) lit_0_2 = S754_finite false 0x13333333333334 (-54)
  /\ div (of_Z 20) lit_100_0 = lit_0_2
  /\ div lit_1 (sqrt lit_2_0) = S754_finite false 0x16A09E667F3BCC (-53).
Proof. vm_compute. repeat split. Qed.

(** The reference library reproduces the constants of <cmath>: [M_PI],
    [M_2_SQRTPI], [M_LN2], [M_LN10] and [M_E]. *)
Example reference_constants :
  dyadic RefLibm.PI (- RefLibm.F) = S754_finite false 0x1921FB54442D18 (-51)
  /\ dyadic RefLibm.TWO_OVER_SQRTPI (- RefLibm.F)
     = S754_finite false 0x120DD750429B6D (-52)
  /\ RefLibm.log lit_2_0 = S754_finite false 0x162E42FEFA39EF (-53)
  /\ RefLibm.log (of_Z 10) = S754_finite false 0x126BB1BBB55516 (-51)
  /\ RefLibm.exp lit_1 = S754_finite false 0x15BF0A8B145769 (-51).
Proof. vm_compute. repeat split. Qed.

(** The scenario of the specification: S = 100, K = 100, one year, 20 %
    volatility, 5 % rate gives a call near 10.45 and a put near 5.57. *)
Example textbook_scenario :
  let c := calculate_call_price RefLibm.libm (of_Z 100) (of_Z 100) lit_1 lit_0_2 lit_0_05 in
  let p := calculate_put_price RefLibm.libm (of_Z 100) (of_Z 100) lit_1 lit_0_2 lit_0_05 in
  ltb (div (of_Z 1045) (of_Z 100)) c = true
  /\ ltb c (div (of_Z 1046) (of_Z 100)) = true
  /\ ltb (div (of_Z 557) (of_Z 100)) p = true
  /\ ltb p (div (of_Z 558) (of_Z 100)) = true.
Proof. vm_compute. repeat split. Qed.

(* ================================================================== *)
(** * The pricing formulas *)
(* ================================================================== *)

Section Formulas.

Variable lm : Libm.

Local Open Scope b64_scope.

Lemma call_price_locals (S K T sigma r : double) :
  calculate_call_price lm S K T sigma r
  = cdf_normal_distribution lm (call_d1 lm S K T sigma r) * S
    - cdf_normal_distribution lm (call_d2 lm S K T sigma r) * K
      * exp lm (- r * T).
Proof. reflexivity. Qed.

End Formulas.

(** C2.  For all inputs (in particular for S, K, T, sigma > 0),
    [calculate_call_price] computes
    d1 = (ln(S/K) + (r + sigma^2/2) T) / (sigma sqrt(T)) and
    d2 = d1 - sigma sqrt(T) and returns
    Phi(d1) S - Phi(d2) K exp(-r T), with Phi the function computed by
    [cdf_normal_distribution]; sigma^2 is [pow(sigma, 2.0)] and [-r * T],
    which the code evaluates as (-r) * T, is the same double as -(r * T). *)
Theorem call_price_is_black_scholes (lm : Libm) (S K T sigma r : double) :
  call_d1 lm S K T sigma r = spec_d1 lm S K T sigma r
  /\ call_d2 lm S K T sigma r = spec_d2 lm S K T sigma r
  /\ calculate_call_price lm S K T sigma r = spec_CallPrice lm S K T sigma r.
Proof.
  repeat split.
  rewrite call_price_locals. unfold spec_CallPrice.
  rewrite mul_opp_l. reflexivity.
Qed.

(** C1, as stated, fails for S = K = 100, T = 1, sigma = 0.2, r = 0.03
    (so T > 0 and sigma > 0): 100 / exp(0.03) and 100 * exp(-0.03) are
    neighbouring doubles, and the put price the code returns differs from
    call + K*exp(-r*T) - S in its last bits. *)
Lemma put_parity_not_bit_exact :
  ltb pzero lit_1 = true /\ ltb pzero lit_0_2 = true
  /\ div (of_Z 100) (exp RefLibm.libm (mul lit_0_03 lit_1))
     <> mul (of_Z 100) (exp RefLibm.libm (opp (mul lit_0_03 lit_1)))
  /\ calculate_put_price RefLibm.libm (of_Z 100) (of_Z 100) lit_1 lit_0_2 lit_0_03
     <> spec_PutPrice RefLibm.libm (of_Z 100) (of_Z 100) lit_1 lit_0_2 lit_0_03.
Proof.
  split; [reflexivity|]. split; [reflexivity|].
  split; intros H; vm_compute in H; discriminate H.
Qed.

(** C1, amended.  For all inputs the put price is the call price plus
    K / exp(r*T) minus S, evaluated in that order.  It equals the
    specification's call + K*exp(-r*T) - S whenever the two discounted
    strikes K / exp(r*T) and K * exp(-r*T) are the same double, which is
    the case when r*T is zero (a zero rate), since exp(+-0) = 1. *)
Theorem put_price_from_call (lm : Libm) (S K T sigma r : double) :
  calculate_put_price lm S K T sigma r
  = sub (add (calculate_call_price lm S K T sigma r) (div K (exp lm (mul r T)))) S
  /\ (div K (exp lm (mul r T)) = mul K (exp lm (opp (mul r T))) ->
      calculate_put_price lm S K T sigma r = spec_PutPrice lm S K T sigma r)
  /\ (AnnexF lm -> valid K = true -> is_zero (mul r T) = true ->
      calculate_put_price lm S K T sigma r = spec_PutPrice lm S K T sigma r).
Proof.
  assert (Same : div K (exp lm (mul r T)) = mul K (exp lm (opp (mul r T))) ->
                 calculate_put_price lm S K T sigma r
                 = spec_PutPrice lm S K T sigma r).
  { intros H. unfold calculate_put_price, spec_PutPrice. rewrite H. reflexivity. }
  split; [reflexivity|]. split; [exact Same|].
  intros AF VK Z. apply Same.
  destruct (mul r T) as [s| | |]; try discriminate.
  change (opp (S754_zero s)) with (S754_zero (negb s)).
  rewrite !(exp_of_zero AF).
  rewrite div_one_r, mul_one_r by assumption. reflexivity.
Qed.

(** C3.  For every x, [cdf_normal_distribution] returns
    0.5 * (1 + erf(x / sqrt(2))) with the division by sqrt(2) carried
    out, as the source's comment says, as a multiplication by
    [M_SQRT1_2] = 1/sqrt(2): the value is 0.5 * (1 + erf(x * M_SQRT1_2)),
    and [M_SQRT1_2] is the double nearest to 1/sqrt(2), since with m its
    53-bit significand (2m - 1)^2 < 2^107 < (2m + 1)^2, that is
    (m - 1/2) 2^-53 < 1/sqrt(2) < (m + 1/2) 2^-53.  Wherever the product
    x * M_SQRT1_2 and the quotient x / sqrt(2.0) are the same double, as
    for zeros, infinities and NaN, the value is bit for bit that of the
    formula evaluated with the division. *)
Theorem cdf_is_erf_of_scaled_argument (lm : Libm) (x : double) :
  cdf_normal_distribution lm x
  = mul lit_0_5 (add lit_1 (erf lm (mul x M_SQRT1_2)))
  /\ (exists m : positive,
       M_SQRT1_2 = S754_finite false m (-53)
       /\ ((2 * Zpos m - 1) ^ 2 < 2 ^ 107 < (2 * Zpos m + 1) ^ 2)%Z)
  /\ (mul x M_SQRT1_2 = div x (sqrt lit_2_0) ->
      cdf_normal_distribution lm x = spec_NormalCDF lm x)
  /\ (is_finite x = false \/ is_zero x = true ->
      cdf_normal_distribution lm x = spec_NormalCDF lm x).
Proof.
  assert (Same : mul x M_SQRT1_2 = div x (sqrt lit_2_0) ->
                 cdf_normal_distribution lm x = spec_NormalCDF lm x).
  { intros H. unfold cdf_normal_distribution, spec_NormalCDF. rewrite H.
    reflexivity. }
  split; [reflexivity|]. split.
  - exists 0x16A09E667F3BCD%positive. split; [reflexivity|].
    split; reflexivity.
  - split; [exact Same|].
    intros [H|H]; apply Same;
      destruct x as [[|]|[|]| |s m e]; try discriminate; vm_compute; reflexivity.
Qed.

(** In the last bits the two ways of dividing by sqrt(2) can differ:
    1 * M_SQRT1_2 and 1 / sqrt(2.0) are neighbouring doubles (neither is
    1/sqrt(2), which is no double), and the CDF values computed from them
    are neighbours too. *)
Example cdf_not_division_form :
  mul lit_1 M_SQRT1_2 <> div lit_1 (sqrt lit_2_0)
  /\ cdf_normal_distribution RefLibm.libm lit_1 <> spec_NormalCDF RefLibm.libm lit_1.
Proof.
  split; intros H; vm_compute in H; discriminate H.
Qed.

(* ================================================================== *)
(** * The program *)
(* ================================================================== *)

Section ProgramFacts.

Variable lm : Libm.
Variable strtod : string -> double.
Variable show_double : stream_format -> double -> string.

Lemma run_wrong_count (argv : list string) :
  List.length argv <> 6%nat ->
  run lm strtod show_double argv
  = (Exited 1%Z, {| trace := usage_events; cout_format := general_6 |}).
Proof.
  intros H. unfold run, main.
  destruct (Z.eqb_spec (Z.of_nat (List.length argv)) 6) as [E|E]; [lia|].
  reflexivity.
Qed.

Lemma run_five_arguments (prog a1 a2 a3 a4 a5 : string) :
  run lm strtod show_double [prog; a1; a2; a3; a4; a5]
  = (Returned 0%Z,
     {| trace := success_events lm show_double (strtod a1) (strtod a2)
                                (strtod a3) (strtod a4) (strtod a5);
        cout_format := fixed_2 |}).
Proof. reflexivity. Qed.

Lemma six_arguments (argv : list string) :
  List.length argv = 6%nat ->
  exists prog a1 a2 a3 a4 a5, argv = [prog; a1; a2; a3; a4; a5].
Proof.
  intros H.
  destruct argv as [|p [|a1 [|a2 [|a3 [|a4 [|a5 [|x l]]]]]]]; try discriminate.
  repeat eexists.
Qed.

End ProgramFacts.

(** C5.  Whenever the argument count is not five positional arguments
    ([argc != 6]), [main] writes the usage message and a newline to
    standard error and exits with status 1; it enters no pricing function
    and standard output holds the banner line only, so no option value
    is printed. *)
Theorem wrong_argument_count_is_usage_error
    (lm : Libm) (strtod : string -> double)
    (show_double : stream_format -> double -> string) (argv : list string) :
  List.length argv <> 6%nat ->
  fst (run lm strtod show_double argv) = Exited 1%Z
  /\ exit_status lm strtod show_double argv = 1%Z
  /\ stderr_text (events lm strtod show_double argv) = (usage ++ endl)%string
  /\ pricing_calls (events lm strtod show_double argv) = []
  /\ stdout_text (events lm strtod show_double argv) = (banner ++ endl)%string.
Proof.
  intros H. unfold exit_status, events.
  rewrite run_wrong_count by assumption.
  repeat split.
Qed.

(** C5 at the scenario of the specification: four arguments instead of
    five. *)
Lemma wrong_argument_count_witness :
  let argv := ["black_scholes"; "100"; "100"; "365"; "20"]%string in
  fst (run RefLibm.libm strtod_decimal show_nothing argv) = Exited 1%Z
  /\ exit_status RefLibm.libm strtod_decimal show_nothing argv = 1%Z
  /\ stderr_text (events RefLibm.libm strtod_decimal show_nothing argv)
     = (usage ++ endl)%string
  /\ pricing_calls (events RefLibm.libm strtod_decimal show_nothing argv) = []
  /\ stdout_text (events RefLibm.libm strtod_decimal show_nothing argv)
     = (banner ++ endl)%string.
Proof.
  apply (@wrong_argument_count_is_usage_error RefLibm.libm strtod_decimal
           show_nothing ["black_scholes"; "100"; "100"; "365"; "20"]%string).
  cbn. lia.
Defined.

(** C10.  On every invocation the first thing [main] does is insert the
    banner and a newline into standard output, before the argument count
    is looked at; a run with a wrong argument count therefore leaves the
    banner line on standard output and the usage message on standard
    error. *)
Theorem banner_is_always_printed
    (lm : Libm) (strtod : string -> double)
    (show_double : stream_format -> double -> string) (argv : list string) :
  (exists rest,
     events lm strtod show_double argv = Stdout banner :: Stdout endl :: rest)
  /\ (List.length argv <> 6%nat ->
      events lm strtod show_double argv
      = [Stdout banner; Stdout endl; Stderr usage; Stderr endl]).
Proof.
  split.
  - destruct (Nat.eq_dec (List.length argv) 6) as [E|E].
    + destruct (six_arguments argv E) as (p & a1 & a2 & a3 & a4 & a5 & ->).
      unfold events. rewrite run_five_arguments. eexists. reflexivity.
    + unfold events. rewrite run_wrong_count by assumption.
      eexists. reflexivity.
  - intros H. unfold events. rewrite run_wrong_count by assumption. reflexivity.
Qed.

(** C4.  In every run with five arguments the pricing functions are
    entered exactly twice, first [calculate_call_price], then
    [calculate_put_price], both with the parsed stock and strike prices
    and with days / 365.0, volatility / 100.0 and rate / 100.0, each
    divided exactly once; the values printed are the functions' results
    on these arguments.  The functions use their arguments as they are
    and convert nothing again: for all arguments the call price is the
    Black-Scholes formula at the very T, sigma and r received, and the
    put price is the call price at the same arguments plus K / exp(r*T)
    minus S.  When the arguments parse to 365 days, 20 % and 5 %, the
    functions receive T = 1.0, sigma = 0.2 and r = 0.05, the doubles
    nearest to 1, 1/5 and 1/20. *)
Theorem unit_conversions_happen_once
    (lm : Libm) (strtod : string -> double)
    (show_double : stream_format -> double -> string) (argv : list string) :
  List.length argv = 6%nat ->
  let s := strtod (arg argv 1) in
  let k := strtod (arg argv 2) in
  let d := strtod (arg argv 3) in
  let v := strtod (arg argv 4) in
  let r := strtod (arg argv 5) in
  pricing_calls (events lm strtod show_double argv)
  = [ Priced CallPrice s k (div d lit_365_0) (div v lit_100_0)
             (div r lit_100_0);
      Priced PutPrice s k (div d lit_365_0) (div v lit_100_0)
             (div r lit_100_0) ]
  /\ events lm strtod show_double argv
     = success_events lm show_double s k d v r
  /\ (forall S K T sigma rate : double,
        calculate_call_price lm S K T sigma rate
        = spec_CallPrice lm S K T sigma rate
        /\ calculate_put_price lm S K T sigma rate
           = sub (add (calculate_call_price lm S K T sigma rate)
                      (div K (exp lm (mul rate T)))) S)
  /\ (d = of_Z 365 -> v = of_Z 20 -> r = of_Z 5 ->
      pricing_calls (events lm strtod show_double argv)
      = [ Priced CallPrice s k lit_1 lit_0_2 lit_0_05;
          Priced PutPrice s k lit_1 lit_0_2 lit_0_05 ])
  /\ div (of_Z 365) lit_365_0 = lit_1
  /\ div (of_Z 20) lit_100_0 = lit_0_2
  /\ div (of_Z 5) lit_100_0 = lit_0_05
  /\ nearest_to_ratio 1 5 lit_0_2 /\ nearest_to_ratio 1 20 lit_0_05.
Proof.
  intros H.
  destruct (six_arguments argv H) as (p & a1 & a2 & a3 & a4 & a5 & ->).
  cbn zeta. unfold events. rewrite run_five_arguments. cbn [snd trace arg nth].
  split; [reflexivity|]. split; [reflexivity|]. split.
  { intros S K T sigma rate. split; [|reflexivity].
    rewrite call_price_locals. unfold spec_CallPrice.
    rewrite mul_opp_l. reflexivity. }
  split.
  { intros E3 E4 E5. rewrite E3, E4, E5. reflexivity. }
  split; [reflexivity|]. split; [reflexivity|]. split; [reflexivity|].
  split; cbn; lia.
Qed.

(** C4 on the command line of the specification's scenario. *)
Lemma unit_conversions_witness :
  let argv := ["black_scholes"; "100"; "100"; "365"; "20"; "5"]%string in
  pricing_calls (events RefLibm.libm strtod_decimal show_nothing argv)
  = [ Priced CallPrice (of_Z 100) (of_Z 100) lit_1 lit_0_2 lit_0_05;
      Priced PutPrice (of_Z 100) (of_Z 100) lit_1 lit_0_2 lit_0_05 ].
Proof.
  destruct (@unit_conversions_happen_once RefLibm.libm strtod_decimal
              show_nothing
              ["black_scholes"; "100"; "100"; "365"; "20"; "5"]%string eq_refl)
    as (_ & _ & _ & H & _).
  apply H; reflexivity.
Defined.


(* ================================================================== *)
(** * Special values in the pricing functions *)
(* ================================================================== *)

Section SpecialValues.

Variable lm : Libm.
Hypothesis annex_f : AnnexF lm.

Local Open Scope b64_scope.

Lemma cdf_of_nan : cdf_normal_distribution lm nan = nan.
Proof.
  unfold cdf_normal_distribution.
  change (nan * M_SQRT1_2) with nan. rewrite (erf_of_nan annex_f). reflexivity.
Qed.

Lemma cdf_of_pinf : cdf_normal_distribution lm pinf = lit_1.
Proof.
  unfold cdf_normal_distribution.
  change (pinf * M_SQRT1_2) with (S754_infinity false).
  rewrite (erf_of_inf annex_f). reflexivity.
Qed.

Lemma cdf_of_ninf : cdf_normal_distribution lm ninf = pzero.
Proof.
  unfold cdf_normal_distribution.
  change (ninf * M_SQRT1_2) with (S754_infinity true).
  rewrite (erf_of_inf annex_f). reflexivity.
Qed.

Lemma divisor_zero_or_nan (T sigma : double) :
  is_zero T = true \/ is_zero sigma = true ->
  is_zero (call_divisor T sigma) = true \/ is_nan (call_divisor T sigma) = true.
Proof.
  unfold call_divisor. intros [H|H].
  - destruct T; try discriminate. cbn [sqrt SFsqrt]. unfold sqrt; cbn [SFsqrt].
    destruct sigma; cbn; auto.
  - destruct sigma; try discriminate.
    destruct (sqrt T); cbn; auto.
Qed.

Lemma div_zero_or_nan (x d : double) :
  is_zero d = true \/ is_nan d = true -> is_inf_or_nan (x / d) = true.
Proof.
  intros [H|H]; destruct d; try discriminate; destruct x; reflexivity.
Qed.

Lemma div_nan_r (x : double) : x / nan = nan.
Proof. destruct x; reflexivity. Qed.

Lemma sub_inf_finite (s : bool) (d : double) :
  is_finite d = true -> S754_infinity s - d = S754_infinity s.
Proof. destruct d; try discriminate; reflexivity. Qed.

(** A NaN in [d1] reaches both results. *)
Lemma nan_d1_propagates (S K T sigma r : double) :
  is_nan (call_d1 lm S K T sigma r) = true ->
  calculate_call_price lm S K T sigma r = nan
  /\ calculate_put_price lm S K T sigma r = nan.
Proof.
  intros H.
  assert (C : calculate_call_price lm S K T sigma r = nan).
  { rewrite call_price_locals. unfold call_d2.
    destruct (call_d1 lm S K T sigma r); try discriminate.
    change (S754_nan - call_divisor T sigma) with nan.
    change S754_nan with nan. rewrite cdf_of_nan. reflexivity. }
  split; [exact C|]. unfold calculate_put_price. rewrite C. reflexivity.
Qed.

(** With [d1 = +infinity] both CDF values are 1. *)
Lemma call_at_pinf (S K T sigma r : double) :
  call_d1 lm S K T sigma r = pinf ->
  is_finite (call_divisor T sigma) = true ->
  valid S = true -> valid K = true ->
  calculate_call_price lm S K T sigma r = S - K * exp lm (- r * T).
Proof.
  intros H F VS VK. rewrite call_price_locals. unfold call_d2. rewrite H.
  unfold pinf. rewrite sub_inf_finite by assumption.
  change (S754_infinity false) with pinf. rewrite cdf_of_pinf.
  rewrite !mul_one_l by assumption. reflexivity.
Qed.

(** With [d1 = -infinity] both CDF values are 0. *)
Lemma call_at_ninf (S K T sigma r : double) :
  call_d1 lm S K T sigma r = ninf ->
  is_finite (call_divisor T sigma) = true ->
  is_finite S = true -> is_finite K = true ->
  is_finite (exp lm (- r * T)) = true ->
  is_zero (calculate_call_price lm S K T sigma r) = true.
Proof.
  intros H F FS FK FE. rewrite call_price_locals. unfold call_d2. rewrite H.
  unfold ninf. rewrite sub_inf_finite by assumption.
  change (S754_infinity true) with ninf. rewrite cdf_of_ninf.
  destruct S as [sS|sS| |sS mS eS]; try discriminate;
    destruct K as [sK|sK| |sK mK eK]; try discriminate;
    destruct (exp lm (- r * T)) as [sE|sE| |sE mE eE]; try discriminate;
    destruct sS, sK, sE; reflexivity.
Qed.

(** With an infinite [d1] and a finite divisor, [d2] is the same infinity
    and both CDF values are 1, or both are 0. *)
Lemma cdf_at_infinite_d1 (s : bool) (S K T sigma r : double) :
  call_d1 lm S K T sigma r = S754_infinity s ->
  is_finite (call_divisor T sigma) = true ->
  call_d2 lm S K T sigma r = S754_infinity s
  /\ cdf_normal_distribution lm (call_d1 lm S K T sigma r)
     = (if s then pzero else lit_1)
  /\ cdf_normal_distribution lm (call_d2 lm S K T sigma r)
     = (if s then pzero else lit_1).
Proof.
  intros H F. unfold call_d2. rewrite H, sub_inf_finite by assumption.
  destruct s; [change (S754_infinity true) with ninf; rewrite cdf_of_ninf
              |change (S754_infinity false) with pinf; rewrite cdf_of_pinf];
    repeat split.
Qed.

(** With [d1 = -infinity] and a discount factor that is not finite, the
    second product is 0 * infinity. *)
Lemma call_at_ninf_not_finite (S K T sigma r : double) :
  call_d1 lm S K T sigma r = ninf ->
  is_finite (call_divisor T sigma) = true ->
  is_finite K = true ->
  is_finite (exp lm (- r * T)) = false ->
  calculate_call_price lm S K T sigma r = nan
  /\ calculate_put_price lm S K T sigma r = nan.
Proof.
  intros H F FK FE.
  assert (C : calculate_call_price lm S K T sigma r = nan).
  { rewrite call_price_locals. unfold call_d2. rewrite H.
    unfold ninf. rewrite sub_inf_finite by assumption.
    change (S754_infinity true) with ninf. rewrite cdf_of_ninf.
    destruct K as [sK|sK| |sK mK eK]; try discriminate;
      destruct (exp lm (- r * T)) as [sE|sE| |sE mE eE]; try discriminate;
      destruct (pzero * S); reflexivity. }
  split; [exact C|]. unfold calculate_put_price. rewrite C. reflexivity.
Qed.

End SpecialValues.

(** C6, as stated, fails: with T = 0 (S = 100, K = 90, sigma = 0.2,
    r = 0.05) the divisor of [d1] is zero and [d1] is +infinity, yet the
    call price returned is the finite value 10 = S - K and the put price
    is the finite value 0; no infinity or NaN reaches the results. *)
Lemma zero_time_gives_finite_prices :
  is_zero pzero = true
  /\ call_d1 RefLibm.libm (of_Z 100) (of_Z 90) pzero lit_0_2 lit_0_05 = pinf
  /\ calculate_call_price RefLibm.libm (of_Z 100) (of_Z 90) pzero lit_0_2 lit_0_05
     = of_Z 10
  /\ calculate_put_price RefLibm.libm (of_Z 100) (of_Z 90) pzero lit_0_2 lit_0_05
     = pzero
  /\ is_inf_or_nan
       (calculate_call_price RefLibm.libm (of_Z 100) (of_Z 90) pzero lit_0_2 lit_0_05)
     = false.
Proof. vm_compute. repeat split. Qed.

(** C6, amended.  For inputs with T = 0 or sigma = 0 nothing is
    validated, clamped or rejected: the division by sigma*sqrt(T) is
    carried out with a zero (or NaN) divisor, [d1] is an infinity or a
    NaN, and a value is returned.  A NaN [d1] reaches both returned
    prices.  An infinite [d1] does not: for [d1 = +infinity] both CDF
    values are 1 and the call price is S - K*exp(-r*T); for
    [d1 = -infinity] both are 0, and the call price is a zero when S, K
    and exp(-r*T) are finite, and both prices are NaN when K is finite
    and exp(-r*T) is not (it overflows for a large negative r*T, and the
    second product is 0 * infinity). *)
Theorem zero_time_or_volatility_is_not_rejected
    (lm : Libm) (S K T sigma r : double) :
  AnnexF lm -> valid S = true -> valid K = true ->
  is_zero T = true \/ is_zero sigma = true ->
  is_inf_or_nan (call_d1 lm S K T sigma r) = true
  /\ (is_nan (call_d1 lm S K T sigma r) = true ->
      calculate_call_price lm S K T sigma r = nan
      /\ calculate_put_price lm S K T sigma r = nan)
  /\ (call_d1 lm S K T sigma r = pinf ->
      calculate_call_price lm S K T sigma r
      = sub S (mul K (exp lm (mul (opp r) T))))
  /\ (call_d1 lm S K T sigma r = ninf ->
      is_finite S = true -> is_finite K = true ->
      is_finite (exp lm (mul (opp r) T)) = true ->
      is_zero (calculate_call_price lm S K T sigma r) = true)
  /\ (call_d1 lm S K T sigma r = ninf ->
      is_finite K = true ->
      is_finite (exp lm (mul (opp r) T)) = false ->
      calculate_call_price lm S K T sigma r = nan
      /\ calculate_put_price lm S K T sigma r = nan)
  /\ (call_d1 lm S K T sigma r = pinf ->
      call_d2 lm S K T sigma r = pinf
      /\ cdf_normal_distribution lm (call_d1 lm S K T sigma r) = lit_1
      /\ cdf_normal_distribution lm (call_d2 lm S K T sigma r) = lit_1)
  /\ (call_d1 lm S K T sigma r = ninf ->
      call_d2 lm S K T sigma r = ninf
      /\ cdf_normal_distribution lm (call_d1 lm S K T sigma r) = pzero
      /\ cdf_normal_distribution lm (call_d2 lm S K T sigma r) = pzero).
Proof.
  intros AF VS VK Z.
  pose proof (divisor_zero_or_nan T sigma Z) as D.
  assert (Fin : is_nan (call_d1 lm S K T sigma r) = false ->
                is_finite (call_divisor T sigma) = true).
  { intros N. destruct D as [D|D].
    - destruct (call_divisor T sigma); try discriminate; reflexivity.
    - unfold call_d1 in N. destruct (call_divisor T sigma); try discriminate.
      change S754_nan with nan in N. rewrite div_nan_r in N. discriminate. }
  split; [apply div_zero_or_nan; exact D|].
  split; [apply nan_d1_propagates; exact AF|].
  split; [|split; [|split; [|split]]].
  - intros H. apply call_at_pinf; try assumption.
    apply Fin. rewrite H. reflexivity.
  - intros H FS FK FE. apply call_at_ninf; try assumption.
    apply Fin. rewrite H. reflexivity.
  - intros H FK FE. apply call_at_ninf_not_finite; try assumption.
    apply Fin. rewrite H. reflexivity.
  - intros H. apply (@cdf_at_infinite_d1 lm AF false S K T sigma r H).
    apply Fin. rewrite H. reflexivity.
  - intros H. apply (@cdf_at_infinite_d1 lm AF true S K T sigma r H).
    apply Fin. rewrite H. reflexivity.
Qed.

(** With sigma = 0, S = 90, K = 100, one year and r = -1000 the
    dividend of [d1] is negative, [d1] is -infinity, exp(-r*T) overflows
    and the call price is NaN. *)
Example overflowing_discount :
  call_d1 RefLibm.libm (of_Z 90) (of_Z 100) lit_1 pzero (of_Z (-1000)) = ninf
  /\ exp RefLibm.libm (mul (opp (of_Z (-1000))) lit_1) = pinf
  /\ calculate_call_price RefLibm.libm (of_Z 90) (of_Z 100) lit_1 pzero
                          (of_Z (-1000)) = nan.
Proof. vm_compute. repeat split. Qed.

(** C6 at expiry of an in-the-money call. *)
Lemma zero_time_witness :
  is_inf_or_nan (call_d1 RefLibm.libm (of_Z 100) (of_Z 90) pzero lit_0_2 lit_0_05)
  = true
  /\ calculate_call_price RefLibm.libm (of_Z 100) (of_Z 90) pzero lit_0_2 lit_0_05
     = sub (of_Z 100) (mul (of_Z 90) (exp RefLibm.libm (mul (opp lit_0_05) pzero))).
Proof.
  pose proof (@zero_time_or_volatility_is_not_rejected RefLibm.libm
                (of_Z 100) (of_Z 90) pzero lit_0_2 lit_0_05
                AnnexF_RefLibm eq_refl eq_refl (or_introl eq_refl))
    as (H1 & _ & H3 & _).
  split; [exact H1|]. apply H3. vm_compute. reflexivity.
Defined.

(* ================================================================== *)
(** * Non-positive prices *)
(* ================================================================== *)

Section SignOfQuotient.

Local Open Scope Z_scope.

Lemma shr_1_keeps_sign (rec : shr_record) :
  0 <= shr_m rec -> 0 <= shr_m (shr_1 rec).
Proof.
  destruct rec as [q r s]. cbn [shr_m]. intros H.
  rewrite shr_1_nonneg by assumption. cbn [shr_m]. apply Z.div_pos; lia.
Qed.

Lemma shr_fexp_keeps_sign (m e : Z) (l : location) :
  0 <= m -> 0 <= shr_m (fst (shr_fexp prec emax m e l)).
Proof.
  intros H. unfold shr_fexp, shr.
  assert (I : 0 <= shr_m (shr_record_of_loc m l))
    by (destruct l as [|[| |]]; exact H).
  destruct (fexp prec emax (Zdigits2 m + e) - e) as [|p|p]; cbn [fst];
    try exact I.
  generalize (@iter_pos_inv shr_record (fun _ rec => 0 <= shr_m rec) shr_1
                (fun k x _ Hx => @shr_1_keeps_sign x Hx) p 0
                (shr_record_of_loc m l) (Z.le_refl 0) I).
  auto.
Qed.

Lemma round_nearest_even_keeps_sign (m : Z) (l : location) :
  0 <= m -> 0 <= round_nearest_even m l.
Proof.
  intros H. destruct l as [|[| |]]; cbn [round_nearest_even]; try lia.
  destruct (Z.even m); lia.
Qed.

(** Rounding a non-negative significand gives a zero, a finite double or
    an infinity of the requested sign, never a NaN. *)
Lemma binary_round_aux_sign (s : bool) (m e : Z) (l : location) :
  0 <= m ->
  match binary_round_aux prec emax s m e l with
  | S754_zero s' | S754_infinity s' | S754_finite s' _ _ => s' = s
  | S754_nan => False
  end.
Proof.
  intros H. unfold binary_round_aux.
  pose proof (@shr_fexp_keeps_sign m e l H) as H1.
  destruct (shr_fexp prec emax m e l) as [r1 e1]. cbn [fst] in H1.
  pose proof (@shr_fexp_keeps_sign _ e1 loc_Exact
                (@round_nearest_even_keeps_sign _ (loc_of_shr_record r1) H1)) as H2.
  destruct (shr_fexp prec emax _ e1 loc_Exact) as [r2 e2]. cbn [fst] in H2.
  destruct (shr_m r2); try lia; try reflexivity.
  destruct (e2 <=? emax - prec); reflexivity.
Qed.

(** A negative finite double divided by a positive finite one is
    negative, or a negative zero when the quotient underflows. *)
Lemma div_negative_by_positive (x y : double) :
  is_neg_finite x = true -> is_pos_finite y = true ->
  is_negative (div x y) = true \/ div x y = nzero.
Proof.
  intros Hx Hy.
  destruct x as [| | |[|] mx ex]; try discriminate.
  destruct y as [| | |[|] my ey]; try discriminate.
  unfold div; cbn [SFdiv xorb].
  destruct (SFdiv_core_binary prec emax (Zpos mx) ex (Zpos my) ey)
    as [[mz ez] lz] eqn:E.
  assert (Hm : 0 <= mz).
  { unfold SFdiv_core_binary in E.
    set (m' := match _ with Zpos _ => _ | Z0 => _ | Zneg _ => _ end) in E.
    assert (0 <= m').
    { subst m'. destruct (_ - _ - _); try lia. apply Z.shiftl_nonneg. lia. }
    destruct (Z.div_eucl m' (Zpos my)) as [q rem] eqn:Ediv.
    assert (Hq : q = m' / Zpos my) by (unfold Z.div; rewrite Ediv; reflexivity).
    injection E as <- _ _. rewrite Hq. apply Z.div_pos; lia. }
  pose proof (@binary_round_aux_sign true mz ez lz Hm) as S.
  destruct (binary_round_aux prec emax true mz ez lz); try contradiction;
    subst; auto.
Qed.

(** Changing the sign of both operands leaves the quotient alone. *)
Lemma div_opp_opp (x y : double) : div (opp x) (opp y) = div x y.
Proof.
  destruct x as [sx|sx| |sx mx ex], y as [sy|sy| |sy my ey]; try reflexivity;
    destruct sx, sy; reflexivity.
Qed.

End SignOfQuotient.

(** C9, as stated, fails: with S = 0 (K = 100, T = 1, sigma = 0.2,
    r = 0.05, so T > 0 and sigma > 0) the quotient S/K is zero, log
    returns -infinity, and the call price returned is the finite value 0
    and the put price is finite; with S = K = -100 the quotient is 1 and
    both prices are finite as well. *)
Lemma free_stock_gives_finite_prices :
  leb pzero pzero = true /\ ltb pzero lit_1 = true /\ ltb pzero lit_0_2 = true
  /\ calculate_call_price RefLibm.libm pzero (of_Z 100) lit_1 lit_0_2 lit_0_05
     = pzero
  /\ is_inf_or_nan
       (calculate_put_price RefLibm.libm pzero (of_Z 100) lit_1 lit_0_2 lit_0_05)
     = false
  /\ is_inf_or_nan
       (calculate_call_price RefLibm.libm (of_Z (-100)) (of_Z (-100)) lit_1
                             lit_0_2 lit_0_05)
     = false.
Proof. vm_compute. repeat split. Qed.

(** C9, amended.  Neither function validates the sign of the spot or
    strike price: the quotient S/K goes to log unchecked and a value is
    always returned.  When the quotient is negative (finite, or minus
    infinity) log returns NaN and both prices returned are NaN; for a
    negative finite S and a positive finite K, or the other way round,
    the quotient is negative unless it underflows to -0.  When S is zero,
    K is positive and finite, the divisor sigma*sqrt(T) is positive and
    finite, and the term (r + sigma^2/2)*T and exp(-r*T) are finite, log
    returns -infinity, [d1] is -infinity and the call price returned is a
    zero.  When S and K are both negative the quotient S/K is the same
    double as (-S)/(-K), so [d1] and [d2] are those of the positive
    prices -S and -K. *)
Theorem nonpositive_prices_are_not_rejected
    (lm : Libm) (S K T sigma r : double) :
  AnnexF lm ->
  (is_negative (div S K) = true ->
   calculate_call_price lm S K T sigma r = nan
   /\ calculate_put_price lm S K T sigma r = nan)
  /\ (is_neg_finite S = true -> is_pos_finite K = true ->
      div S K = nzero
      \/ (calculate_call_price lm S K T sigma r = nan
          /\ calculate_put_price lm S K T sigma r = nan))
  /\ (is_zero S = true -> is_pos_finite K = true ->
      is_pos_finite (call_divisor T sigma) = true ->
      is_finite (mul (add r (div (pow lm sigma lit_2_0) lit_2_0)) T) = true ->
      is_finite (exp lm (mul (opp r) T)) = true ->
      call_d1 lm S K T sigma r = ninf
      /\ is_zero (calculate_call_price lm S K T sigma r) = true)
  /\ (is_pos_finite S = true -> is_neg_finite K = true ->
      div S K = nzero
      \/ (calculate_call_price lm S K T sigma r = nan
          /\ calculate_put_price lm S K T sigma r = nan))
  /\ (div S K = div (opp S) (opp K)
      /\ call_d1 lm S K T sigma r = call_d1 lm (opp S) (opp K) T sigma r
      /\ call_d2 lm S K T sigma r = call_d2 lm (opp S) (opp K) T sigma r)
  /\ (is_negative (div S K) = true -> log lm (div S K) = nan)
  /\ (is_zero S = true -> is_pos_finite K = true ->
      is_zero (div S K) = true /\ log lm (div S K) = ninf).
Proof.
  intros AF.
  assert (LogNeg : is_negative (div S K) = true -> log lm (div S K) = nan).
  { intros H. destruct (div S K) as [|[|]| |[|] m e]; try discriminate.
    - apply (log_of_ninf AF).
    - apply (log_of_negative AF). }
  assert (LogZero : is_zero S = true -> is_pos_finite K = true ->
                    is_zero (div S K) = true /\ log lm (div S K) = ninf).
  { intros HS HK.
    assert (Q : is_zero (div S K) = true).
    { destruct S; try discriminate. destruct K as [| | |[|] mK eK];
        try discriminate. reflexivity. }
    split; [exact Q|].
    destruct (div S K); try discriminate. apply (log_of_zero AF). }
  assert (Neg : is_negative (div S K) = true ->
                calculate_call_price lm S K T sigma r = nan
                /\ calculate_put_price lm S K T sigma r = nan).
  { intros H. apply nan_d1_propagates; [exact AF|].
    unfold call_d1, call_dividend.
    rewrite (LogNeg H). reflexivity. }
  split; [exact Neg|]. split; [|split; [|split; [|split; [|split]]]];
    [| | | |exact LogNeg|exact LogZero].
  - intros HS HK.
    destruct (div_negative_by_positive S K HS HK) as [H|H]; [right|left]; auto.
  - intros HS HK HD HX HE.
    assert (D1 : call_d1 lm S K T sigma r = ninf).
    { unfold call_d1, call_dividend.
      assert (Q : is_zero (div S K) = true).
      { destruct S; try discriminate. destruct K as [| | |[|] mK eK];
          try discriminate. reflexivity. }
      assert (L : log lm (div S K) = ninf).
      { destruct (div S K); try discriminate. apply (log_of_zero AF). }
      rewrite L.
      destruct (mul (add r (div (pow lm sigma lit_2_0) lit_2_0)) T);
        try discriminate;
        destruct (call_divisor T sigma) as [| | |[|] mD eD]; try discriminate;
        reflexivity. }
    split; [exact D1|].
    apply call_at_ninf; try assumption.
    + destruct (call_divisor T sigma) as [| | |[|] mD eD]; try discriminate.
      reflexivity.
    + destruct S; try discriminate; reflexivity.
    + destruct K as [| | |[|] mK eK]; try discriminate; reflexivity.
  - intros HS HK.
    assert (HS' : is_neg_finite (opp S) = true)
      by (destruct S as [| | |[|] mS eS]; try discriminate; reflexivity).
    assert (HK' : is_pos_finite (opp K) = true)
      by (destruct K as [| | |[|] mK eK]; try discriminate; reflexivity).
    destruct (div_negative_by_positive (opp S) (opp K) HS' HK') as [H|H];
      rewrite div_opp_opp in H; [right|left]; auto.
  - unfold call_d2, call_d1, call_dividend. rewrite (div_opp_opp S K).
    repeat split.
Qed.

(** C9 for a stock price of zero and for a negative stock price. *)
Lemma nonpositive_prices_witness :
  (call_d1 RefLibm.libm pzero (of_Z 100) lit_1 lit_0_2 lit_0_05 = ninf
   /\ is_zero (calculate_call_price RefLibm.libm pzero (of_Z 100) lit_1
                                    lit_0_2 lit_0_05) = true)
  /\ calculate_call_price RefLibm.libm (of_Z (-100)) (of_Z 100) lit_1
                          lit_0_2 lit_0_05 = nan.
Proof.
  split.
  - destruct (@nonpositive_prices_are_not_rejected RefLibm.libm pzero
                (of_Z 100) lit_1 lit_0_2 lit_0_05 AnnexF_RefLibm)
      as (_ & _ & H & _).
    apply H; reflexivity.
  - destruct (@nonpositive_prices_are_not_rejected RefLibm.libm (of_Z (-100))
                (of_Z 100) lit_1 lit_0_2 lit_0_05 AnnexF_RefLibm)
      as (H & _).
    apply H. reflexivity.
Defined.

(* ================================================================== *)
(** * Symmetry, monotonicity and range of the computed CDF *)
(* ================================================================== *)

(** C7.  For every x at which [erf] is odd and returns a double between
    -1 and 1 (every finite x, for any reasonable [erf]), the two doubles
    cdf(x) and cdf(-x) add up to exactly 1.0 in double arithmetic; and
    when erf(+0) = +0, cdf(0) is exactly 0.5. *)
Theorem cdf_symmetry (lm : Libm) (x : double) :
  erf_odd_at lm (mul x M_SQRT1_2) ->
  erf_in_range_at lm (mul x M_SQRT1_2) ->
  add (cdf_normal_distribution lm x) (cdf_normal_distribution lm (opp x)) = lit_1
  /\ (erf lm pzero = pzero -> cdf_normal_distribution lm pzero = lit_0_5).
Proof.
  intros Odd (V & L & H). split.
  - unfold cdf_normal_distribution.
    rewrite mul_opp_l, Odd. apply wrapper_symmetry; assumption.
  - intros Z. unfold cdf_normal_distribution.
    change (mul pzero M_SQRT1_2) with pzero. rewrite Z. reflexivity.
Qed.

(** C7 at x = 1 with the reference library. *)
Lemma cdf_symmetry_witness :
  add (cdf_normal_distribution RefLibm.libm lit_1)
      (cdf_normal_distribution RefLibm.libm (opp lit_1)) = lit_1
  /\ cdf_normal_distribution RefLibm.libm pzero = lit_0_5.
Proof.
  destruct (@cdf_symmetry RefLibm.libm lit_1) as (H1 & H2).
  - vm_compute. reflexivity.
  - vm_compute. repeat split.
  - split; [exact H1|]. apply H2. reflexivity.
Defined.

Section ClippedErf.

Local Open Scope Z_scope.

Lemma erf_clip_eq (x : double) :
  is_nan x = false ->
  erf_clip x = if ltb x (opp lit_1) then opp lit_1
               else if ltb lit_1 x then lit_1 else x.
Proof. destruct x; try discriminate; reflexivity. Qed.

Lemma erf_clip_spec (x : double) :
  valid x = true -> is_nan x = false ->
  valid (erf_clip x) = true /\ is_nan (erf_clip x) = false
  /\ ord (erf_clip x) = Z.max (- 2 ^ 1074) (Z.min (2 ^ 1074) (ord x)).
Proof.
  intros V N. rewrite erf_clip_eq by assumption.
  unfold ltb. rewrite !SFltb_ord by (reflexivity || assumption).
  change (ord (opp lit_1)) with (- 2 ^ 1074). rewrite ord_lit_1.
  assert (P : 0 < 2 ^ 1074) by reflexivity.
  destruct (Z.ltb_spec (ord x) (- 2 ^ 1074)).
  - repeat split. change (ord (opp lit_1)) with (- 2 ^ 1074). lia.
  - destruct (Z.ltb_spec (2 ^ 1074) (ord x)).
    + repeat split. rewrite ord_lit_1. lia.
    + repeat split; try assumption. lia.
Qed.

Lemma erf_clip_monotone : erf_monotone libm_clip.
Proof.
  intros a b Va Vb Na Nb L. cbn [erf libm_clip].
  destruct (erf_clip_spec a Va Na) as (V1 & N1 & O1).
  destruct (erf_clip_spec b Vb Nb) as (V2 & N2 & O2).
  rewrite leb_ord in * by assumption. apply Z.leb_le in L. apply Z.leb_le.
  rewrite O1, O2. lia.
Qed.

Lemma erf_clip_in_range : erf_in_range libm_clip.
Proof.
  intros t V N. unfold erf_in_range_at. cbn [erf libm_clip].
  destruct (erf_clip_spec t V N) as (V1 & N1 & O1).
  split; [exact V1|].
  rewrite !leb_ord by (reflexivity || assumption).
  change (ord (opp lit_1)) with (- 2 ^ 1074). rewrite ord_lit_1, O1.
  assert (P : 0 < 2 ^ 1074) by reflexivity.
  split; apply Z.leb_le; lia.
Qed.

End ClippedErf.

(** C8, as stated, fails where the library's [erf] is not monotone in
    its last bit.  With the values glibc 2.36 returns at
    0x1.3fffffffd5c10p+0 and 0x1.3fffffffd5c11p+0 (each within one unit
    in the last place of the correctly rounded value, and between -1 and
    1), x = 0x1.c48c6001b4ed4p+0 and its successor y satisfy x < y, yet
    cdf(x) = 0x1.ec432ecc4bf21p-1 is above cdf(y) = 0x1.ec432ecc4bf20p-1. *)
Lemma cdf_not_monotone_on_glibc_erf :
  ltb (S754_finite false 0x1C48C6001B4ED4 (-52))
      (S754_finite false 0x1C48C6001B4ED5 (-52)) = true
  /\ mul (S754_finite false 0x1C48C6001B4ED4 (-52)) M_SQRT1_2
     = S754_finite false 0x13FFFFFFFD5C10 (-52)
  /\ mul (S754_finite false 0x1C48C6001B4ED5 (-52)) M_SQRT1_2
     = S754_finite false 0x13FFFFFFFD5C11 (-52)
  /\ erf libm_glibc_sample (S754_finite false 0x13FFFFFFFD5C10 (-52))
     = S754_finite false (0x1D8865D9897E41 + 1) (-53)
  /\ RefLibm.erf (S754_finite false 0x13FFFFFFFD5C10 (-52))
     = S754_finite false 0x1D8865D9897E41 (-53)
  /\ erf libm_glibc_sample (S754_finite false 0x13FFFFFFFD5C11 (-52))
     = S754_finite false (0x1D8865D9897E42 - 1) (-53)
  /\ RefLibm.erf (S754_finite false 0x13FFFFFFFD5C11 (-52))
     = S754_finite false 0x1D8865D9897E42 (-53)
  /\ erf_in_range_at libm_glibc_sample
       (S754_finite false 0x13FFFFFFFD5C10 (-52))
  /\ erf_in_range_at libm_glibc_sample
       (S754_finite false 0x13FFFFFFFD5C11 (-52))
  /\ cdf_normal_distribution libm_glibc_sample
       (S754_finite false 0x1C48C6001B4ED4 (-52))
     = S754_finite false 0x1EC432ECC4BF21 (-53)
  /\ cdf_normal_distribution libm_glibc_sample
       (S754_finite false 0x1C48C6001B4ED5 (-52))
     = S754_finite false 0x1EC432ECC4BF20 (-53)
  /\ leb (cdf_normal_distribution libm_glibc_sample
            (S754_finite false 0x1C48C6001B4ED4 (-52)))
         (cdf_normal_distribution libm_glibc_sample
            (S754_finite false 0x1C48C6001B4ED5 (-52))) = false.
Proof. vm_compute. repeat split. Qed.

(** C8, amended.  When [erf] stays between -1 and 1, the value of the
    computed CDF lies between 0 and 1 for every double other than NaN
    (infinite ones included).  Its order is the order of [erf]: for
    x <= y the arguments handed to [erf] satisfy
    x * M_SQRT1_2 <= y * M_SQRT1_2, and cdf(x) <= cdf(y) whenever
    erf(x * M_SQRT1_2) <= erf(y * M_SQRT1_2); the multiplication, the
    addition of 1 and the halving keep the order.  So the computed CDF is
    non-decreasing where the library's [erf] is; where [erf] decreases
    between the two arguments, the CDF does not increase. *)
Theorem cdf_monotone_and_bounded (lm : Libm) (x y : double) :
  erf_in_range lm ->
  valid x = true -> valid y = true -> leb x y = true ->
  leb pzero (cdf_normal_distribution lm x) = true
  /\ leb (cdf_normal_distribution lm x) lit_1 = true
  /\ leb pzero (cdf_normal_distribution lm y) = true
  /\ leb (cdf_normal_distribution lm y) lit_1 = true
  /\ leb (mul x M_SQRT1_2) (mul y M_SQRT1_2) = true
  /\ (leb (erf lm (mul x M_SQRT1_2)) (erf lm (mul y M_SQRT1_2)) = true ->
      leb (cdf_normal_distribution lm x) (cdf_normal_distribution lm y) = true)
  /\ (erf_monotone lm ->
      leb (cdf_normal_distribution lm x) (cdf_normal_distribution lm y) = true)
  /\ (ltb (erf lm (mul y M_SQRT1_2)) (erf lm (mul x M_SQRT1_2)) = true ->
      leb (cdf_normal_distribution lm y) (cdf_normal_distribution lm x) = true).
Proof.
  intros Range Vx Vy L.
  destruct (scale_monotone x y Vx Vy L) as (Vtx & Vty & Lt).
  destruct (leb_not_nan _ _ Lt) as (Ntx & Nty).
  destruct (Range _ Vtx Ntx) as (Vex & Lex & Hex).
  destruct (Range _ Vty Nty) as (Vey & Ley & Hey).
  unfold cdf_normal_distribution.
  destruct (wrapper_monotone _ _ Vex Vex Lex Hex) as (_ & M1 & M2).
  { destruct (leb_not_nan _ _ Lex) as (_ & Nex).
    rewrite leb_ord by assumption. apply Z.leb_le. lia. }
  destruct (wrapper_monotone _ _ Vey Vey Ley Hey) as (_ & M3 & M4).
  { destruct (leb_not_nan _ _ Ley) as (_ & Ney).
    rewrite leb_ord by assumption. apply Z.leb_le. lia. }
  assert (Ord : leb (erf lm (mul x M_SQRT1_2)) (erf lm (mul y M_SQRT1_2)) = true ->
                leb (mul lit_0_5 (add lit_1 (erf lm (mul x M_SQRT1_2))))
                    (mul lit_0_5 (add lit_1 (erf lm (mul y M_SQRT1_2)))) = true).
  { intros Le. apply (wrapper_monotone _ _ Vex Vey Lex Hey Le). }
  repeat split; try assumption.
  - intros Mono. apply Ord. apply Mono; assumption.
  - intros Gt. apply (wrapper_monotone _ _ Vey Vex Ley Hex).
    destruct (leb_not_nan _ _ Lex) as (_ & Nex).
    destruct (leb_not_nan _ _ Ley) as (_ & Ney).
    unfold ltb in Gt. rewrite SFltb_ord in Gt by assumption.
    rewrite leb_ord by assumption.
    apply Z.ltb_lt in Gt. apply Z.leb_le. lia.
Qed.

(** C8 for the clipped stand-in of [erf], at x = 0.5 and y = 1. *)
Lemma cdf_monotone_witness :
  leb (cdf_normal_distribution libm_clip lit_0_5)
      (cdf_normal_distribution libm_clip lit_1) = true
  /\ leb pzero (cdf_normal_distribution libm_clip lit_0_5) = true
  /\ leb (cdf_normal_distribution libm_clip lit_0_5) lit_1 = true
  /\ leb pzero (cdf_normal_distribution libm_clip lit_1) = true
  /\ leb (cdf_normal_distribution libm_clip lit_1) lit_1 = true.
Proof.
  destruct (@cdf_monotone_and_bounded libm_clip lit_0_5 lit_1
              erf_clip_in_range eq_refl eq_refl eq_refl)
    as (B1 & B2 & B3 & B4 & _ & _ & M & _).
  split; [apply M; exact erf_clip_monotone|].
  split; [exact B1|]. split; [exact B2|]. split; [exact B3|exact B4].
Defined.

(* ================================================================== *)
(** * Sample runs on the reference library *)
(* ================================================================== *)

(** The computed CDF at -3, -1, -0, 0.5, 1 and 3 is in increasing order,
    starts above 0 and ends below 1. *)
Example cdf_samples_in_order :
  let cdf := cdf_normal_distribution RefLibm.libm in
  ltb pzero (cdf (of_Z (-3))) = true
  /\ ltb (cdf (of_Z (-3))) (cdf (of_Z (-1))) = true
  /\ ltb (cdf (of_Z (-1))) (cdf nzero) = true
  /\ cdf nzero = lit_0_5
  /\ ltb (cdf nzero) (cdf lit_0_5) = true
  /\ ltb (cdf lit_0_5) (cdf lit_1) = true
  /\ ltb (cdf lit_1) (cdf (of_Z 3)) = true
  /\ ltb (cdf (of_Z 3)) lit_1 = true
  /\ cdf pinf = lit_1 /\ cdf ninf = pzero /\ cdf nan = nan.
Proof. vm_compute. repeat split. Qed.

(** Degenerate inputs: at the money with T = 0 the dividend and the
    divisor of [d1] are both zero and the call price is NaN; with
    sigma = 0 and one year to run the call price is S - K*exp(-r), about
    14.39; with K = 0 the call price is S. *)
Example degenerate_inputs :
  calculate_call_price RefLibm.libm (of_Z 100) (of_Z 100) pzero lit_0_2 lit_0_05
  = nan
  /\ (let c := calculate_call_price RefLibm.libm (of_Z 100) (of_Z 90) lit_1
                                     pzero lit_0_05 in
      ltb (div (of_Z 1438) lit_100_0) c = true
      /\ ltb c (div (of_Z 1439) lit_100_0) = true)
  /\ calculate_call_price RefLibm.libm (of_Z 100) pzero lit_1 lit_0_2 lit_0_05
     = of_Z 100.
Proof. vm_compute. repeat split. Qed.

(* ================================================================== *)
(** * Further properties of [main] *)
(* ================================================================== *)

(** X1.  The exit status of a run is 0 when [main] is given exactly five
    arguments ([argc == 6]) and 1 otherwise, whatever the arguments
    contain; standard error stays empty exactly in the first case, and a
    pricing function is entered exactly in the first case. *)
Theorem exit_status_reflects_argument_count
    (lm : Libm) (strtod : string -> double)
    (show_double : stream_format -> double -> string) (argv : list string) :
  exit_status lm strtod show_double argv
  = (if (List.length argv =? 6)%nat then 0 else 1)%Z
  /\ (stderr_text (events lm strtod show_double argv) = EmptyString
      <-> List.length argv = 6%nat)
  /\ (pricing_calls (events lm strtod show_double argv) = []
      <-> List.length argv <> 6%nat).
Proof.
  unfold exit_status, events.
  destruct (Nat.eqb_spec (List.length argv) 6) as [E|E].
  - destruct (six_arguments argv E) as (p & a1 & a2 & a3 & a4 & a5 & ->).
    rewrite run_five_arguments. cbn [fst snd trace].
    split; [reflexivity|]. split; split; intros H; try reflexivity.
    + discriminate H.
    + exfalso. apply H. reflexivity.
  - rewrite run_wrong_count by assumption. cbn [fst snd trace].
    split; [reflexivity|]. split; split; intros H; try assumption;
      try reflexivity.
    + discriminate H.
    + contradiction.
Qed.

(** X2.  A run with five arguments returns 0 from [main] without calling
    [exit], leaves [cout] in fixed notation with precision 2, and its
    events are, in this order: the banner, the five inputs echoed as
    parsed (before the unit conversions, in the default format), and the
    two prices, each computed after its label is written.  Standard
    output then holds the text [success_stdout], in which the prices are
    formatted in fixed notation with two digits. *)
Theorem five_arguments_output
    (lm : Libm) (strtod : string -> double)
    (show_double : stream_format -> double -> string) (argv : list string) :
  List.length argv = 6%nat ->
  let s := strtod (arg argv 1) in
  let k := strtod (arg argv 2) in
  let d := strtod (arg argv 3) in
  let v := strtod (arg argv 4) in
  let r := strtod (arg argv 5) in
  run lm strtod show_double argv
  = (Returned 0%Z,
     {| trace := success_events lm show_double s k d v r;
        cout_format := fixed_2 |})
  /\ stdout_text (events lm strtod show_double argv)
     = success_stdout lm show_double s k d v r.
Proof.
  intros H. destruct (six_arguments argv H) as (p & a1 & a2 & a3 & a4 & a5 & ->).
  cbn zeta. unfold events. rewrite run_five_arguments.
  split; reflexivity.
Qed.

(** X2 on a command line whose arguments are not all numbers. *)
Lemma five_arguments_output_witness :
  let argv := ["black_scholes"; "100"; "abc"; "365"; ""; "5"]%string in
  run RefLibm.libm strtod_decimal show_nothing argv
  = (Returned 0%Z,
     {| trace := success_events RefLibm.libm show_nothing (of_Z 100) pzero
                                (of_Z 365) pzero (of_Z 5);
        cout_format := fixed_2 |})
  /\ stdout_text (events RefLibm.libm strtod_decimal show_nothing argv)
     = success_stdout RefLibm.libm show_nothing (of_Z 100) pzero (of_Z 365)
                      pzero (of_Z 5).
Proof.
  exact (@five_arguments_output RefLibm.libm strtod_decimal show_nothing
           ["black_scholes"; "100"; "abc"; "365"; ""; "5"]%string eq_refl).
Defined.

(* ================================================================== *)
(** * Further special values in the pricing functions *)
(* ================================================================== *)

Section MoreSpecialValues.

Variable lm : Libm.
Hypothesis annex_f : AnnexF lm.

Local Open Scope b64_scope.

Lemma add_nan_l (x : double) : nan + x = nan.
Proof. destruct x; reflexivity. Qed.

Lemma add_nan_r (x : double) : x + nan = nan.
Proof. destruct x; reflexivity. Qed.

Lemma mul_nan_l (x : double) : nan * x = nan.
Proof. destruct x; reflexivity. Qed.

Lemma mul_nan_r (x : double) : x * nan = nan.
Proof. destruct x; reflexivity. Qed.

Lemma div_nan_l (x : double) : nan / x = nan.
Proof. destruct x; reflexivity. Qed.

Lemma sqrt_of_negative (x : double) : is_negative x = true -> sqrt x = nan.
Proof. destruct x as [s|[|]| |[|] m e]; try discriminate; reflexivity. Qed.

(** A NaN among the five inputs makes [d1] a NaN. *)
Lemma nan_input_d1 (S K T sigma r : double) :
  is_nan S || is_nan K || is_nan T || is_nan sigma || is_nan r = true ->
  is_nan (call_d1 lm S K T sigma r) = true.
Proof.
  intros H. unfold call_d1, call_dividend, call_divisor.
  rewrite !orb_true_iff in H.
  destruct H as [[[[H|H]|H]|H]|H].
  - destruct S; try discriminate. change S754_nan with nan.
    rewrite div_nan_l, (log_of_nan annex_f), add_nan_l, div_nan_l. reflexivity.
  - destruct K; try discriminate. change S754_nan with nan.
    rewrite div_nan_r, (log_of_nan annex_f), add_nan_l, div_nan_l. reflexivity.
  - destruct T; try discriminate. change S754_nan with nan.
    change (sqrt nan) with nan. rewrite !mul_nan_r, div_nan_r. reflexivity.
  - destruct sigma; try discriminate. change S754_nan with nan.
    rewrite (mul_nan_l (sqrt T)), div_nan_r. reflexivity.
  - destruct r; try discriminate. change S754_nan with nan.
    rewrite add_nan_l, mul_nan_l, add_nan_r, div_nan_l. reflexivity.
Qed.

(** The square root of a negative time is a NaN, and so is [d1]. *)
Lemma negative_time_d1 (S K T sigma r : double) :
  is_negative T = true -> is_nan (call_d1 lm S K T sigma r) = true.
Proof.
  intros H. unfold call_d1, call_divisor.
  rewrite (sqrt_of_negative _ H), mul_nan_r, div_nan_r. reflexivity.
Qed.

Lemma sub_zero_r (x : double) (s : bool) :
  is_pos_finite x = true -> x - S754_zero s = x.
Proof. destruct x as [| | |[|] m e]; intros H; try discriminate; reflexivity. Qed.

Lemma add_zero_r (x : double) (s : bool) :
  is_pos_finite x = true \/ is_neg_finite x = true -> x + S754_zero s = x.
Proof.
  destruct x as [| | |[|] m e]; intros [H|H]; try discriminate; reflexivity.
Qed.

Lemma add_zero_l (x : double) (s : bool) :
  is_pos_finite x = true \/ is_neg_finite x = true -> S754_zero s + x = x.
Proof.
  destruct x as [| | |[|] m e]; intros [H|H]; try discriminate; reflexivity.
Qed.

Lemma sub_diag (x : double) : is_pos_finite x = true -> x - x = pzero.
Proof.
  destruct x as [| | |s m e]; intros H; try discriminate.
  unfold sub; cbn [SFsub]. rewrite Z.sub_diag. reflexivity.
Qed.

(** With a strike of zero the quotient S/K is +infinity, and so is [d1]. *)
Lemma zero_strike_d1 (S T sigma r : double) :
  is_pos_finite S = true ->
  is_pos_finite (call_divisor T sigma) = true ->
  is_finite ((r + pow lm sigma lit_2_0 / lit_2_0) * T) = true ->
  call_d1 lm S pzero T sigma r = pinf.
Proof.
  intros HS HD HX. unfold call_d1, call_dividend.
  assert (Q : S / pzero = pinf)
    by (destruct S as [| | |[|] m e]; try discriminate; reflexivity).
  rewrite Q, (log_of_pinf annex_f).
  destruct ((r + pow lm sigma lit_2_0 / lit_2_0) * T); try discriminate;
    destruct (call_divisor T sigma) as [| | |[|] mD eD]; try discriminate;
    reflexivity.
Qed.

Lemma zero_strike_call (S T sigma r : double) :
  valid S = true -> is_pos_finite S = true ->
  is_pos_finite (call_divisor T sigma) = true ->
  is_finite ((r + pow lm sigma lit_2_0 / lit_2_0) * T) = true ->
  is_finite (exp lm (- r * T)) = true ->
  calculate_call_price lm S pzero T sigma r = S.
Proof.
  intros VS HS HD HX HE.
  rewrite (@call_at_pinf lm annex_f S pzero T sigma r); try assumption;
    try reflexivity.
  - destruct (exp lm (- r * T)) as [sE| | |sE mE eE]; try discriminate;
      apply sub_zero_r; exact HS.
  - apply zero_strike_d1; assumption.
  - destruct (call_divisor T sigma) as [| | |[|] mD eD]; try discriminate.
    reflexivity.
Qed.

(** With a stock price of zero S/K is zero, [log] returns -infinity and
    so is [d1]. *)
Lemma zero_stock_d1 (s : bool) (K T sigma r : double) :
  is_pos_finite K = true ->
  is_pos_finite (call_divisor T sigma) = true ->
  is_finite ((r + pow lm sigma lit_2_0 / lit_2_0) * T) = true ->
  call_d1 lm (S754_zero s) K T sigma r = ninf.
Proof.
  intros HK HD HX. unfold call_d1, call_dividend.
  assert (Q : exists s', S754_zero s / K = S754_zero s').
  { destruct K as [| | |[|] mK eK]; try discriminate. eexists. reflexivity. }
  destruct Q as (s' & ->). rewrite (log_of_zero annex_f).
  destruct ((r + pow lm sigma lit_2_0 / lit_2_0) * T); try discriminate;
    destruct (call_divisor T sigma) as [| | |[|] mD eD]; try discriminate;
    reflexivity.
Qed.

(** At expiry the divisor of [d1] is +0, the time term of the dividend
    is a zero, and both discount factors are 1. *)
Lemma expiry_divisor (sigma : double) :
  is_pos_finite sigma = true -> call_divisor pzero sigma = pzero.
Proof.
  destruct sigma as [| | |[|] m e]; intros H; try discriminate; reflexivity.
Qed.

Lemma mul_pzero_r (x : double) :
  is_finite x = true -> exists s, x * pzero = S754_zero s.
Proof. destruct x; intros H; try discriminate; eexists; reflexivity. Qed.

Lemma expiry_discount (r : double) :
  is_finite r = true ->
  exp lm (- r * pzero) = lit_1 /\ exp lm (r * pzero) = lit_1.
Proof.
  intros H. destruct (@mul_pzero_r r H) as (s & ->).
  destruct (@mul_pzero_r (- r)) as (s' & ->).
  { destruct r; try discriminate; reflexivity. }
  rewrite !(exp_of_zero annex_f). split; reflexivity.
Qed.

End MoreSpecialValues.

(** X3.  Neither pricing function tests its inputs for NaN: when any of
    the five inputs is a NaN, [d1] is a NaN and both the call price and
    the put price returned are NaN. *)
Theorem nan_input_gives_nan_prices (lm : Libm) (S K T sigma r : double) :
  AnnexF lm ->
  is_nan S || is_nan K || is_nan T || is_nan sigma || is_nan r = true ->
  is_nan (call_d1 lm S K T sigma r) = true
  /\ calculate_call_price lm S K T sigma r = nan
  /\ calculate_put_price lm S K T sigma r = nan.
Proof.
  intros AF H.
  pose proof (@nan_input_d1 lm AF S K T sigma r H) as D.
  split; [exact D|]. apply nan_d1_propagates; assumption.
Qed.

(** X3 with a NaN volatility. *)
Lemma nan_input_witness :
  is_nan (call_d1 RefLibm.libm (of_Z 100) (of_Z 100) lit_1 nan lit_0_05) = true
  /\ calculate_call_price RefLibm.libm (of_Z 100) (of_Z 100) lit_1 nan lit_0_05
     = nan
  /\ calculate_put_price RefLibm.libm (of_Z 100) (of_Z 100) lit_1 nan lit_0_05
     = nan.
Proof.
  exact (@nan_input_gives_nan_prices RefLibm.libm (of_Z 100) (of_Z 100) lit_1
           nan lit_0_05 AnnexF_RefLibm eq_refl).
Defined.

(** X4.  A negative time to expiry is not rejected: [sqrt] returns NaN
    for it, the divisor and [d1] are NaN, and both prices returned are
    NaN. *)
Theorem negative_time_gives_nan_prices (lm : Libm) (S K T sigma r : double) :
  AnnexF lm -> is_negative T = true ->
  is_nan (call_divisor T sigma) = true
  /\ calculate_call_price lm S K T sigma r = nan
  /\ calculate_put_price lm S K T sigma r = nan.
Proof.
  intros AF H. split.
  - unfold call_divisor. rewrite (sqrt_of_negative _ H), mul_nan_r. reflexivity.
  - apply nan_d1_propagates; [exact AF|].
    apply negative_time_d1; assumption.
Qed.

(** X4 for a time of minus one year. *)
Lemma negative_time_witness :
  is_nan (call_divisor (of_Z (-1)) lit_0_2) = true
  /\ calculate_call_price RefLibm.libm (of_Z 100) (of_Z 100) (of_Z (-1))
                          lit_0_2 lit_0_05 = nan
  /\ calculate_put_price RefLibm.libm (of_Z 100) (of_Z 100) (of_Z (-1))
                         lit_0_2 lit_0_05 = nan.
Proof.
  exact (@negative_time_gives_nan_prices RefLibm.libm (of_Z 100) (of_Z 100)
           (of_Z (-1)) lit_0_2 lit_0_05 AnnexF_RefLibm eq_refl).
Defined.

(** X5.  A strike price of +0 is not rejected either.  For a positive
    finite stock price, a positive finite divisor sigma*sqrt(T) and
    finite remaining terms, S/K is +infinity, [d1] is +infinity, and the
    call price returned is exactly S; the put price returned is then +0,
    provided exp(r*T) is neither zero nor NaN. *)
Theorem zero_strike_prices (lm : Libm) (S T sigma r : double) :
  AnnexF lm -> valid S = true -> is_pos_finite S = true ->
  is_pos_finite (call_divisor T sigma) = true ->
  is_finite (mul (add r (div (pow lm sigma lit_2_0) lit_2_0)) T) = true ->
  is_finite (exp lm (mul (opp r) T)) = true ->
  call_d1 lm S pzero T sigma r = pinf
  /\ calculate_call_price lm S pzero T sigma r = S
  /\ (is_nan (exp lm (mul r T)) = false ->
      is_zero (exp lm (mul r T)) = false ->
      calculate_put_price lm S pzero T sigma r = pzero).
Proof.
  intros AF VS HS HD HX HE.
  pose proof (@zero_strike_call lm AF S T sigma r VS HS HD HX HE) as C.
  split; [apply zero_strike_d1; assumption|]. split; [exact C|].
  intros N Z. unfold calculate_put_price. rewrite C.
  assert (Q : exists s, div pzero (exp lm (mul r T)) = S754_zero s).
  { destruct (exp lm (mul r T)) as [sE|sE| |sE mE eE]; try discriminate;
      eexists; reflexivity. }
  destruct Q as (s & ->).
  rewrite add_zero_r by (left; exact HS). apply sub_diag. exact HS.
Qed.

(** X5 for S = 100, one year, sigma = 0.2 and r = 0.05. *)
Lemma zero_strike_witness :
  call_d1 RefLibm.libm (of_Z 100) pzero lit_1 lit_0_2 lit_0_05 = pinf
  /\ calculate_call_price RefLibm.libm (of_Z 100) pzero lit_1 lit_0_2 lit_0_05
     = of_Z 100
  /\ calculate_put_price RefLibm.libm (of_Z 100) pzero lit_1 lit_0_2 lit_0_05
     = pzero.
Proof.
  destruct (@zero_strike_prices RefLibm.libm (of_Z 100) lit_1 lit_0_2 lit_0_05
              AnnexF_RefLibm) as (H1 & H2 & H3);
    try (vm_compute; reflexivity).
  split; [exact H1|]. split; [exact H2|].
  apply H3; vm_compute; reflexivity.
Defined.

(** X6.  A stock price of zero (of either sign) is priced without
    complaint: for a positive finite strike, a positive finite divisor
    sigma*sqrt(T) and finite remaining terms, the call price returned is
    a zero and the put price returned is exactly the discounted strike
    K / exp(r*T), when that quotient is positive and finite. *)
Theorem zero_stock_prices (lm : Libm) (s : bool) (K T sigma r : double) :
  AnnexF lm -> is_pos_finite K = true ->
  is_pos_finite (call_divisor T sigma) = true ->
  is_finite (mul (add r (div (pow lm sigma lit_2_0) lit_2_0)) T) = true ->
  is_finite (exp lm (mul (opp r) T)) = true ->
  is_pos_finite (div K (exp lm (mul r T))) = true ->
  is_zero (calculate_call_price lm (S754_zero s) K T sigma r) = true
  /\ calculate_put_price lm (S754_zero s) K T sigma r
     = div K (exp lm (mul r T)).
Proof.
  intros AF HK HD HX HE HQ.
  assert (C : is_zero (calculate_call_price lm (S754_zero s) K T sigma r) = true).
  { apply call_at_ninf; try assumption; try reflexivity.
    - apply zero_stock_d1; assumption.
    - destruct (call_divisor T sigma) as [| | |[|] mD eD]; try discriminate.
      reflexivity.
    - destruct K as [| | |[|] mK eK]; try discriminate; reflexivity. }
  split; [exact C|].
  unfold calculate_put_price.
  destruct (calculate_call_price lm (S754_zero s) K T sigma r) as [sc| | |];
    try discriminate.
  rewrite add_zero_l by (left; exact HQ).
  destruct (div K (exp lm (mul r T))) as [| | |[|] mQ eQ]; try discriminate.
  reflexivity.
Qed.

(** X6 for K = 100, one year, sigma = 0.2 and r = 0.05. *)
Lemma zero_stock_witness :
  is_zero (calculate_call_price RefLibm.libm pzero (of_Z 100) lit_1 lit_0_2
                                lit_0_05) = true
  /\ calculate_put_price RefLibm.libm pzero (of_Z 100) lit_1 lit_0_2 lit_0_05
     = div (of_Z 100) (exp RefLibm.libm (mul lit_0_05 lit_1)).
Proof.
  apply (@zero_stock_prices RefLibm.libm false (of_Z 100) lit_1 lit_0_2
           lit_0_05 AnnexF_RefLibm);
    vm_compute; reflexivity.
Defined.

(** X7.  At expiry, that is for T = +0, with a finite stock price, a
    positive finite strike, a positive finite volatility, a finite rate
    and a finite r + sigma^2/2 (sigma^2 does not overflow), the divisor
    of [d1] is +0, the time term of the dividend is a zero and both
    discount factors are exactly 1, so the prices returned are the
    intrinsic values: when log(S/K) is positive and finite the call price
    is exactly S - K and the put price is ((S - K) + K) - S; when
    log(S/K) is negative and finite the call price is a zero and the put
    price is exactly K - S; when log(S/K) is zero (at the money) [d1] is
    0/0 and both prices are NaN. *)
Theorem prices_at_expiry (lm : Libm) (S K sigma r : double) :
  AnnexF lm -> valid S = true -> valid K = true ->
  is_finite S = true -> is_pos_finite K = true ->
  is_pos_finite sigma = true -> is_finite r = true ->
  is_finite (add r (div (pow lm sigma lit_2_0) lit_2_0)) = true ->
  (is_pos_finite (log lm (div S K)) = true ->
   calculate_call_price lm S K pzero sigma r = sub S K
   /\ calculate_put_price lm S K pzero sigma r = sub (add (sub S K) K) S)
  /\ (is_neg_finite (log lm (div S K)) = true ->
      is_zero (calculate_call_price lm S K pzero sigma r) = true
      /\ calculate_put_price lm S K pzero sigma r = sub K S)
  /\ (is_zero (log lm (div S K)) = true ->
      calculate_call_price lm S K pzero sigma r = nan
      /\ calculate_put_price lm S K pzero sigma r = nan).
Proof.
  intros AF VS VK FS HK Hs Fr FX.
  destruct (expiry_discount AF r Fr) as (E1 & E2).
  pose proof (expiry_divisor sigma Hs) as D.
  destruct (@mul_pzero_r (add r (div (pow lm sigma lit_2_0) lit_2_0)) FX)
    as (sx & X).
  assert (FK : is_finite K = true)
    by (destruct K as [| | |[|] mK eK]; try discriminate; reflexivity).
  assert (P : calculate_put_price lm S K pzero sigma r
              = sub (add (calculate_call_price lm S K pzero sigma r) K) S).
  { unfold calculate_put_price. rewrite E2, div_one_r by assumption.
    reflexivity. }
  split; [|split]; intros L.
  - assert (D1 : call_d1 lm S K pzero sigma r = pinf).
    { unfold call_d1, call_dividend. rewrite D, X.
      rewrite add_zero_r by (left; exact L).
      destruct (log lm (div S K)) as [| | |[|] mL eL]; try discriminate.
      reflexivity. }
    assert (C : calculate_call_price lm S K pzero sigma r = sub S K).
    { rewrite (@call_at_pinf lm AF S K pzero sigma r); try assumption.
      - rewrite E1, mul_one_r by assumption. reflexivity.
      - rewrite D. reflexivity. }
    split; [exact C|]. rewrite P, C. reflexivity.
  - assert (D1 : call_d1 lm S K pzero sigma r = ninf).
    { unfold call_d1, call_dividend. rewrite D, X.
      rewrite add_zero_r by (right; exact L).
      destruct (log lm (div S K)) as [| | |[|] mL eL]; try discriminate.
      reflexivity. }
    assert (C : is_zero (calculate_call_price lm S K pzero sigma r) = true).
    { apply call_at_ninf; try assumption.
      - rewrite D. reflexivity.
      - rewrite E1. reflexivity. }
    split; [exact C|]. rewrite P.
    destruct (calculate_call_price lm S K pzero sigma r); try discriminate.
    rewrite add_zero_l by (left; exact HK). reflexivity.
  - apply nan_d1_propagates; [exact AF|].
    unfold call_d1, call_dividend. rewrite D, X.
    destruct (log lm (div S K)) as [sl| | |]; try discriminate.
    destruct sl, sx; reflexivity.
Qed.

(** X7 in the money (S = 100, K = 90: the call is worth 10) and out of
    the money (S = 90, K = 100: the put is worth 10). *)
Lemma prices_at_expiry_witness :
  calculate_call_price RefLibm.libm (of_Z 100) (of_Z 90) pzero lit_0_2 lit_0_05
  = of_Z 10
  /\ calculate_put_price RefLibm.libm (of_Z 90) (of_Z 100) pzero lit_0_2
                         lit_0_05
     = of_Z 10.
Proof.
  split.
  - apply (@prices_at_expiry RefLibm.libm (of_Z 100) (of_Z 90) lit_0_2
             lit_0_05 AnnexF_RefLibm); vm_compute; reflexivity.
  - apply (@prices_at_expiry RefLibm.libm (of_Z 90) (of_Z 100) lit_0_2
             lit_0_05 AnnexF_RefLibm); vm_compute; reflexivity.
Defined.

(* ================================================================== *)
(** * Order facts about the double operations *)
(* ================================================================== *)

Section OrderFacts.

Local Open Scope Z_scope.

Lemma sub_add_opp (x y : double) : sub x y = add x (opp y).
Proof.
  destruct x as [sx|sx| |sx mx ex], y as [sy|sy| |sy my ey]; try reflexivity;
    unfold sub, add, opp; cbn [SFsub SFadd SFopp];
    destruct sx, sy; reflexivity.
Qed.

(** The sum of two finite doubles is the rounding of the exact sum. *)
Lemma add_spec (x y : double) :
  valid x = true -> valid y = true ->
  is_finite x = true -> is_finite y = true ->
  valid (add x y) = true /\ is_nan (add x y) = false
  /\ ord (add x y) = ord_round_Z (ord x + ord y).
Proof.
  intros Vx Vy Fx Fy.
  destruct x as [sx|sx| |sx mx ex], y as [sy|sy| |sy my ey]; try discriminate.
  - destruct sx, sy; repeat split.
  - change (add (S754_zero sx) (S754_finite sy my ey)) with (S754_finite sy my ey).
    change (ord (S754_zero sx)) with 0. rewrite Z.add_0_l.
    rewrite <- (round_Z_ord _ _ _ Vy) at 1 2 3. apply round_Z_spec.
  - change (add (S754_finite sx mx ex) (S754_zero sy)) with (S754_finite sx mx ex).
    change (ord (S754_zero sy)) with 0. rewrite Z.add_0_r.
    rewrite <- (round_Z_ord _ _ _ Vx) at 1 2 3. apply round_Z_spec.
  - unfold add. rewrite SFadd_finite by assumption. apply round_Z_spec.
Qed.

(** Rounding the reading of a finite double gives the reading back. *)
Lemma ord_round_Z_fixed (x : double) :
  valid x = true -> is_finite x = true -> ord_round_Z (ord x) = ord x.
Proof.
  intros V F. destruct x as [s|s| |s m e]; try discriminate; [reflexivity|].
  destruct (round_Z_spec (ord (S754_finite s m e))) as (_ & _ & O).
  rewrite <- O, round_Z_ord by assumption. reflexivity.
Qed.

Lemma ord_bounds (x : double) :
  valid x = true -> - 2 ^ 2098 <= ord x <= 2 ^ 2098.
Proof.
  intros V. assert (P : 0 < 2 ^ 2098) by reflexivity.
  destruct x as [s|s| |s m e]; cbn [ord]; try lia.
  - destruct s; cbn [cond_Zopp]; lia.
  - pose proof (ord_finite_bounds _ _ _ V). destruct s; cbn [cond_Zopp]; lia.
Qed.

Lemma ord_of_finite (x : double) :
  valid x = true -> is_finite x = true -> - 2 ^ 2098 < ord x < 2 ^ 2098.
Proof.
  intros V F. assert (P : 0 < 2 ^ 2098) by reflexivity.
  destruct x as [s|s| |s m e]; try discriminate; cbn [ord]; try lia.
  pose proof (ord_finite_bounds _ _ _ V). destruct s; cbn [cond_Zopp]; lia.
Qed.

Lemma sub_finite_not_nan (a b : double) :
  valid a = true -> valid b = true -> is_finite a = true -> is_nan b = false ->
  is_nan (sub a b) = false.
Proof.
  intros Va Vb Fa Nb. destruct (is_finite b) eqn:Fb.
  - rewrite sub_add_opp. apply add_spec; rewrite ?valid_opp; try assumption.
    destruct b; try discriminate; reflexivity.
  - destruct a; try discriminate; destruct b; try discriminate; reflexivity.
Qed.

(** Subtracting a non-negative double never gives more. *)
Lemma sub_le_l (a b : double) :
  valid a = true -> valid b = true ->
  is_nan a = false -> is_nan b = false -> 0 <= ord b ->
  is_nan (sub a b) = false ->
  valid (sub a b) = true /\ ord (sub a b) <= ord a.
Proof.
  intros Va Vb Na Nb Hb Ns.
  assert (P : 0 < 2 ^ 2098) by reflexivity.
  destruct (is_finite a) eqn:Fa, (is_finite b) eqn:Fb.
  - rewrite sub_add_opp.
    destruct (@add_spec a (opp b)) as (V & _ & O);
      rewrite ?valid_opp; try assumption.
    { destruct b; try discriminate; reflexivity. }
    split; [exact V|]. rewrite O, ord_opp.
    rewrite <- (ord_round_Z_fixed a Va Fa) at 2.
    apply ord_round_Z_mono. lia.
  - destruct b as [sb|[|]| |sb mb eb]; try discriminate;
      [cbn [ord cond_Zopp] in Hb; lia|].
    pose proof (ord_bounds _ Va).
    destruct a as [sa|sa| |sa ma ea]; try discriminate; (split; [reflexivity|]);
      unfold sub; cbn [SFsub]; cbn [ord cond_Zopp negb] in *; lia.
  - destruct a as [sa|sa| |sa ma ea]; try discriminate.
    destruct b as [sb|sb| |sb mb eb]; try discriminate;
      (split; [reflexivity|]); unfold sub; cbn [SFsub]; lia.
  - destruct a as [sa|[|]| |sa ma ea]; try discriminate;
      destruct b as [sb|[|]| |sb mb eb]; try discriminate;
      try (cbn [ord cond_Zopp] in Hb; lia).
    split; reflexivity.
Qed.

(** Multiplying a non-negative finite double by a factor between 0 and 1
    gives a double between 0 and the one multiplied. *)
Lemma mul_fraction (c x : double) :
  valid c = true -> is_nan c = false -> 0 <= ord c <= 2 ^ 1074 ->
  valid x = true -> is_finite x = true -> 0 <= ord x ->
  valid (mul c x) = true /\ is_nan (mul c x) = false
  /\ 0 <= ord (mul c x) <= ord x.
Proof.
  intros Vc Nc Rc Vx Fx Hx.
  assert (P : 2 ^ 1074 < 2 ^ 2098) by reflexivity.
  assert (Fc : is_finite c = true) by (apply finite_of_ord; [assumption|lia]).
  destruct x as [sx|sx| |[|] mx ex]; try discriminate.
  - clear P Rc. destruct c as [sc|sc| |sc mc ec]; try discriminate;
      unfold mul; cbn [SFmul]; repeat split; cbn [ord]; lia.
  - pose proof (ord_finite_bounds _ _ _ Vx). cbn [ord cond_Zopp] in Hx. lia.
  - destruct (@SFmul_const_spec mx ex c Vx Vc Nc) as (V & N & O).
    destruct (@SFmul_const_spec mx ex lit_1 Vx eq_refl eq_refl) as (_ & _ & O1).
    change (SFmul prec emax lit_1 (S754_finite false mx ex))
      with (mul lit_1 (S754_finite false mx ex)) in O1.
    rewrite mul_one_l in O1 by assumption. rewrite ord_lit_1 in O1.
    unfold mul. repeat split; try assumption.
    + rewrite O. change 0 with (ord_mulc mx ex 0) at 1.
      apply ord_mulc_mono; [assumption|lia].
    + rewrite O, O1. apply ord_mulc_mono; [assumption|lia].
Qed.

(** The product of two non-negative finite doubles is non-negative. *)
Lemma mul_nonneg (y x : double) :
  valid y = true -> is_finite y = true -> 0 <= ord y ->
  valid x = true -> is_finite x = true -> 0 <= ord x ->
  valid (mul y x) = true /\ is_nan (mul y x) = false /\ 0 <= ord (mul y x).
Proof.
  intros Vy Fy Hy Vx Fx Hx.
  destruct x as [sx|sx| |[|] mx ex]; try discriminate.
  - destruct y as [sy|sy| |sy my ey]; try discriminate;
      unfold mul; cbn [SFmul]; repeat split; cbn [ord]; lia.
  - pose proof (ord_finite_bounds _ _ _ Vx). cbn [ord cond_Zopp] in Hx. lia.
  - assert (Ny : is_nan y = false) by (destruct y; try discriminate; reflexivity).
    destruct (@SFmul_const_spec mx ex y Vx Vy Ny) as (V & N & O).
    unfold mul. repeat split; try assumption.
    rewrite O. change 0 with (ord_mulc mx ex 0) at 1.
    apply ord_mulc_mono; [assumption|lia].
Qed.

Lemma amount_inv (x : double) :
  is_amount x = true ->
  valid x = true /\ is_finite x = true /\ is_nan x = false /\ 0 <= ord x.
Proof.
  unfold is_amount. rewrite !andb_true_iff. intros [[V F] L].
  destruct (leb_not_nan _ _ L) as (_ & N).
  rewrite leb_ord in L by (reflexivity || assumption). apply Z.leb_le in L.
  repeat split; assumption.
Qed.

Lemma zero_of_ord (x : double) :
  valid x = true -> is_nan x = false -> is_zero x = (ord x =? 0).
Proof.
  intros V N. assert (P : 0 < 2 ^ 2098) by reflexivity.
  destruct x as [s|s| |s m e]; try discriminate; cbn [is_zero ord].
  - reflexivity.
  - symmetry. apply Z.eqb_neq. destruct s; cbn [cond_Zopp]; lia.
  - pose proof (ord_finite_bounds _ _ _ V). symmetry. apply Z.eqb_neq.
    destruct s; cbn [cond_Zopp]; lia.
Qed.

Lemma negative_of_ord (x : double) :
  valid x = true -> is_nan x = false -> is_negative x = (ord x <? 0).
Proof.
  intros V N. assert (P : 0 < 2 ^ 2098) by reflexivity.
  destruct x as [s|s| |s m e]; try discriminate; cbn [is_negative ord].
  - reflexivity.
  - symmetry. destruct s; cbn [cond_Zopp]; [apply Z.ltb_lt|apply Z.ltb_ge]; lia.
  - pose proof (ord_finite_bounds _ _ _ V). symmetry.
    destruct s; cbn [cond_Zopp]; [apply Z.ltb_lt|apply Z.ltb_ge]; lia.
Qed.

Lemma finite_iff_ord (x : double) :
  valid x = true -> is_nan x = false ->
  is_finite x = (Z.abs (ord x) <? 2 ^ 2098).
Proof.
  intros V N. assert (P : 0 < 2 ^ 2098) by reflexivity.
  destruct x as [s|s| |s m e]; try discriminate; cbn [is_finite ord].
  - reflexivity.
  - symmetry. apply Z.ltb_ge. destruct s; cbn [cond_Zopp]; lia.
  - pose proof (ord_finite_bounds _ _ _ V). symmetry. apply Z.ltb_lt.
    destruct s; cbn [cond_Zopp]; lia.
Qed.

End OrderFacts.

(* ================================================================== *)
(** * The argument of [erf] *)
(* ================================================================== *)

Section ScaleFacts.

Local Open Scope Z_scope.

(** A positive double times [M_SQRT1_2] is positive and no larger. *)
Lemma scale_positive (x : double) :
  valid x = true -> is_nan x = false -> 0 < ord x ->
  valid (mul x M_SQRT1_2) = true /\ is_nan (mul x M_SQRT1_2) = false
  /\ 0 < ord (mul x M_SQRT1_2) <= ord x.
Proof.
  intros V N H.
  destruct (@SFmul_const_spec 0x16A09E667F3BCD (-53) x eq_refl V N)
    as (Vt & Nt & Ot).
  change (SFmul prec emax x (S754_finite false 0x16A09E667F3BCD (-53)))
    with (mul x M_SQRT1_2) in *.
  split; [exact Vt|]. split; [exact Nt|]. split.
  - rewrite Ot.
    assert (L : ord_mulc 0x16A09E667F3BCD (-53) 1 = 1) by (vm_compute; reflexivity).
    pose proof (@ord_mulc_mono 0x16A09E667F3BCD (-53) 1 (ord x) eq_refl ltac:(lia)).
    lia.
  - destruct (is_finite x) eqn:F.
    + rewrite mul_comm.
      apply (@mul_fraction M_SQRT1_2 x eq_refl eq_refl); try assumption; try lia.
      vm_compute. split; discriminate.
    + pose proof (ord_bounds _ Vt) as B.
      destruct x as [s|[|]| |s m e]; try discriminate.
      all: cbn [ord cond_Zopp] in *; lia.
Qed.

Lemma scale_spec (x : double) :
  valid x = true -> is_nan x = false ->
  valid (mul x M_SQRT1_2) = true /\ is_nan (mul x M_SQRT1_2) = false
  /\ (0 < ord x -> 0 < ord (mul x M_SQRT1_2) <= ord x)
  /\ (ord x < 0 -> ord x <= ord (mul x M_SQRT1_2) < 0).
Proof.
  intros V N.
  destruct (@SFmul_const_spec 0x16A09E667F3BCD (-53) x eq_refl V N)
    as (Vt & Nt & Ot).
  change (SFmul prec emax x (S754_finite false 0x16A09E667F3BCD (-53)))
    with (mul x M_SQRT1_2) in *.
  split; [exact Vt|]. split; [exact Nt|]. split.
  - intros H. apply scale_positive; assumption.
  - intros H.
    destruct (@scale_positive (opp x)) as (_ & _ & B);
      rewrite ?valid_opp, ?is_nan_opp, ?ord_opp; try assumption; try lia.
    rewrite mul_opp_l, !ord_opp in B. lia.
Qed.

End ScaleFacts.

(** X8.  The product [value * M_SQRT1_2] handed to [erf] keeps what
    matters of [value]: it is a NaN, a zero, finite or negative exactly
    when [value] is (so a nonzero value never underflows to zero and a
    finite one never overflows), and it is no larger in magnitude than
    [value].  This product is the argument at which
    [cdf_normal_distribution] calls [erf]. *)
Theorem cdf_argument_scaling (lm : Libm) (x : double) :
  valid x = true ->
  valid (mul x M_SQRT1_2) = true
  /\ is_nan (mul x M_SQRT1_2) = is_nan x
  /\ is_zero (mul x M_SQRT1_2) = is_zero x
  /\ is_finite (mul x M_SQRT1_2) = is_finite x
  /\ is_negative (mul x M_SQRT1_2) = is_negative x
  /\ (leb pzero x = true -> leb (mul x M_SQRT1_2) x = true)
  /\ (leb x pzero = true -> leb x (mul x M_SQRT1_2) = true)
  /\ cdf_normal_distribution lm x
     = mul lit_0_5 (add lit_1 (erf lm (mul x M_SQRT1_2))).
Proof.
  intros V.
  destruct x as [s|s| |s m e] eqn:Ex;
    try (repeat split; discriminate);
    try (destruct s; repeat split; discriminate).
  rewrite <- Ex in *.
  assert (N : is_nan x = false) by (rewrite Ex; reflexivity).
  assert (F : is_finite x = true) by (rewrite Ex; reflexivity).
  destruct (scale_spec x V N) as (Vt & Nt & Zp & Zn).
  assert (P : (0 < 2 ^ 2098)%Z) by reflexivity.
  pose proof (ord_of_finite x V F) as B.
  assert (C : (0 < ord x)%Z \/ (ord x < 0)%Z).
  { pose proof (ord_finite_bounds _ _ _ ltac:(rewrite <- Ex; exact V)).
    rewrite Ex. cbn [ord]. destruct s; cbn [cond_Zopp]; lia. }
  split; [exact Vt|]. split; [rewrite Nt, N; reflexivity|].
  rewrite !zero_of_ord, !finite_iff_ord, !negative_of_ord by assumption.
  rewrite !leb_ord by (reflexivity || assumption). change (ord pzero) with 0%Z.
  destruct C as [C|C]; [specialize (Zp C)|specialize (Zn C)].
  - repeat split.
    + destruct (Z.eqb_spec (ord (mul x M_SQRT1_2)) 0), (Z.eqb_spec (ord x) 0);
        try reflexivity; lia.
    + destruct (Z.ltb_spec (Z.abs (ord (mul x M_SQRT1_2))) (2 ^ 2098)),
        (Z.ltb_spec (Z.abs (ord x)) (2 ^ 2098)); try reflexivity; lia.
    + destruct (Z.ltb_spec (ord (mul x M_SQRT1_2)) 0), (Z.ltb_spec (ord x) 0);
        try reflexivity; lia.
    + intros _. apply Z.leb_le. lia.
    + intros H. apply Z.leb_le in H. lia.
  - repeat split.
    + destruct (Z.eqb_spec (ord (mul x M_SQRT1_2)) 0), (Z.eqb_spec (ord x) 0);
        try reflexivity; lia.
    + destruct (Z.ltb_spec (Z.abs (ord (mul x M_SQRT1_2))) (2 ^ 2098)),
        (Z.ltb_spec (Z.abs (ord x)) (2 ^ 2098)); try reflexivity; lia.
    + destruct (Z.ltb_spec (ord (mul x M_SQRT1_2)) 0), (Z.ltb_spec (ord x) 0);
        try reflexivity; lia.
    + intros H. apply Z.leb_le in H. lia.
    + intros _. apply Z.leb_le. lia.
Qed.

(** X8 at the smallest positive double, 2^-1074: the product rounds back
    to 2^-1074, not to zero. *)
Lemma cdf_argument_scaling_witness :
  mul (S754_finite false 1 (-1074)) M_SQRT1_2 = S754_finite false 1 (-1074)
  /\ is_zero (mul (S754_finite false 1 (-1074)) M_SQRT1_2) = false
  /\ leb (mul (S754_finite false 1 (-1074)) M_SQRT1_2)
         (S754_finite false 1 (-1074)) = true.
Proof.
  destruct (@cdf_argument_scaling RefLibm.libm (S754_finite false 1 (-1074))
              eq_refl)
    as (_ & _ & Z & _ & _ & L & _).
  split; [vm_compute; reflexivity|]. split; [exact Z|].
  apply L. reflexivity.
Defined.

(* ================================================================== *)
(** * How close the argument of [erf] is to x / sqrt(2) *)
(* ================================================================== *)

Section Accuracy.

Local Open Scope Z_scope.

(** Rounding a product that is not subnormal changes it by at most one
    part in 2^53. *)
Lemma product_rounding_error (N : Z) :
  2 ^ 105 <= N ->
  2 ^ 53 * Z.abs (rmag (-53 - 1074) N * 2 ^ 53 - N) <= N.
Proof.
  intros H.
  assert (HN : 0 < N) by (assert (0 < 2 ^ 105) by reflexivity; lia).
  pose proof (Zdigits2_bounds HN) as [L U].
  pose proof (@Zdigits2_mono (2 ^ 105) N ltac:(reflexivity) H) as M.
  change (Zdigits2 (2 ^ 105)) with 106 in M.
  unfold rmag, nshift.
  replace (Z.max (Zdigits2 N - 53) (-1074 - (-53 - 1074))) with (Zdigits2 N - 53)
    by lia.
  set (n := Zdigits2 N - 53) in *.
  pose proof (@rnd_q_error N n ltac:(lia)) as E.
  replace (-53 - 1074 + n + 1074) with (n - 53) by lia.
  rewrite <- Z.mul_assoc, <- Z.pow_add_r by lia.
  replace (n - 53 + 53) with n by lia.
  assert (P : 2 ^ 52 * 2 ^ n <= N).
  { rewrite <- Z.pow_add_r by lia.
    replace (52 + n) with (Zdigits2 N - 1) by lia. exact L. }
  change (2 ^ 53) with (2 ^ 52 * 2). lia.
Qed.

(** If [U] is within [N / p] of [N = a * mc], and [2 mc^2] is [p^2 + delta]
    with a small [delta], then [2 U^2] is close to [a^2 p^2]. *)
Lemma square_error (p mc delta k a U : Z) :
  0 < p -> 0 < mc -> 0 <= delta -> 0 < k -> 0 < a ->
  2 * (mc * mc) = p * p + delta ->
  k * (p * p * delta + (4 * p + 2) * (mc * mc)) <= (p * p) * (p * p) ->
  p * Z.abs (U - a * mc) <= a * mc ->
  k * Z.abs (2 * (U * U) - a * a * (p * p)) <= a * a * (p * p).
Proof.
  intros Hp Hmc Hdelta Hk Ha E2 C H.
  set (N := a * mc) in *.
  set (D := U - N) in *.
  assert (HU : U = N + D) by (subst D; lia).
  assert (HN : 0 < N) by (subst N; apply Z.mul_pos_pos; assumption).
  assert (A0 : 0 <= a * a) by (apply Z.mul_nonneg_nonneg; lia).
  assert (NN : N * N = (a * a) * (mc * mc)) by (subst N; ring).
  assert (Id : 2 * (U * U) - a * a * (p * p)
               = a * a * delta + 4 * N * D + 2 * (D * D)).
  { rewrite HU. replace (p * p) with (2 * (mc * mc) - delta) by lia.
    subst N. ring. }
  rewrite Id.
  set (d := Z.abs D) in *.
  assert (Hd : 0 <= d) by (subst d; apply Z.abs_nonneg).
  assert (T : Z.abs (a * a * delta + 4 * N * D + 2 * (D * D))
              <= a * a * delta + 4 * N * d + 2 * (d * d)).
  { assert (X1 : 0 <= a * a * delta) by (apply Z.mul_nonneg_nonneg; lia).
    assert (X2 : Z.abs (4 * N * D) = 4 * N * d)
      by (rewrite Z.abs_mul, (Z.abs_eq (4 * N)) by lia; reflexivity).
    assert (X3 : Z.abs (2 * (D * D)) = 2 * (d * d))
      by (subst d; rewrite !Z.abs_mul; reflexivity).
    pose proof (Z.abs_triangle (a * a * delta + 4 * N * D) (2 * (D * D))) as T1.
    pose proof (Z.abs_triangle (a * a * delta) (4 * N * D)) as T2.
    rewrite (Z.abs_eq (a * a * delta)) in T2 by assumption.
    rewrite X2 in T2. rewrite X3 in T1. lia. }
  assert (B1 : p * p * (4 * N * d) <= 4 * p * (N * N)).
  { replace (p * p * (4 * N * d)) with (4 * p * N * (p * d)) by ring.
    replace (4 * p * (N * N)) with (4 * p * N * N) by ring.
    apply Z.mul_le_mono_nonneg_l; [|exact H].
    apply Z.mul_nonneg_nonneg; lia. }
  assert (B2 : p * p * (2 * (d * d)) <= 2 * (N * N)).
  { replace (p * p * (2 * (d * d))) with (2 * ((p * d) * (p * d))) by ring.
    apply Z.mul_le_mono_nonneg_l; [lia|].
    apply Z.mul_le_mono_nonneg; try assumption; apply Z.mul_nonneg_nonneg; lia. }
  assert (G : (p * p) * (k * (a * a * delta + 4 * N * d + 2 * (d * d)))
              <= (p * p) * (a * a * (p * p))).
  { apply Z.le_trans with (k * ((a * a) * (p * p * delta + (4 * p + 2) * (mc * mc)))).
    - replace ((p * p) * (k * (a * a * delta + 4 * N * d + 2 * (d * d))))
        with (k * (a * a * (p * p * delta) + p * p * (4 * N * d)
                   + p * p * (2 * (d * d)))) by ring.
      apply Z.mul_le_mono_nonneg_l; [lia|].
      replace ((a * a) * (p * p * delta + (4 * p + 2) * (mc * mc)))
        with (a * a * (p * p * delta) + 4 * p * ((a * a) * (mc * mc))
              + 2 * ((a * a) * (mc * mc))) by ring.
      rewrite <- NN. lia.
    - replace (k * ((a * a) * (p * p * delta + (4 * p + 2) * (mc * mc))))
        with ((a * a) * (k * (p * p * delta + (4 * p + 2) * (mc * mc)))) by ring.
      replace ((p * p) * (a * a * (p * p))) with ((a * a) * ((p * p) * (p * p)))
        by ring.
      apply Z.mul_le_mono_nonneg_l; assumption. }
  apply Z.mul_le_mono_pos_l in G; [|apply Z.mul_pos_pos; assumption].
  apply Z.le_trans with (k * (a * a * delta + 4 * N * d + 2 * (d * d)));
    [|exact G].
  apply Z.mul_le_mono_nonneg_l; [lia|exact T].
Qed.

(** The reading of a product with [M_SQRT1_2], for a double that is
    finite and not zero. *)
Lemma scale_magnitude (x : double) :
  valid x = true -> is_finite x = true -> ord x <> 0 ->
  Z.abs (ord (mul x M_SQRT1_2))
  = rmag (-53 - 1074) (Z.abs (ord x) * 0x16A09E667F3BCD).
Proof.
  intros V F NZ.
  assert (N : is_nan x = false) by (destruct x; try discriminate; reflexivity).
  destruct (@SFmul_const_spec 0x16A09E667F3BCD (-53) x eq_refl V N)
    as (_ & _ & O).
  change (SFmul prec emax x (S754_finite false 0x16A09E667F3BCD (-53)))
    with (mul x M_SQRT1_2) in O.
  destruct (scale_spec x V N) as (_ & _ & Zp & Zn).
  pose proof (ord_of_finite x V F) as B.
  assert (P : 0 < 2 ^ 2098) by reflexivity.
  assert (C : 0 < ord x \/ ord x < 0) by lia.
  destruct C as [C|C].
  - specialize (Zp C). rewrite (Z.abs_eq (ord x)) by lia.
    rewrite (Z.abs_eq (ord (mul x M_SQRT1_2))) by lia.
    rewrite O, ord_mulc_pos in * by assumption.
    unfold mulc_mag in *.
    destruct (Z.leb_spec (2 ^ 2098) (ord x)); lia.
  - specialize (Zn C). rewrite (Z.abs_neq (ord x)) by lia.
    rewrite (Z.abs_neq (ord (mul x M_SQRT1_2))) by lia.
    rewrite O in *. destruct (ord x) as [|q|q] eqn:Eo; try lia.
    cbn [ord_mulc] in *. unfold mulc_mag in *.
    change (- Z.neg q) with (Z.pos q) in *.
    destruct (Z.leb_spec (2 ^ 2098) (Z.pos q)); lia.
Qed.

End Accuracy.

(** X13.  The argument handed to [erf] is value / sqrt(2) up to a
    relative error of about 2^-52.  For every finite [value] of magnitude
    at least 2^-1021 (so that the product is not subnormal), the product
    t = value * M_SQRT1_2 at which [cdf_normal_distribution] calls [erf]
    satisfies |2 t^2 - value^2| <= value^2 / 2^51; here [ord] reads a
    double as its number of multiples of 2^-1074. *)
Theorem erf_argument_accuracy (lm : Libm) (x : double) :
  valid x = true -> is_finite x = true -> (2 ^ 53 <= Z.abs (ord x))%Z ->
  cdf_normal_distribution lm x
  = mul lit_0_5 (add lit_1 (erf lm (mul x M_SQRT1_2)))
  /\ (2 ^ 51 * Z.abs (2 * (ord (mul x M_SQRT1_2) * ord (mul x M_SQRT1_2))
                     - ord x * ord x)
      <= ord x * ord x)%Z.
Proof.
  intros V F H. split; [reflexivity|].
  assert (P53 : (0 < 2 ^ 53)%Z) by reflexivity.
  pose proof (@scale_magnitude x V F ltac:(lia)) as M.
  set (a := Z.abs (ord x)) in *.
  set (t := ord (mul x M_SQRT1_2)) in *.
  assert (Ha : (0 < a)%Z) by lia.
  assert (HN : (2 ^ 105 <= a * 0x16A09E667F3BCD)%Z).
  { change (2 ^ 105)%Z with (2 ^ 53 * 2 ^ 52)%Z.
    apply Z.mul_le_mono_nonneg; try lia; vm_compute; discriminate. }
  pose proof (product_rounding_error HN) as E. rewrite <- M in E.
  pose proof (@square_error (2 ^ 53) 0x16A09E667F3BCD 11091733693350994
                (2 ^ 51) a (Z.abs t * 2 ^ 53)
                ltac:(reflexivity) ltac:(reflexivity) ltac:(discriminate)
                ltac:(reflexivity) Ha ltac:(reflexivity)
                ltac:(vm_compute; discriminate) E) as S.
  replace (2 * (Z.abs t * 2 ^ 53 * (Z.abs t * 2 ^ 53)) - a * a * (2 ^ 53 * 2 ^ 53))%Z
    with ((2 ^ 53 * 2 ^ 53) * (2 * (Z.abs t * Z.abs t) - a * a))%Z in S by ring.
  rewrite Z.abs_mul, (Z.abs_eq (2 ^ 53 * 2 ^ 53)) in S by (vm_compute; discriminate).
  replace (2 ^ 51 * (2 ^ 53 * 2 ^ 53 * Z.abs (2 * (Z.abs t * Z.abs t) - a * a)))%Z
    with ((2 ^ 53 * 2 ^ 53) * (2 ^ 51 * Z.abs (2 * (Z.abs t * Z.abs t) - a * a)))%Z
    in S by ring.
  rewrite (Z.mul_comm (a * a)) in S.
  apply Z.mul_le_mono_pos_l in S; [|reflexivity].
  assert (Et : (Z.abs t * Z.abs t = t * t)%Z)
    by (rewrite <- Z.abs_mul; apply Z.abs_eq, Z.square_nonneg).
  assert (Ea : (a * a = ord x * ord x)%Z)
    by (subst a; rewrite <- Z.abs_mul; apply Z.abs_eq, Z.square_nonneg).
  rewrite Et, Ea in S. exact S.
Qed.

(** X13 at value = 1. *)
Lemma erf_argument_accuracy_witness :
  (2 ^ 51 * Z.abs (2 * (ord (mul lit_1 M_SQRT1_2) * ord (mul lit_1 M_SQRT1_2))
                  - ord lit_1 * ord lit_1)
   <= ord lit_1 * ord lit_1)%Z.
Proof.
  apply (@erf_argument_accuracy RefLibm.libm lit_1 eq_refl eq_refl).
  vm_compute. discriminate.
Defined.

(* ================================================================== *)
(** * Further properties of the computed CDF *)
(* ================================================================== *)

Section CdfFacts.

Variable lm : Libm.

Local Open Scope Z_scope.

(** The arithmetic around [erf] never makes a NaN of its own. *)
Lemma wrapper_nan (e : double) :
  valid e = true -> is_nan (mul lit_0_5 (add lit_1 e)) = is_nan e.
Proof.
  intros V. destruct e as [s|[|]| |s m k]; try reflexivity.
  destruct (@add_spec lit_1 (S754_finite s m k) eq_refl V eq_refl eq_refl)
    as (Va & Na & _).
  rewrite mul_comm. change lit_0_5 with (S754_finite false half_m half_e).
  apply (@SFmul_const_spec half_m half_e _ eq_refl Va Na).
Qed.

(** Where [erf] is in range the computed CDF is a double between 0
    and 1. *)
Lemma cdf_value (x : double) :
  erf_in_range_at lm (mul x M_SQRT1_2) ->
  valid (cdf_normal_distribution lm x) = true
  /\ is_nan (cdf_normal_distribution lm x) = false
  /\ 0 <= ord (cdf_normal_distribution lm x) <= 2 ^ 1074.
Proof.
  intros (V & L & H). destruct (range_of_leb _ V L H) as (N & R).
  destruct (wrapper_spec _ V N R) as (Vc & Nc & Oc).
  unfold cdf_normal_distribution. repeat split; try assumption;
    rewrite Oc; apply cdf_ord_range; exact R.
Qed.

Lemma cdf_monotone (x y : double) :
  erf_monotone lm -> erf_in_range lm ->
  valid x = true -> valid y = true -> leb x y = true ->
  leb (cdf_normal_distribution lm x) (cdf_normal_distribution lm y) = true.
Proof.
  intros Mono Range Vx Vy L.
  destruct (scale_monotone x y Vx Vy L) as (Vtx & Vty & Lt).
  destruct (leb_not_nan _ _ Lt) as (Ntx & Nty).
  destruct (Range _ Vtx Ntx) as (Vex & Lex & Hex).
  destruct (Range _ Vty Nty) as (Vey & Ley & Hey).
  pose proof (Mono _ _ Vtx Vty Ntx Nty Lt) as Le.
  unfold cdf_normal_distribution.
  apply (wrapper_monotone _ _ Vex Vey Lex Hey Le).
Qed.

End CdfFacts.

(** X9.  [cdf_normal_distribution] returns a NaN exactly when [erf]
    does: the scaling of the argument (for an argument that is not a
    NaN), the addition of 1 and the multiplication by 0.5 never produce a
    NaN of their own, also when [erf] returns an infinity. *)
Theorem cdf_nan_only_from_erf (lm : Libm) (x : double) :
  valid (erf lm (mul x M_SQRT1_2)) = true ->
  is_nan (cdf_normal_distribution lm x) = is_nan (erf lm (mul x M_SQRT1_2))
  /\ (valid x = true -> is_nan (mul x M_SQRT1_2) = is_nan x).
Proof.
  intros V. split.
  - unfold cdf_normal_distribution. apply wrapper_nan. exact V.
  - intros Vx. destruct x as [s|s| |s m e]; try reflexivity.
    apply (@scale_spec (S754_finite s m e) Vx eq_refl).
Qed.

(** X9 at x = 1 with the reference library. *)
Lemma cdf_nan_witness :
  is_nan (cdf_normal_distribution RefLibm.libm lit_1) = false.
Proof.
  destruct (@cdf_nan_only_from_erf RefLibm.libm lit_1) as (H & _).
  - vm_compute. reflexivity.
  - rewrite H. vm_compute. reflexivity.
Defined.

(** X10.  When [erf] is non-decreasing, stays between -1 and 1 and maps
    +0 to +0, the computed CDF is at least 0.5 for every x >= 0 and at
    most 0.5 for every x <= 0 (infinite x included). *)
Theorem cdf_half_at_zero (lm : Libm) (x : double) :
  erf_monotone lm -> erf_in_range lm -> erf lm pzero = pzero ->
  valid x = true ->
  (leb pzero x = true -> leb lit_0_5 (cdf_normal_distribution lm x) = true)
  /\ (leb x pzero = true -> leb (cdf_normal_distribution lm x) lit_0_5 = true).
Proof.
  intros Mono Range Z V.
  assert (H : cdf_normal_distribution lm pzero = lit_0_5).
  { unfold cdf_normal_distribution.
    change (mul pzero M_SQRT1_2) with pzero. rewrite Z. reflexivity. }
  split; intros L; rewrite <- H; apply cdf_monotone;
    try assumption; reflexivity.
Qed.

(** X10 for the clipped stand-in of [erf], at x = 1 and x = -1. *)
Lemma cdf_half_witness :
  leb lit_0_5 (cdf_normal_distribution libm_clip lit_1) = true
  /\ leb (cdf_normal_distribution libm_clip (opp lit_1)) lit_0_5 = true.
Proof.
  split.
  - apply (@cdf_half_at_zero libm_clip lit_1 erf_clip_monotone erf_clip_in_range
             eq_refl eq_refl). reflexivity.
  - apply (@cdf_half_at_zero libm_clip (opp lit_1) erf_clip_monotone
             erf_clip_in_range eq_refl eq_refl). reflexivity.
Defined.

(* ================================================================== *)
(** * Bounds on the call price *)
(* ================================================================== *)

(** X11.  The call price never exceeds the stock price.  For a stock
    price and a strike price that are finite and not negative, a
    discount factor exp(-r*T) that is finite and not negative, and [erf]
    within [-1, 1] at the two arguments it is called with, the value
    returned by [calculate_call_price] is not a NaN and is at most S,
    roundings included. *)
Theorem call_price_at_most_stock_price (lm : Libm) (S K T sigma r : double) :
  is_amount S = true -> is_amount K = true ->
  is_amount (exp lm (mul (opp r) T)) = true ->
  erf_in_range_at lm (mul (call_d1 lm S K T sigma r) M_SQRT1_2) ->
  erf_in_range_at lm (mul (call_d2 lm S K T sigma r) M_SQRT1_2) ->
  is_nan (calculate_call_price lm S K T sigma r) = false
  /\ leb (calculate_call_price lm S K T sigma r) S = true.
Proof.
  intros HS HK HE R1 R2.
  destruct (amount_inv _ HS) as (VS & FS & NS & OS).
  destruct (amount_inv _ HK) as (VK & FK & NK & OK).
  destruct (amount_inv _ HE) as (VE & FE & NE & OE).
  destruct (@cdf_value lm _ R1) as (V1 & N1 & O1).
  destruct (@cdf_value lm _ R2) as (V2 & N2 & O2).
  rewrite call_price_locals.
  set (c1 := cdf_normal_distribution lm (call_d1 lm S K T sigma r)) in *.
  set (c2 := cdf_normal_distribution lm (call_d2 lm S K T sigma r)) in *.
  set (E := exp lm (mul (opp r) T)) in *.
  destruct (mul_fraction c1 S V1 N1 O1 VS FS OS) as (VA & NA & OA).
  destruct (mul_fraction c2 K V2 N2 O2 VK FK OK) as (VB & NB & OB).
  pose proof (ord_of_finite K VK FK) as BK.
  assert (FB : is_finite (mul c2 K) = true)
    by (apply finite_of_ord; [assumption|lia]).
  destruct (mul_nonneg (mul c2 K) E VB FB ltac:(lia) VE FE OE) as (VP & NP & OP).
  pose proof (ord_of_finite S VS FS) as BS.
  assert (FA : is_finite (mul c1 S) = true)
    by (apply finite_of_ord; [assumption|lia]).
  assert (Nsub : is_nan (sub (mul c1 S) (mul (mul c2 K) E)) = false)
    by (apply sub_finite_not_nan; assumption).
  destruct (sub_le_l (mul c1 S) (mul (mul c2 K) E) VA VP NA NP OP Nsub)
    as (Vsub & Osub).
  split; [exact Nsub|].
  rewrite leb_ord by assumption. apply Z.leb_le. lia.
Qed.

(** X11 at S = K = 100, one year, sigma = 0.2 and r = 0.05. *)
Lemma call_price_bound_witness :
  is_nan (calculate_call_price RefLibm.libm (of_Z 100) (of_Z 100) lit_1
                               lit_0_2 lit_0_05) = false
  /\ leb (calculate_call_price RefLibm.libm (of_Z 100) (of_Z 100) lit_1
                               lit_0_2 lit_0_05) (of_Z 100) = true.
Proof.
  apply (@call_price_at_most_stock_price RefLibm.libm (of_Z 100) (of_Z 100)
           lit_1 lit_0_2 lit_0_05);
    vm_compute; repeat split.
Defined.

(** X12.  [d2] is never above [d1], and the second CDF value is never
    above the first.  When the divisor sigma*sqrt(T) is not negative and
    [d1] is not a NaN, [d2] is not a NaN either and d2 <= d1; and then,
    for an [erf] that is non-decreasing and stays between -1 and 1,
    cdf(d2) <= cdf(d1). *)
Theorem d2_at_most_d1 (lm : Libm) (S K T sigma r : double) :
  valid (call_d1 lm S K T sigma r) = true ->
  valid (call_divisor T sigma) = true ->
  leb pzero (call_divisor T sigma) = true ->
  is_nan (call_d1 lm S K T sigma r) = false ->
  is_nan (call_d2 lm S K T sigma r) = false
  /\ leb (call_d2 lm S K T sigma r) (call_d1 lm S K T sigma r) = true
  /\ (erf_monotone lm -> erf_in_range lm ->
      leb (cdf_normal_distribution lm (call_d2 lm S K T sigma r))
          (cdf_normal_distribution lm (call_d1 lm S K T sigma r)) = true).
Proof.
  intros V1 Vv Lv N1.
  destruct (leb_not_nan _ _ Lv) as (_ & Nv).
  rewrite leb_ord in Lv by (reflexivity || assumption). apply Z.leb_le in Lv.
  change (ord pzero) with 0%Z in Lv.
  assert (N2 : is_nan (call_d2 lm S K T sigma r) = false).
  { unfold call_d2. destruct (is_finite (call_divisor T sigma)) eqn:Fv.
    - destruct (is_finite (call_d1 lm S K T sigma r)) eqn:F1.
      + apply sub_finite_not_nan; assumption.
      + destruct (call_d1 lm S K T sigma r); try discriminate;
          destruct (call_divisor T sigma); try discriminate; reflexivity.
    - unfold call_d1 in *.
      destruct (call_divisor T sigma) as [| | |]; try discriminate;
        destruct (call_dividend lm S K T sigma r); try discriminate;
        reflexivity. }
  destruct (sub_le_l _ _ V1 Vv N1 Nv Lv N2) as (V2 & O2).
  assert (L : leb (call_d2 lm S K T sigma r) (call_d1 lm S K T sigma r) = true).
  { rewrite leb_ord by assumption. apply Z.leb_le. exact O2. }
  split; [exact N2|]. split; [exact L|].
  intros Mono Range. apply cdf_monotone; assumption.
Qed.

(** X12 at S = K = 100, one year, sigma = 0.2 and r = 0.05, for the
    clipped stand-in of [erf]. *)
Lemma d2_at_most_d1_witness :
  leb (call_d2 libm_clip (of_Z 100) (of_Z 100) lit_1 lit_0_2 lit_0_05)
      (call_d1 libm_clip (of_Z 100) (of_Z 100) lit_1 lit_0_2 lit_0_05) = true
  /\ leb (cdf_normal_distribution libm_clip
            (call_d2 libm_clip (of_Z 100) (of_Z 100) lit_1 lit_0_2 lit_0_05))
         (cdf_normal_distribution libm_clip
            (call_d1 libm_clip (of_Z 100) (of_Z 100) lit_1 lit_0_2 lit_0_05))
     = true.
Proof.
  destruct (@d2_at_most_d1 libm_clip (of_Z 100) (of_Z 100) lit_1 lit_0_2
              lit_0_05) as (_ & H1 & H2);
    try (vm_compute; reflexivity).
  split; [exact H1|].
  apply H2; [exact erf_clip_monotone|exact erf_clip_in_range].
Defined.

